(** * Parallel Bloom filter (parallel.c): shallow embedding and properties

    The development follows [parallel.c]:
    - [APHashWithSalt]: the salted AP hash on 32-bit unsigned integers;
    - [insertWords] / [lookUp]: the filter store, an array of [int] cells;
    - [testBloomWithQueries]: the evaluation harness and its four counters;
    - the sizing code of [main] ([calculateOptimalArraySize] and the global
      hash count [k]), in IEEE 754 binary64;
    - [readWordsFromFile], [readQuery] and [main]: the two readers of the
      input files and the exits of the program.

    Conventions of the embedding.
    - C [int] and [unsigned int] values are integers of [Z]; conversions and
      wrap-around are written out with [to_uint] and [to_int] (32 bits, as
      for gcc on the x86-64 cluster of [bloom.job]).
    - A C string is a [string]; reading stops at the first NUL character or
      at the end of the [string], which stands for the terminator.  [char]
      is signed (gcc, x86-64).
    - An operation whose behaviour C leaves undefined (an array access out of
      bounds, an integer division by zero) yields [None].
    - The global [k] is an explicit argument of the functions that read it. *)

From Stdlib Require Import ZArith Lia Ascii String Reals Lra Zfloor SpecFloat.
From stdpp Require Import base list strings.

Local Open Scope Z_scope.

(** ** Machine integers *)

Module MachineInt.

Definition UINT_MODULUS : Z := 2 ^ 32.
Definition INT_MAX : Z := 2147483647.
Definition INT_MIN : Z := - 2147483648.

(** Conversion to [unsigned int]: reduction modulo 2^32. *)
Definition to_uint (z : Z) : Z := z mod UINT_MODULUS.

(** Conversion of an [unsigned int] to [int] (gcc: modulo 2^32, two's
    complement). *)
Definition to_int (z : Z) : Z :=
  let u := z mod UINT_MODULUS in
  if u <? 2 ^ 31 then u else u - UINT_MODULUS.

(** [x << n] on [unsigned int]. *)
Definition shl (x n : Z) : Z := to_uint (Z.shiftl x n).

(** [x >> n] on [unsigned int]. *)
Definition shr (x n : Z) : Z := Z.shiftr x n.

(** [~x] on [unsigned int]. *)
Definition bnot (x : Z) : Z := to_uint (Z.lnot x).

(** Value of a [char] after integer promotion: signed, 8 bits. *)
Definition char_to_int (c : ascii) : Z :=
  let n := Z.of_N (N_of_ascii c) in
  if n <? 128 then n else n - 256.

Definition is_uint (z : Z) : Prop := 0 <= z < UINT_MODULUS.

End MachineInt.

Import MachineInt.

(** ** The salted hash *)

(** The loop [for (int i = 0; str[i]; i++)] of [APHashWithSalt], from
    position [i] with accumulator [hash]. *)
Fixpoint APHash_loop (str : string) (i : Z) (hash : Z) : Z :=
  match str with
  | EmptyString => hash
  | String c rest =>
      if (char_to_int c =? 0) then hash
      else
        let hash' :=
          if Z.rem i 2 =? 1
          then Z.lxor hash
                 (Z.lxor (Z.lxor (shl hash 7) (to_uint (char_to_int c)))
                         (shr hash 3))
          else Z.lxor hash
                 (bnot (Z.lxor (Z.lxor (shl hash 11) (to_uint (char_to_int c)))
                               (shr hash 5)))
        in APHash_loop rest (i + 1) hash'
  end.

(** [unsigned int APHashWithSalt(char *str, unsigned int salt, int m)].
    In [hash % m] the [int] [m] is converted to [unsigned int]; a zero
    divisor is undefined. *)
Definition APHashWithSalt (str : string) (salt : Z) (m : Z) : option Z :=
  let hash := APHash_loop str 0 salt in
  if to_uint m =? 0 then None else Some (hash mod to_uint m).

(** ** The filter store *)

(** Iteration of a loop body that may fault, threading the loop state. *)
Fixpoint foldM {S A : Type} (body : S -> A -> option S) (s : S) (its : list A)
  : option S :=
  match its with
  | [] => Some s
  | it :: its' => s' ← body s it; foldM body s' its'
  end.

(** [bitArray[i]] as an rvalue. *)
Definition load (bitArray : list Z) (i : Z) : option Z :=
  if 0 <=? i then bitArray !! Z.to_nat i else None.

(** [bitArray[i] = v]. *)
Definition store (bitArray : list Z) (i : Z) (v : Z) : option (list Z) :=
  if (0 <=? i) && (i <? Z.of_nat (length bitArray))
  then Some (<[Z.to_nat i := v]> bitArray)
  else None.

(** The iteration space of the two collapsed loops of [insertWords],
    [(i, h)] for [0 <= i < numToInsert] and [0 <= h < k], in sequential
    (lexicographic) order. *)
Definition iteration_space (numToInsert k : Z) : list (Z * Z) :=
  i ← seqZ 0 numToInsert; h ← seqZ 0 k; [(i, h)].

(** The index and the value of the store of one iteration. *)
Definition insert_write (ppWordListArray : list string) (m : Z) (it : Z * Z)
  : option (Z * Z) :=
  word ← ppWordListArray !! Z.to_nat (fst it);
  hash ← APHashWithSalt word (to_uint (snd it)) m;
  Some (hash, 1).

(** The body of the loops: [hash = APHashWithSalt(ppWordListArray[i], h, m);
    bitArray[hash] = 1;]. *)
Definition insert_body (ppWordListArray : list string) (m : Z)
    (bitArray : list Z) (it : Z * Z) : option (list Z) :=
  w ← insert_write ppWordListArray m it;
  store bitArray (fst w) (snd w).

(** The loops run in a given order of the iterations. *)
Definition insertWords_in_order (ppWordListArray : list string)
    (bitArray : list Z) (m : Z) (order : list (Z * Z)) : option (list Z) :=
  foldM (insert_body ppWordListArray m) bitArray order.

(** [void insertWords(char **ppWordListArray, int numToInsert, int *bitArray,
    int m)], sequential execution; [k] is the global hash count. *)
Definition insertWords (ppWordListArray : list string) (numToInsert : Z)
    (bitArray : list Z) (m : Z) (k : Z) : option (list Z) :=
  insertWords_in_order ppWordListArray bitArray m (iteration_space numToInsert k).

(** One iteration of the loop of [lookUp]:
    [index = APHashWithSalt(word, h, m);
     isPossiblyInSet = (bitArray[index] && isPossiblyInSet);]. *)
Definition lookUp_body (word : string) (bitArray : list Z) (m : Z)
    (isPossiblyInSet : Z) (h : Z) : option Z :=
  hash ← APHashWithSalt word (to_uint h) m;
  cell ← load bitArray (to_int hash);
  Some (if negb (cell =? 0) && negb (isPossiblyInSet =? 0) then 1 else 0).

(** [int lookUp(char *word, int *bitArray, int m)]. *)
Definition lookUp (word : string) (bitArray : list Z) (m : Z) (k : Z)
  : option Z :=
  foldM (lookUp_body word bitArray m) 1 (seqZ 0 k).

(** ** Parallel execution of [insertWords]

    [#pragma omp parallel for collapse(2) schedule(static, 1)] deals the
    iterations of the collapsed space round-robin to the threads of the team;
    a thread runs its iterations in order, and the stores of the threads
    interleave.  Each store of an [int] cell is taken as one atomic step. *)

(** The iterations of thread [t] in a team of [T] threads. *)
Fixpoint static_chunk {A : Type} (T t : nat) (pos : nat) (its : list A) : list A :=
  match its with
  | [] => []
  | it :: its' =>
      if decide (pos `mod` T = t)%nat
      then it :: static_chunk T t (S pos) its'
      else static_chunk T t (S pos) its'
  end.

Definition static_schedule {A : Type} (T : nat) (its : list A) : list (list A) :=
  (λ t, static_chunk T t 0%nat its) <$> seq 0 T.

(** [interleaving threads order]: [order] is an interleaving of the
    sequences of [threads], each kept in its own order. *)
Inductive interleaving {A : Type} : list (list A) -> list A -> Prop :=
  | interleaving_done threads :
      Forall (λ th, th = []) threads -> interleaving threads []
  | interleaving_step threads t it rest order :
      threads !! t = Some (it :: rest) ->
      interleaving (<[t := rest]> threads) order ->
      interleaving threads (it :: order).

(** ** The evaluation harness *)

Record counters : Type := Counters {
  fPositive : Z;
  fNegative : Z;
  totalPositive : Z;
  totalNegative : Z
}.

Definition no_counts : counters := Counters 0 0 0 0.

(** The classification of one query by the body of the loop. *)
Definition classify (expectedBit lookupResult : Z) (c : counters) : counters :=
  if expectedBit =? 1 then
    let c := Counters (fPositive c) (fNegative c) (totalPositive c + 1) (totalNegative c) in
    if lookupResult =? 0
    then Counters (fPositive c) (fNegative c + 1) (totalPositive c) (totalNegative c)
    else c
  else if expectedBit =? 0 then
    let c := Counters (fPositive c) (fNegative c) (totalPositive c) (totalNegative c + 1) in
    if lookupResult =? 1
    then Counters (fPositive c + 1) (fNegative c) (totalPositive c) (totalNegative c)
    else c
  else c.

(** The body of the loop of [testBloomWithQueries] at index [i]. *)
Definition test_body (bitArray : list Z) (words : list string) (bits : list Z)
    (m k : Z) (c : counters) (i : Z) : option counters :=
  tempWord ← words !! Z.to_nat i;
  expectedBit ← bits !! Z.to_nat i;
  lookupResult ← lookUp tempWord bitArray m k;
  Some (classify expectedBit lookupResult c).

(** The counting loop, run in a given order of the indices. *)
Definition count_in_order (bitArray : list Z) (words : list string)
    (bits : list Z) (m k : Z) (order : list Z) : option counters :=
  foldM (test_body bitArray words bits m k) no_counts order.

(** ** The rates that are printed

    The two rates that [testBloomWithQueries] prints are modelled on the
    real numbers: the rounding of the quotient and of the product is left
    out, and the two results of a division by zero that are not real numbers
    are kept apart.  (The sizing code, whose results are converted to [int],
    is modelled in binary64 below.) *)

Inductive double : Type :=
  | Finite (x : R)
  | Infinity
  | NotANumber.

(** [(double)count / total * 100] for two non-negative counters. *)
Definition percentage (count total : Z) : double :=
  if total =? 0
  then (if count =? 0 then NotANumber else Infinity)
  else Finite (IZR count / IZR total * 100)%R.

Record report : Type := Report {
  counts : counters;
  falseNegativePercentage : double;
  falsePositivePercentage : double
}.

(** [void testBloomWithQueries(int *bitArray, char **words, int *bits,
    int length, int m)]: the counters after the loop and the two percentages
    that are printed.  The line printed for each false negative is left
    out. *)
Definition testBloomWithQueries (bitArray : list Z) (words : list string)
    (bits : list Z) (length m k : Z) : option report :=
  c ← count_in_order bitArray words bits m k (seqZ 0 length);
  Some (Report c
          (percentage (fNegative c) (totalPositive c))
          (percentage (fPositive c) (totalNegative c))).

(** ** Sizing

    The sizing code computes in [double].  A [double] is a binary64 value of
    IEEE 754, and [*] and [/] on [double] are the correctly rounded
    operations (round to nearest, ties to even): the model takes them from
    the Standard Library's specification of floating-point arithmetic, at
    precision 53 and [emax] 1024. *)

Definition binary64 : Type := spec_float.

Definition b64_mul : binary64 -> binary64 -> binary64 := SFmul 53 1024.

Definition b64_div : binary64 -> binary64 -> binary64 := SFdiv 53 1024.

(** The conversion of an [int] to [double]; it is exact. *)
Definition b64_of_int (i : Z) : binary64 := binary_normalize 53 1024 i 0 false.

(** The integer that [ceil(x)] is, for a finite [x]. *)
Definition b64_ceil (x : binary64) : option Z :=
  match x with
  | S754_zero _ => Some 0
  | S754_finite s m e =>
      let v := cond_Zopp s (Z.pos m) in
      Some (if 0 <=? e then v * 2 ^ e else - ((- v) / 2 ^ (- e)))
  | _ => None
  end.

(** The integer that a finite [x] is truncated to, toward zero, by its
    conversion to an integer type. *)
Definition b64_trunc (x : binary64) : option Z :=
  match x with
  | S754_zero _ => Some 0
  | S754_finite s m e =>
      let v := cond_Zopp s (Z.pos m) in
      Some (if 0 <=? e then v * 2 ^ e else Z.quot v (2 ^ (- e)))
  | _ => None
  end.

(** Conversion of an integral [double] to [int]; undefined out of range. *)
Definition double_to_int (z : Z) : option Z :=
  if (INT_MIN <=? z) && (z <=? INT_MAX) then Some z else None.

(** [#define MAX_FP 0.01]: the [double] nearest to 1/100,
    [0x1.47ae147ae147bp-7]. *)
Definition MAX_FP : binary64 := S754_finite false 5764607523034235 (-59).

(** The calls of the C library.  [log] and [pow] are not operations of
    IEEE 754, and the program calls them on constants only; the model has
    the value of each call, which is the [double] nearest to the real
    logarithm or power, as glibc returns it:
    - [log(MAX_FP)] is [-0x1.26bb1bbb55515p+2], about -4.605170185988091;
    - [log(2)] is [0x1.62e42fefa39efp-1], about 0.6931471805599453;
    - [pow(2, log(2))] is [0x1.9de70ac53b8aap+0], about 1.6168066722416747;
    - [log(1 / pow(2, log(2)))], the logarithm of the quotient
      [0x1.3cac717aa98c8p-1], is [-0x1.ebfbdff82c59p-2], about
      -0.4804530139182015. *)
Definition log_MAX_FP : binary64 := S754_finite true 5184960683398421 (-50).

Definition log_2 : binary64 := S754_finite false 6243314768165359 (-53).

Definition pow_2_log_2 : binary64 := S754_finite false 7281449926637738 (-52).

Definition log_inverse_pow : binary64 :=
  S754_finite true 8655072057804176 (-54).

(** [int calculateOptimalArraySize(int n)]:
    [int m = ceil((n * log(MAX_FP)) / log(1 / pow(2, log(2))))].  The
    conversion of the [double] to [int] is undefined when the value is not
    in the range of [int]. *)
Definition calculateOptimalArraySize (n : Z) : option Z :=
  z ← b64_ceil (b64_div (b64_mul (b64_of_int n) log_MAX_FP) log_inverse_pow);
  double_to_int z.

(** [k = (m/numToInsert) * log(2);] of [main]: the quotient is the division
    of two [int]s, undefined for a zero divisor and when the quotient is not
    an [int]; the product is a [double], truncated by the assignment to the
    [int] [k]. *)
Definition hash_count (m numToInsert : Z) : option Z :=
  if numToInsert =? 0 then None
  else if (m =? INT_MIN) && (numToInsert =? -1) then None
  else
    z ← b64_trunc (b64_mul (b64_of_int (Z.quot m numToInsert)) log_2);
    double_to_int z.

(** The sizing of [main]: [m] and then the global [k]. *)
Definition main_sizing (numToInsert : Z) : option (Z * Z) :=
  m ← calculateOptimalArraySize numToInsert;
  k ← hash_count m numToInsert;
  Some (m, k).

(** [malloc(m * sizeof(int))]: a block of [m] cells whose contents are
    indeterminate.  The relation holds of every block that the call may
    return. *)
Inductive malloc_int_array (m : Z) : list Z -> Prop :=
  | malloc_block cells :
      Z.of_nat (length cells) = m -> malloc_int_array m cells.

(** The run of [main] from the sizing to the report, for the words and the
    queries read from the two files; [bitArray] is the block returned by
    [malloc].  The exits of [main] for a wrong argument count, an unreadable
    word file and a failed allocation come before and are left out. *)
Definition main_run (ppInsertWordListArray : list string)
    (queries : list string) (bits : list Z) (bitArray : list Z)
  : option report :=
  let numToInsert := Z.of_nat (length ppInsertWordListArray) in
  let querySize := Z.of_nat (length queries) in
  '(m, k) ← main_sizing numToInsert;
  filled ← insertWords ppInsertWordListArray numToInsert bitArray m k;
  testBloomWithQueries filled queries bits querySize m k.

(** ** Vocabulary of the statements *)

(** The cell that [lookUp] reads for salt [h]: the bit at index
    [APHashWithSalt(word, h, m)]. *)
Definition bit_at (word : string) (bitArray : list Z) (m : Z) (h : Z)
  : option Z :=
  hash ← APHashWithSalt word (to_uint h) m;
  load bitArray (to_int hash).

(** A cell counts as set when it is non-zero, which is what [&&] tests. *)
Definition bit_is_set (cell : option Z) : Prop :=
  exists v, cell = Some v /\ v <> 0.

(** [bitArray'] comes from [bitArray] by setting cells to 1 and nothing
    else. *)
Definition only_sets (bitArray bitArray' : list Z) : Prop :=
  length bitArray' = length bitArray /\
  forall (j : nat) (x : Z), bitArray !! j = Some x ->
    bitArray' !! j = Some x \/ bitArray' !! j = Some 1.

(** The sizes and counts that [main] can pass: [m] is a positive [int] and
    [bitArray] has [m] cells. *)
Definition filter_shape (bitArray : list Z) (m : Z) : Prop :=
  1 <= m <= INT_MAX /\ Z.of_nat (length bitArray) = m.

(** ** The hash as the specification words it

    The accumulator starts at [salt]; the characters are taken by position;
    an odd position mixes by [acc ^= (acc<<7) ^ char ^ (acc>>3)], an even one
    by [acc ^= ~((acc<<11) ^ char ^ (acc>>5))]; the arithmetic wraps at the
    width of the unsigned integer; the result is [acc mod modulus].  Here the
    operations are those of the unbounded two's-complement integers and the
    wrap is applied to the outcome of each step. *)

Module HashSpec.

Definition wrap (z : Z) : Z := z mod 2 ^ 32.

(** The characters of a C string, up to its terminator. *)
Fixpoint chars (element : string) : list Z :=
  match element with
  | EmptyString => []
  | String c rest =>
      if char_to_int c =? 0 then [] else char_to_int c :: chars rest
  end.

Definition mix_odd (acc char : Z) : Z :=
  wrap (Z.lxor acc
          (Z.lxor (Z.lxor (Z.shiftl acc 7) char) (Z.shiftr acc 3))).

Definition mix_even (acc char : Z) : Z :=
  wrap (Z.lxor acc
          (Z.lnot (Z.lxor (Z.lxor (Z.shiftl acc 11) char) (Z.shiftr acc 5)))).

Definition mix (acc : Z) (positioned : Z * Z) : Z :=
  let '(position, char) := positioned in
  if Z.odd position then mix_odd acc char else mix_even acc char.

(** The characters paired with their positions, counted from [first]. *)
Definition positions_from (first : Z) (cs : list Z) : list (Z * Z) :=
  zip (seqZ first (Z.of_nat (length cs))) cs.

Definition hash (element : string) (salt modulus : Z) : Z :=
  fold_left mix (positions_from 0 (chars element)) salt mod modulus.

End HashSpec.

(** ** The evaluation as the specification words it

    A query record is a pair of an element and its ground-truth bit.  A
    record is a false negative when its ground truth is 1 and the lookup
    answers 0, a false positive when its ground truth is 0 and the lookup
    answers 1; the four counts are the numbers of such records. *)

Module EvalSpec.

Abbreviation query_record := (string * Z)%type.

Section Tally.
Context (lookup : string -> option Z).

Definition lookup_is (answer : Z) (q : query_record) : bool :=
  match lookup (fst q) with
  | Some r => r =? answer
  | None => false
  end.

Definition is_positive (q : query_record) : bool := snd q =? 1.
Definition is_negative (q : query_record) : bool := snd q =? 0.
Definition is_false_negative (q : query_record) : bool :=
  is_positive q && lookup_is 0 q.
Definition is_false_positive (q : query_record) : bool :=
  is_negative q && lookup_is 1 q.

Definition count (P : query_record -> bool) (qs : list query_record) : Z :=
  Z.of_nat (length (filter (fun q => P q = true) qs)).

Definition tally (qs : list query_record) : counters :=
  Counters (count is_false_positive qs) (count is_false_negative qs)
           (count is_positive qs) (count is_negative qs).
End Tally.

End EvalSpec.

(** Sum of two sets of counters, the [reduction(+: ...)] of the loop. *)
Definition add_counts (c d : counters) : counters :=
  Counters (fPositive c + fPositive d) (fNegative c + fNegative d)
           (totalPositive c + totalPositive d)
           (totalNegative c + totalNegative d).


(** The query records that a list of loop indices visits, read from the
    two arrays of [testBloomWithQueries]. *)
Definition queries_at (queries : list EvalSpec.query_record) (order : list Z)
  : list EvalSpec.query_record :=
  omap (fun i => if 0 <=? i then queries !! Z.to_nat i else None) order.

(** Cell [j] is the index that [insertWords] computes for some word of the
    list under some salt below [k]. *)
Definition is_hash_index (words : list string) (m k : Z) (j : nat) : Prop :=
  exists word h,
    word ∈ words /\ 0 <= h < k /\
    APHashWithSalt word (to_uint h) m = Some (Z.of_nat j).

(** A percentage that [testBloomWithQueries] may print for a class of
    [total] records: not a number when the class is empty, and otherwise a
    value between 0 and 100; never an infinity. *)
Definition sound_percentage (total : Z) (p : double) : Prop :=
  match p with
  | Finite x => total <> 0 /\ (0 <= x <= 100)%R
  | NotANumber => total = 0
  | Infinity => False
  end.

(** The string has no NUL character. *)
Fixpoint no_nul (str : string) : bool :=
  match str with
  | EmptyString => true
  | String c rest => negb (char_to_int c =? 0) && no_nul rest
  end.

(** ** Reading the files

    A file that [fopen] opens is the string of its bytes, together with
    whether its stream can be repositioned: on a pipe or a terminal [fseek]
    fails and leaves the stream where it is.  A stream is the part of the
    file that is still to be read.  The calls of [fscanf] follow the C
    standard: white space is what [isspace] accepts in the C locale; [%s]
    skips white space and stores the longest run of other characters,
    followed by a NUL, in the buffer; [%d] skips white space and converts an
    optional sign and the longest run of decimal digits; a conversion that
    fails leaves unread what follows the characters it has accepted.
    Writing past the buffer [word] and converting a number that is not an
    [int] are undefined.  The arrays of [malloc] and the copies of [strdup]
    are allocated or not, as the caller of the model says; a copy that is
    not allocated is a [NULL] entry, [None]. *)

Record file : Type := File {
  contents : string;
  seekable : bool
}.

(** The outcome of a call: a result, undefined behaviour, or a loop of the
    model that ran out of fuel. *)
Inductive outcome (A : Type) : Type :=
  | Returns (a : A)
  | Undefined
  | OutOfFuel.
Arguments Returns {A} a.
Arguments Undefined {A}.
Arguments OutOfFuel {A}.

#[global] Instance outcome_bind : MBind outcome := fun A B f o =>
  match o with
  | Returns a => f a
  | Undefined => Undefined
  | OutOfFuel => OutOfFuel
  end.

(** An operation of the embedding above, where [None] is undefined
    behaviour. *)
Definition defined {A : Type} (o : option A) : outcome A :=
  match o with
  | Some a => Returns a
  | None => Undefined
  end.

Definition MAX_WORD_LENGTH : Z := 100.

(** [isspace] in the C locale: space, and the characters 9 to 13. *)
Definition is_space (c : ascii) : bool :=
  let n := Z.of_N (N_of_ascii c) in
  (n =? 32) || ((9 <=? n) && (n <=? 13)).

Definition is_digit (c : ascii) : bool :=
  let n := Z.of_N (N_of_ascii c) in
  (48 <=? n) && (n <=? 57).

Fixpoint skip_spaces (stream : string) : string :=
  match stream with
  | String c rest => if is_space c then skip_spaces rest else stream
  | EmptyString => EmptyString
  end.

(** The longest run of characters that are not white space, and the stream
    after it. *)
Fixpoint scan_token (stream : string) : string * string :=
  match stream with
  | EmptyString => (EmptyString, EmptyString)
  | String c rest =>
      if is_space c then (EmptyString, stream)
      else let '(token, after) := scan_token rest in (String c token, after)
  end.

(** The result of one conversion: the value and the stream after it, no
    match and the stream that is left, or undefined behaviour. *)
Inductive conversion (A : Type) : Type :=
  | Matched (a : A) (rest : string)
  | NoMatch (rest : string)
  | Overrun.
Arguments Matched {A} a rest.
Arguments NoMatch {A} rest.
Arguments Overrun {A}.

(** The conversion [%s] into [char word[MAX_WORD_LENGTH]]. *)
Definition scan_s (stream : string) : conversion string :=
  let '(token, rest) := scan_token (skip_spaces stream) in
  match token with
  | EmptyString => NoMatch rest
  | _ =>
      if MAX_WORD_LENGTH <=? Z.of_nat (String.length token) then Overrun
      else Matched token rest
  end.

(** The longest run of decimal digits: how many there are, their value
    after [value], and the stream after them. *)
Fixpoint scan_digits (stream : string) (count : nat) (value : Z)
  : nat * Z * string :=
  match stream with
  | String c rest =>
      if is_digit c
      then scan_digits rest (S count)
             (10 * value + (Z.of_N (N_of_ascii c) - 48))
      else (count, value, stream)
  | EmptyString => (count, value, EmptyString)
  end.

(** The digits of [%d] and their conversion to an [int], after the sign. *)
Definition scan_number (negative : bool) (stream : string) : conversion Z :=
  let '(count, value, rest) := scan_digits stream 0 0 in
  match count with
  | O => NoMatch rest
  | S _ =>
      let v := if negative then - value else value in
      if (INT_MIN <=? v) && (v <=? INT_MAX) then Matched v rest else Overrun
  end.

(** The conversion [%d] into an [int]. *)
Definition scan_d (stream : string) : conversion Z :=
  match skip_spaces stream with
  | String "-" rest => scan_number true rest
  | String "+" rest => scan_number false rest
  | s => scan_number false s
  end.

(** [strdup(word)]: the copy ends at the first NUL of the buffer. *)
Fixpoint strdup (word : string) : string :=
  match word with
  | EmptyString => EmptyString
  | String c rest =>
      if char_to_int c =? 0 then EmptyString else String c (strdup rest)
  end.

(** The pointer that the call number [i] of [strdup] in a loop returns:
    [copied i] tells whether the copy can be allocated, and the pointer is
    [NULL] when it cannot. *)
Definition strdup_at (copied : nat -> bool) (i : nat) (word : string)
  : option string :=
  if copied i then Some (strdup word) else None.

(** [length++] on an [int]. *)
Definition increment (length : Z) : outcome Z :=
  if length <? INT_MAX then Returns (length + 1) else Undefined.

(** [while (fscanf(file, "%s", word) == 1) { length++; }]: the count and
    the stream that the loop leaves. *)
Fixpoint count_words_loop (fuel : nat) (stream : string) (length : Z)
  : outcome (Z * string) :=
  match fuel with
  | O => OutOfFuel
  | S fuel' =>
      match scan_s stream with
      | Matched _ rest =>
          length' ← increment length; count_words_loop fuel' rest length'
      | NoMatch rest => Returns (length, rest)
      | Overrun => Undefined
      end
  end.

(** [fseek(file, 0, SEEK_SET)], whose result the program does not test: the
    stream is back at the start of the file when it can be repositioned,
    and stays where the first loop has left it when it cannot. *)
Definition rewound (f : file) (stream : string) : string :=
  if seekable f then contents f else stream.

(** The loop [for (int i = 0; i < length; i++)] of [readWordsFromFile] with
    [remaining] iterations to go; the index [i] is the number of entries
    stored so far.  The result is [None] on the path that prints the error
    and returns [NULL]. *)
Fixpoint read_words_loop (copied : nat -> bool) (remaining : nat)
    (stream : string) (ppWordListArray : list (option string))
  : outcome (option (list (option string))) :=
  match remaining with
  | O => Returns (Some ppWordListArray)
  | S remaining' =>
      match scan_s stream with
      | Matched word rest =>
          read_words_loop copied remaining' rest
            (ppWordListArray
             ++ [strdup_at copied (length ppWordListArray) word])
      | NoMatch _ => Returns None
      | Overrun => Undefined
      end
  end.

(** [char** readWordsFromFile(const char *filename, int *wordListLength)]:
    the array returned and the value stored in [*wordListLength], or [None]
    for [NULL], in which case [*wordListLength] is not written.
    [array_allocated] tells whether [malloc] returned an array, and [copied]
    which calls of [strdup] returned a copy. *)
Definition readWordsFromFile (file : option file) (array_allocated : bool)
    (copied : nat -> bool)
  : outcome (option (list (option string) * Z)) :=
  match file with
  | None => Returns None
  | Some f =>
      '(length, rest) ←
        count_words_loop (S (String.length (contents f))) (contents f) 0;
      if array_allocated then
        read ← read_words_loop copied (Z.to_nat length) (rewound f rest) [];
        match read with
        | Some ppWordListArray => Returns (Some (ppWordListArray, length))
        | None => Returns None
        end
      else Returns None
  end.

(** One call [fscanf(file, "%s %d", word, &queryBit)] that returns 2: the
    word, the bit and the stream after them.  [NoMatch] stands for every
    other return value. *)
Definition scan_s_d (stream : string) : conversion (string * Z) :=
  match scan_s stream with
  | Matched word rest =>
      match scan_d (skip_spaces rest) with
      | Matched queryBit rest' => Matched (word, queryBit) rest'
      | NoMatch rest' => NoMatch rest'
      | Overrun => Overrun
      end
  | NoMatch rest => NoMatch rest
  | Overrun => Overrun
  end.

(** [while (fscanf(file, "%s %d", word, &queryBit) == 2) { fileLength++; }]:
    the count and the stream that the loop leaves. *)
Fixpoint count_queries_loop (fuel : nat) (stream : string) (fileLength : Z)
  : outcome (Z * string) :=
  match fuel with
  | O => OutOfFuel
  | S fuel' =>
      match scan_s_d stream with
      | Matched _ rest =>
          fileLength' ← increment fileLength;
          count_queries_loop fuel' rest fileLength'
      | NoMatch rest => Returns (fileLength, rest)
      | Overrun => Undefined
      end
  end.

(** The loop that fills the two buffers of [readQuery]: the entries written
    so far, in order.  The [break] leaves the buffers as filled so far; the
    entries after them are never written. *)
Fixpoint read_queries_loop (copied : nat -> bool) (remaining : nat)
    (stream : string) (wordsBuffer : list (option string)) (bits : list Z)
  : outcome (list (option string) * list Z) :=
  match remaining with
  | O => Returns (wordsBuffer, bits)
  | S remaining' =>
      match scan_s_d stream with
      | Matched (word, queryBit) rest =>
          read_queries_loop copied remaining' rest
            (wordsBuffer ++ [strdup_at copied (length wordsBuffer) word])
            (bits ++ [queryBit])
      | NoMatch _ => Returns (wordsBuffer, bits)
      | Overrun => Undefined
      end
  end.

(** [void readQuery(const char *fileName, char ***wordsBuffer, int **bits,
    int *length)]: the values of [*wordsBuffer], [*bits] and [*length] at
    the return, from their values [before] the call.  A buffer is the list
    of its entries that have been written, in order; a [NULL] buffer is the
    empty list.  An entry below [*length] that was never written has an
    indeterminate value: the model gives it none, and a run that reads it
    has no outcome in the model. *)
Definition readQuery (file : option file)
    (words_allocated bits_allocated : bool) (copied : nat -> bool)
    (before : list (option string) * list Z * Z)
  : outcome (list (option string) * list Z * Z) :=
  match file with
  | None => Returns before
  | Some f =>
      '(fileLength, rest) ←
        count_queries_loop (S (String.length (contents f))) (contents f) 0;
      if words_allocated && bits_allocated then
        '(wordsBuffer, bits) ←
          read_queries_loop copied (Z.to_nat fileLength) (rewound f rest)
            [] [];
        Returns (wordsBuffer, bits, fileLength)
      else Returns ([], [], snd before)
  end.

(** What the allocator returns to the two readers: the arrays of [malloc],
    allocated or not, and the copies of [strdup], call by call. *)
Record allocations : Type := Allocations {
  word_array_allocated : bool;
  word_copies : nat -> bool;
  query_words_allocated : bool;
  query_bits_allocated : bool;
  query_copies : nat -> bool
}.

(** The strings that the entries of an array point to; there are none when
    an entry is [NULL]. *)
Definition dereferenced (array : list (option string))
  : option (list string) :=
  mapM (fun pointer : option string => pointer) array.

(** The strings that [insertWords] and [lookUp] hash, from an array of
    pointers.  With at least one hash function [APHashWithSalt] reads
    through every entry, and through a [NULL] entry the read is undefined;
    with none, no entry is read through. *)
Definition pointees (k : Z) (array : list (option string))
  : option (list string) :=
  if 0 <? k then dereferenced array
  else Some (default EmptyString <$> array).

(** [int main(int argc, char *argv[])]: the value returned and the report
    printed, if the run gets to it.  The two files are read by the two
    sections, which share no variable; [bitArray] is what [malloc] returns
    for the bit array, [None] for [NULL].  The times printed are left
    out. *)
Definition main (argc : Z) (insertFile testFile : option file)
    (alloc : allocations) (bitArray : option (list Z))
  : outcome (Z * option report) :=
  if negb (argc =? 3) then Returns (-1, None)
  else
    '(queries, bits, querySize) ←
      readQuery testFile (query_words_allocated alloc)
        (query_bits_allocated alloc) (query_copies alloc) ([], [], 0);
    read ← readWordsFromFile insertFile (word_array_allocated alloc)
             (word_copies alloc);
    match read with
    | None => Returns (-1, None)
    | Some (ppInsertWordListArray, numToInsert) =>
        '(m, k) ← defined (main_sizing numToInsert);
        match bitArray with
        | None => Returns (1, None)
        | Some cells =>
            words ← defined (pointees k ppInsertWordListArray);
            filled ← defined (insertWords words numToInsert cells m k);
            queryWords ← defined (pointees k queries);
            r ← defined (testBloomWithQueries filled queryWords bits
                           querySize m k);
            Returns (0, Some r)
        end
    end.

(** ** The text of the files, as a reader of the program sees it *)

(** The words of a text: its longest runs of characters that are not white
    space, in order.  [current] is the word that is being read. *)
Fixpoint split_words (text : string) (current : string) : list string :=
  match text with
  | EmptyString =>
      match current with EmptyString => [] | _ => [current] end
  | String c rest =>
      if is_space c then
        match current with
        | EmptyString => split_words rest EmptyString
        | _ => current :: split_words rest EmptyString
        end
      else split_words rest (current ++ String c EmptyString)
  end.

Definition tokens (text : string) : list string := split_words text EmptyString.

(** The pointers that [strdup] returns for a list of words, when the first
    of the calls is the call number [i]. *)
Fixpoint copies (copied : nat -> bool) (i : nat) (words : list string)
  : list (option string) :=
  match words with
  | [] => []
  | word :: words' => strdup_at copied i word :: copies copied (S i) words'
  end.

(** The word and its NUL fit the buffer [char word[MAX_WORD_LENGTH]]. *)
Definition fits_buffer (token : string) : bool :=
  Z.of_nat (String.length token) <? MAX_WORD_LENGTH.

Fixpoint all_chars (P : ascii -> bool) (s : string) : bool :=
  match s with
  | EmptyString => true
  | String c rest => P c && all_chars P rest
  end.

(** A word as a file holds it: not empty, without white space and without
    NUL, and short enough for the buffer. *)
Definition plain_word (word : string) : bool :=
  negb (String.length word =? 0)%nat
  && all_chars (fun c => negb (is_space c) && negb (char_to_int c =? 0)) word
  && fits_buffer word.

(** White space, at least one character of it. *)
Definition blank (s : string) : bool :=
  negb (String.length s =? 0)%nat && all_chars is_space s.

(** A text made of words, each followed by its separator. *)
Fixpoint words_text (items : list (string * string)) : string :=
  match items with
  | [] => EmptyString
  | (word, separator) :: items' => word ++ separator ++ words_text items'
  end.

(** The number that a run of decimal digits denotes, after [value]. *)
Fixpoint decimal_value (digits : string) (value : Z) : Z :=
  match digits with
  | EmptyString => value
  | String c rest => decimal_value rest (10 * value + (Z.of_N (N_of_ascii c) - 48))
  end.

(** A line of a query file: the word, the white space after it, the digits
    of the bit and the white space after them. *)
Record query_line : Type := QueryLine {
  line_word : string;
  line_gap : string;
  line_digits : string;
  line_end : string
}.

Definition line_bit (l : query_line) : Z := decimal_value (line_digits l) 0.

Definition well_formed_line (l : query_line) : bool :=
  plain_word (line_word l) && blank (line_gap l)
  && negb (String.length (line_digits l) =? 0)%nat
  && all_chars is_digit (line_digits l)
  && (line_bit l <=? INT_MAX)
  && blank (line_end l).

Fixpoint query_text (lines : list query_line) : string :=
  match lines with
  | [] => EmptyString
  | l :: lines' =>
      line_word l ++ line_gap l ++ line_digits l ++ line_end l
      ++ query_text lines'
  end.

(** * Properties *)

(** ** Loops that may fault *)

Section FoldM.
Context {S A : Type} (body : S -> A -> option S).

Lemma foldM_app (l1 l2 : list A) (s : S) :
  foldM body s (l1 ++ l2) = s' ← foldM body s l1; foldM body s' l2.
Proof.
  revert s; induction l1 as [|a l1 IH]; intros s; simpl; [done|].
  destruct (body s a) as [s1|]; simpl; [apply IH | done].
Qed.

(** A loop whose body keeps an invariant and succeeds under it runs to
    its end. *)
Lemma foldM_total (Inv : S -> Prop) (Ok : A -> Prop) :
  (forall s a, Inv s -> Ok a -> exists s', body s a = Some s' /\ Inv s') ->
  forall l s, Inv s -> Forall Ok l ->
    exists s', foldM body s l = Some s' /\ Inv s'.
Proof.
  intros Hbody l; induction l as [|a l IH]; intros s Hs Hl; simpl.
  - eauto.
  - inversion Hl as [|? ? Ha Hl']; subst.
    destruct (Hbody s a Hs Ha) as (s1 & -> & Hs1); simpl.
    by apply IH.
Qed.

(** A preorder that every step respects relates the two ends of a run. *)
Lemma foldM_rel (R : S -> S -> Prop) :
  (forall s, R s s) ->
  (forall s1 s2 s3, R s1 s2 -> R s2 s3 -> R s1 s3) ->
  (forall s a s', body s a = Some s' -> R s s') ->
  forall l s s', foldM body s l = Some s' -> R s s'.
Proof.
  intros Hrefl Htrans Hstep l; induction l as [|a l IH]; intros s s' Hrun;
    simpl in Hrun.
  - by inversion Hrun.
  - destruct (body s a) as [s1|] eqn:Hs1; simpl in Hrun; [|done].
    eapply Htrans; [by eapply Hstep | by apply IH].
Qed.

(** Bodies that commute pairwise may run in any order. *)
Lemma foldM_Permutation (l l' : list A) :
  (forall s a b,
      (s' ← body s a; body s' b) = (s' ← body s b; body s' a)) ->
  l ≡ₚ l' -> forall s, foldM body s l = foldM body s l'.
Proof.
  intros Hcomm Hperm; induction Hperm as [|a l l' _ IH|a b l|l1 l2 l3 _ IH1 _ IH2];
    intros s; simpl.
  - done.
  - destruct (body s a); simpl; [apply IH | done].
  - specialize (Hcomm s b a).
    destruct (body s b) as [s1|], (body s a) as [s2|]; simpl in *.
    + destruct (body s1 a), (body s2 b); simpl; congruence.
    + by destruct (body s1 a).
    + by destruct (body s2 b).
    + done.
  - by rewrite IH1.
Qed.
End FoldM.

(** ** Array cells *)

Lemma load_Some (bitArray : list Z) (i v : Z) :
  load bitArray i = Some v <-> 0 <= i /\ bitArray !! Z.to_nat i = Some v.
Proof.
  unfold load. destruct (Z.leb_spec 0 i); [tauto | split; [done | lia]].
Qed.

Lemma load_in_bounds (bitArray : list Z) (i : Z) :
  0 <= i < Z.of_nat (length bitArray) -> is_Some (load bitArray i).
Proof.
  intros Hi. unfold load. destruct (Z.leb_spec 0 i); [|lia].
  apply lookup_lt_is_Some. lia.
Qed.

Lemma store_Some (bitArray bitArray' : list Z) (i v : Z) :
  store bitArray i v = Some bitArray' <->
  0 <= i < Z.of_nat (length bitArray) /\ bitArray' = <[Z.to_nat i := v]> bitArray.
Proof.
  unfold store.
  destruct (Z.leb_spec 0 i), (Z.ltb_spec i (Z.of_nat (length bitArray))); simpl;
    (split; [intros [= <-] | intros [? ->]]); try done; lia.
Qed.

Lemma store_in_bounds (bitArray : list Z) (i v : Z) :
  0 <= i < Z.of_nat (length bitArray) ->
  store bitArray i v = Some (<[Z.to_nat i := v]> bitArray).
Proof. intros Hi. by apply store_Some. Qed.

Lemma store_length (bitArray bitArray' : list Z) (i v : Z) :
  store bitArray i v = Some bitArray' -> length bitArray' = length bitArray.
Proof. intros (_ & ->)%store_Some. apply length_insert. Qed.

(** After a store every cell holds its former value or the stored one. *)
Lemma store_cells (bitArray bitArray' : list Z) (i v : Z) (j : nat) (x : Z) :
  store bitArray i v = Some bitArray' -> bitArray !! j = Some x ->
  bitArray' !! j = Some x \/ bitArray' !! j = Some v.
Proof.
  intros (Hi & ->)%store_Some Hj.
  destruct (decide (Z.to_nat i = j)) as [<-|Hne].
  - right. apply list_lookup_insert_eq. lia.
  - left. by rewrite list_lookup_insert_ne.
Qed.

Lemma store_written (bitArray bitArray' : list Z) (i v : Z) :
  store bitArray i v = Some bitArray' -> load bitArray' i = Some v.
Proof.
  intros (Hi & ->)%store_Some. apply load_Some; split; [lia|].
  apply list_lookup_insert_eq. lia.
Qed.

(** Two stores of the same value commute, faults included. *)
Lemma store_store_comm (bitArray : list Z) (i j v : Z) :
  (a ← store bitArray i v; store a j v) = (a ← store bitArray j v; store a i v).
Proof.
  unfold store.
  destruct (Z.leb_spec 0 i), (Z.ltb_spec i (Z.of_nat (length bitArray))),
    (Z.leb_spec 0 j), (Z.ltb_spec j (Z.of_nat (length bitArray))); simpl;
    rewrite ?length_insert; try done;
    repeat match goal with
      | |- context [Z.leb ?a ?b] => destruct (Z.leb_spec a b); try lia
      | |- context [Z.ltb ?a ?b] => destruct (Z.ltb_spec a b); try lia
      end; simpl; try done.
  f_equal. destruct (decide (Z.to_nat i = Z.to_nat j)) as [Heq|Hne].
  - by rewrite Heq.
  - by apply list_insert_insert_ne.
Qed.

(** ** Machine integers and the range of the hash *)

Lemma to_uint_small (z : Z) : is_uint z -> to_uint z = z.
Proof. intros Hz. by apply Z.mod_small. Qed.

Lemma to_uint_is_uint (z : Z) : is_uint (to_uint z).
Proof. apply Z.mod_pos_bound. done. Qed.

Lemma to_int_small (z : Z) : 0 <= z <= INT_MAX -> to_int z = z.
Proof.
  intros Hz. unfold to_int, UINT_MODULUS, INT_MAX in *.
  rewrite Z.mod_small by lia.
  destruct (Z.ltb_spec z (2 ^ 31)); lia.
Qed.

Lemma APHashWithSalt_modulus (str : string) (salt m : Z) :
  1 <= m <= INT_MAX ->
  APHashWithSalt str salt m = Some (APHash_loop str 0 salt mod m).
Proof.
  intros Hm. unfold APHashWithSalt.
  rewrite to_uint_small by (unfold is_uint, UINT_MODULUS, INT_MAX in *; lia).
  destruct (Z.eqb_spec m 0); [lia | done].
Qed.

Lemma APHashWithSalt_range (str : string) (salt m idx : Z) :
  1 <= m <= INT_MAX -> APHashWithSalt str salt m = Some idx -> 0 <= idx < m.
Proof.
  intros Hm. rewrite APHashWithSalt_modulus by done. intros [= <-].
  apply Z.mod_pos_bound. lia.
Qed.

(** ** Insertion *)

Lemma only_sets_refl (a : list Z) : only_sets a a.
Proof. split; [done | auto]. Qed.

Lemma only_sets_trans (a b c : list Z) :
  only_sets a b -> only_sets b c -> only_sets a c.
Proof.
  intros [Hlab Hab] [Hlbc Hbc]. split; [congruence|].
  intros j x Hj. destruct (Hab j x Hj) as [Hb|Hb];
    destruct (Hbc j _ Hb); auto.
Qed.

(** A set cell stays set. *)
Lemma only_sets_bit (a b : list Z) (j : nat) :
  only_sets a b -> bit_is_set (a !! j) -> bit_is_set (b !! j).
Proof.
  intros [_ Hab] (v & Hv & Hnz).
  destruct (Hab j v Hv) as [Hb|Hb]; rewrite Hb; [by exists v | by exists 1].
Qed.

Section Insertion.
Context (ppWordListArray : list string) (m : Z).

Lemma insert_write_value (it : Z * Z) (w : Z * Z) :
  insert_write ppWordListArray m it = Some w -> snd w = 1.
Proof.
  unfold insert_write. intros Hw.
  destruct (ppWordListArray !! _) as [word|]; simpl in Hw; [|done].
  destruct (APHashWithSalt _ _ _); simpl in Hw; [|done].
  by injection Hw as <-.
Qed.

Lemma insert_body_only_sets (a : list Z) (it : Z * Z) (a' : list Z) :
  insert_body ppWordListArray m a it = Some a' -> only_sets a a'.
Proof.
  unfold insert_body. intros Hb.
  destruct (insert_write _ _ _) as [w|] eqn:Hw; simpl in Hb; [|done].
  apply insert_write_value in Hw. rewrite Hw in Hb. split.
  - by eapply store_length.
  - intros j x Hj. by eapply store_cells.
Qed.

Lemma insert_body_comm (a : list Z) (it1 it2 : Z * Z) :
  (a' ← insert_body ppWordListArray m a it1; insert_body ppWordListArray m a' it2)
  = (a' ← insert_body ppWordListArray m a it2; insert_body ppWordListArray m a' it1).
Proof.
  unfold insert_body.
  destruct (insert_write _ _ it1) as [w1|] eqn:H1,
           (insert_write _ _ it2) as [w2|] eqn:H2; simpl.
  - apply insert_write_value in H1, H2. rewrite H1, H2.
    apply store_store_comm.
  - by destruct (store a _ _).
  - by destruct (store a _ _).
  - done.
Qed.

Lemma insertWords_in_order_only_sets (a a' : list Z) (order : list (Z * Z)) :
  insertWords_in_order ppWordListArray a m order = Some a' -> only_sets a a'.
Proof.
  apply foldM_rel.
  - apply only_sets_refl.
  - apply only_sets_trans.
  - apply insert_body_only_sets.
Qed.

(** The store of every iteration of a run is visible at its end. *)
Lemma insertWords_in_order_written (order : list (Z * Z)) (a a' : list Z)
    (it : Z * Z) (idx v : Z) :
  insertWords_in_order ppWordListArray a m order = Some a' ->
  it ∈ order ->
  insert_write ppWordListArray m it = Some (idx, v) ->
  load a' idx = Some 1.
Proof.
  unfold insertWords_in_order.
  revert a; induction order as [|it' order IH]; intros a Hrun Hin Hw.
  - by apply elem_of_nil in Hin.
  - simpl in Hrun.
    destruct (insert_body _ _ a it') as [a1|] eqn:Hbody; simpl in Hrun; [|done].
    apply elem_of_cons in Hin as [->|Hin]; [|by eapply IH].
    unfold insert_body in Hbody. rewrite Hw in Hbody. simpl in Hbody.
    pose proof (insert_write_value _ _ Hw) as Hv; simpl in Hv; subst v.
    apply store_written in Hbody.
    apply load_Some in Hbody as [Hidx Hcell].
    apply (foldM_rel _ only_sets only_sets_refl only_sets_trans
             insert_body_only_sets) in Hrun as [_ Hrun].
    apply load_Some. split; [done|].
    destruct (Hrun _ _ Hcell); done.
Qed.

(** Any two orders of the same iterations give the same result, a fault
    included. *)
Lemma insertWords_in_order_Permutation (a : list Z) (o1 o2 : list (Z * Z)) :
  o1 ≡ₚ o2 ->
  insertWords_in_order ppWordListArray a m o1
  = insertWords_in_order ppWordListArray a m o2.
Proof.
  intros Hperm. apply foldM_Permutation; [|done].
  intros s it1 it2. apply insert_body_comm.
Qed.
End Insertion.

(** ** The iteration space *)

Lemma elem_of_iteration_space (numToInsert k i h : Z) :
  (i, h) ∈ iteration_space numToInsert k <->
  0 <= i < numToInsert /\ 0 <= h < k.
Proof.
  unfold iteration_space. rewrite list_elem_of_bind. split.
  - intros (i' & Hin & Hi'). apply list_elem_of_bind in Hin as (h' & Hin & Hh').
    apply list_elem_of_singleton in Hin as [= -> ->].
    apply elem_of_seqZ in Hi', Hh'. lia.
  - intros [Hi Hh]. exists i. split; [|apply elem_of_seqZ; lia].
    apply list_elem_of_bind. exists h. split; [|apply elem_of_seqZ; lia].
    by apply list_elem_of_singleton.
Qed.

Section InsertionInBounds.
Context (ppWordListArray : list string) (numToInsert m k : Z).
Hypothesis Hm : 1 <= m <= INT_MAX.
Hypothesis Hn : numToInsert = Z.of_nat (length ppWordListArray).

(** Every iteration of the space names a word of the array and stores 1 at
    an index below [m], the hash of that word. *)
Lemma insert_write_in_space (it : Z * Z) :
  it ∈ iteration_space numToInsert k ->
  exists word,
    ppWordListArray !! Z.to_nat (fst it) = Some word /\
    insert_write ppWordListArray m it
    = Some (APHash_loop word 0 (to_uint (snd it)) mod m, 1) /\
    0 <= APHash_loop word 0 (to_uint (snd it)) mod m < m.
Proof.
  destruct it as [i h]. intros [Hi Hh]%elem_of_iteration_space. simpl.
  destruct (lookup_lt_is_Some_2 ppWordListArray (Z.to_nat i)) as [word Hword];
    [lia|].
  exists word. split; [done|]. split.
  - unfold insert_write. simpl. rewrite Hword. simpl.
    by rewrite APHashWithSalt_modulus.
  - apply Z.mod_pos_bound. lia.
Qed.

(** The sequential run does not fault on an array of [m] cells. *)
Lemma insertWords_in_order_total (order : list (Z * Z)) (bitArray : list Z) :
  Z.of_nat (length bitArray) = m ->
  (forall it, it ∈ order -> it ∈ iteration_space numToInsert k) ->
  exists bitArray',
    insertWords_in_order ppWordListArray bitArray m order = Some bitArray' /\
    Z.of_nat (length bitArray') = m.
Proof.
  intros Hlen Horder.
  apply (foldM_total _ (fun a => Z.of_nat (length a) = m)
           (fun it => it ∈ iteration_space numToInsert k)).
  - intros a it Ha Hit.
    destruct (insert_write_in_space it Hit) as (word & _ & Hw & Hidx).
    unfold insert_body. rewrite Hw. simpl.
    rewrite store_in_bounds by lia.
    eexists. split; [done|]. by rewrite length_insert.
  - done.
  - by apply Forall_forall.
Qed.
End InsertionInBounds.

(** ** Lookup *)

Section LookUp.
Context (word : string) (bitArray : list Z) (m : Z).

Lemma lookUp_body_bit_at (acc h : Z) :
  lookUp_body word bitArray m acc h
  = cell ← bit_at word bitArray m h;
    Some (if negb (cell =? 0) && negb (acc =? 0) then 1 else 0).
Proof.
  unfold lookUp_body, bit_at. by destruct (APHashWithSalt _ _ _).
Qed.

(** The loop of [lookUp] from an accumulator that is 0 or 1: it faults
    exactly when a read does, and it ends with 1 exactly when it started
    with 1 and every bit read is set. *)
Lemma lookUp_loop_spec (salts : list Z) (acc : Z) :
  acc = 0 \/ acc = 1 ->
  match foldM (lookUp_body word bitArray m) acc salts with
  | Some r =>
      (r = 0 \/ r = 1) /\
      Forall (fun h => is_Some (bit_at word bitArray m h)) salts /\
      (r = 1 <->
       acc = 1 /\ Forall (fun h => bit_is_set (bit_at word bitArray m h)) salts)
  | None => Exists (fun h => bit_at word bitArray m h = None) salts
  end.
Proof.
  revert acc; induction salts as [|h salts IH]; intros acc Hacc; simpl.
  - split; [done|]. split; [constructor|]. split; [by split | by intros []].
  - rewrite lookUp_body_bit_at.
    destruct (bit_at word bitArray m h) as [cell|] eqn:Hcell; simpl;
      [|by constructor].
    set (acc' := if negb (cell =? 0) && negb (acc =? 0) then 1 else 0).
    assert (Hacc' : (acc' = 0 \/ acc' = 1) /\
                    (acc' = 1 <-> acc = 1 /\ cell <> 0)).
    { unfold acc'. destruct (Z.eqb_spec cell 0), (Z.eqb_spec acc 0); simpl; lia. }
    destruct Hacc' as [Hrange Hiff].
    specialize (IH acc' Hrange).
    destruct (foldM _ acc' salts) as [r|].
    + destruct IH as (Hr & Hsome & Hr1). split; [done|]. split.
      * constructor; [by rewrite Hcell | done].
      * rewrite Hr1, Hiff, Forall_cons. unfold bit_is_set at 2.
        rewrite Hcell. split.
        -- intros [[-> Hnz] Hall]. split; [done|]. split; [by exists cell | done].
        -- intros [-> [(v & [= <-] & Hnz) Hall]]. done.
    + by apply Exists_cons_tl.
Qed.

(** [lookUp] answers 1 exactly when the bit of every salt below [k] is
    set, whatever the array and the sizes. *)
Lemma lookUp_1_iff (k : Z) :
  lookUp word bitArray m k = Some 1 <->
  forall h, 0 <= h < k -> bit_is_set (bit_at word bitArray m h).
Proof.
  unfold lookUp.
  pose proof (lookUp_loop_spec (seqZ 0 k) 1 (or_intror eq_refl)) as Hspec.
  assert (Hall : Forall (fun h => bit_is_set (bit_at word bitArray m h)) (seqZ 0 k)
                 <-> forall h, 0 <= h < k -> bit_is_set (bit_at word bitArray m h)).
  { rewrite Forall_forall. split; intros H h Hh; apply H.
    - apply elem_of_seqZ. lia.
    - apply elem_of_seqZ in Hh. lia. }
  rewrite <- Hall.
  destruct (foldM _ 1 (seqZ 0 k)) as [r|].
  - destruct Hspec as (_ & _ & Hr1). split.
    + intros [= ->]. by apply Hr1.
    + intros H. f_equal. apply Hr1. done.
  - split; [done|]. intros H.
    apply Exists_exists in Hspec as (h & Hin & Hnone).
    rewrite Forall_forall in H. destruct (H h Hin) as (v & Hv & _). congruence.
Qed.

(** On an array of [m] cells no read of [lookUp] is out of bounds. *)
Lemma bit_at_in_bounds (h : Z) :
  filter_shape bitArray m ->
  exists cell,
    bit_at word bitArray m h = Some cell /\
    bitArray !! Z.to_nat (APHash_loop word 0 (to_uint h) mod m) = Some cell /\
    0 <= APHash_loop word 0 (to_uint h) mod m < m.
Proof.
  intros [Hm Hlen]. unfold bit_at.
  rewrite APHashWithSalt_modulus by done. simpl.
  assert (Hidx : 0 <= APHash_loop word 0 (to_uint h) mod m < m)
    by (apply Z.mod_pos_bound; lia).
  rewrite to_int_small by lia.
  destruct (load_in_bounds bitArray (APHash_loop word 0 (to_uint h) mod m))
    as [cell Hcell]; [lia|].
  exists cell. split; [done|]. split; [|done].
  by apply load_Some in Hcell as [_ ?].
Qed.

Lemma lookUp_total (k : Z) :
  filter_shape bitArray m ->
  exists r, lookUp word bitArray m k = Some r /\ (r = 0 \/ r = 1).
Proof.
  intros Hshape. unfold lookUp.
  pose proof (lookUp_loop_spec (seqZ 0 k) 1 (or_intror eq_refl)) as Hspec.
  destruct (foldM _ 1 (seqZ 0 k)) as [r|].
  - exists r. by destruct Hspec as (? & _).
  - apply Exists_exists in Hspec as (h & _ & Hnone).
    destruct (bit_at_in_bounds h Hshape) as (cell & Hcell & _). congruence.
Qed.
End LookUp.

(** ** Schedules *)

Lemma concat_insert_cons {A : Type} (threads : list (list A)) (t : nat)
    (it : A) (rest : list A) :
  threads !! t = Some (it :: rest) ->
  concat threads ≡ₚ it :: concat (<[t := rest]> threads).
Proof.
  revert t; induction threads as [|th threads IH]; intros t Ht; [done|].
  destruct t as [|t]; simpl in *.
  - by injection Ht as ->.
  - rewrite (IH t Ht). symmetry. apply Permutation_middle.
Qed.

(** An interleaving runs every iteration of every thread once. *)
Lemma interleaving_Permutation {A : Type} (threads : list (list A))
    (order : list A) :
  interleaving threads order -> order ≡ₚ concat threads.
Proof.
  induction 1 as [threads Hnil|threads t it rest order Ht _ IH].
  - induction Hnil as [|th threads -> _ IH]; [done | by simpl].
  - rewrite (concat_insert_cons threads t it rest Ht). by constructor.
Qed.

Lemma concat_fmap_cons_at {A : Type} (x : A) (p : nat) (g : nat -> list A)
    (ts : list nat) :
  NoDup ts -> p ∈ ts ->
  concat ((fun t => if decide (p = t) then x :: g t else g t) <$> ts)
  ≡ₚ x :: concat (g <$> ts).
Proof.
  induction 1 as [|t ts Hnotin Hnodup IH]; intros Hin.
  - by apply elem_of_nil in Hin.
  - rewrite !fmap_cons, !concat_cons.
    destruct (decide (p = t)) as [->|Hne].
    + assert (Hrest :
        (fun t' => if decide (t = t') then x :: g t' else g t') <$> ts = g <$> ts).
      { apply list_fmap_ext. intros i t' Ht'.
        destruct (decide (t = t')) as [<-|]; [|done].
        by apply list_elem_of_lookup_2 in Ht'. }
      by rewrite Hrest.
    + apply elem_of_cons in Hin as [?|Hin]; [done|].
      rewrite (IH Hin). symmetry. apply Permutation_middle.
Qed.

Lemma static_chunk_cons {A : Type} (T t pos : nat) (it : A) (its : list A) :
  static_chunk T t pos (it :: its)
  = if decide (pos `mod` T = t)%nat
    then it :: static_chunk T t (S pos) its
    else static_chunk T t (S pos) its.
Proof. reflexivity. Qed.

Lemma static_chunks_Permutation {A : Type} (T pos : nat) (its : list A) :
  (1 <= T)%nat ->
  concat ((fun t => static_chunk T t pos its) <$> seq 0 T) ≡ₚ its.
Proof.
  intros HT. revert pos. induction its as [|it its IH]; intros pos.
  - simpl. induction (seq 0 T) as [|t ts IHts]; [done | exact IHts].
  - rewrite (list_fmap_ext _
               (fun t => if decide (pos `mod` T = t)%nat
                         then it :: static_chunk T t (S pos) its
                         else static_chunk T t (S pos) its) (seq 0 T))
      by (intros; apply static_chunk_cons).
    rewrite (concat_fmap_cons_at it (pos `mod` T)%nat
               (fun t => static_chunk T t (S pos) its)).
    + by rewrite IH.
    + apply NoDup_seq.
    + apply elem_of_seq. split; [lia|]. apply Nat.mod_upper_bound. lia.
Qed.

(** The static schedule deals out every iteration once. *)
Lemma static_schedule_Permutation {A : Type} (T : nat) (its : list A) :
  (1 <= T)%nat -> concat (static_schedule T its) ≡ₚ its.
Proof. apply static_chunks_Permutation. Qed.

Lemma static_chunk_1 {A : Type} (pos : nat) (its : list A) :
  static_chunk 1 0 pos its = its.
Proof.
  revert pos; induction its as [|it its IH]; intros pos; [done|].
  rewrite static_chunk_cons, Nat.mod_1_r, IH. done.
Qed.

(** With one thread the only interleaving is the sequential order. *)
Lemma static_schedule_1 {A : Type} (its : list A) :
  static_schedule 1 its = [its].
Proof. unfold static_schedule. simpl. by rewrite static_chunk_1. Qed.

Lemma interleaving_single {A : Type} (its order : list A) :
  interleaving [its] order -> order = its.
Proof.
  revert its; induction order as [|it order IH]; intros its Hint;
    inversion Hint as [? Hnil|? t ? rest ? Ht Hrest]; subst.
  - by inversion Hnil.
  - destruct t as [|t]; simpl in Ht; [|done].
    injection Ht as ->. simpl in Hrest. f_equal. by apply IH.
Qed.

(** ** The filter store: membership, monotonicity, order, bounds *)

Lemma bit_at_index (word : string) (bitArray : list Z) (m h : Z) :
  filter_shape bitArray m ->
  bit_is_set (bit_at word bitArray m h) <->
  exists idx, APHashWithSalt word (to_uint h) m = Some idx /\
              bit_is_set (bitArray !! Z.to_nat idx).
Proof.
  intros Hshape.
  destruct (bit_at_in_bounds word bitArray m h Hshape) as (cell & Hbit & Hcell & _).
  rewrite Hbit, APHashWithSalt_modulus by apply Hshape. split.
  - intros Hset. eexists. split; [done|]. by rewrite Hcell.
  - intros (idx & [= <-] & Hset). by rewrite Hcell in Hset.
Qed.

(** C1.  No false negatives: on a bit array of [m >= 1] cells, after
    [insertWords] has inserted a list of words with hash count [k], [lookUp]
    with the same [k] and [m] returns 1 for every word of the list. *)
Theorem no_false_negatives (words : list string) (bitArray : list Z) (m k : Z) :
  filter_shape bitArray m ->
  exists filled,
    insertWords words (Z.of_nat (length words)) bitArray m k = Some filled /\
    forall word, word ∈ words -> lookUp word filled m k = Some 1.
Proof.
  intros [Hm Hlen].
  destruct (insertWords_in_order_total words (Z.of_nat (length words)) m k Hm
              eq_refl (iteration_space (Z.of_nat (length words)) k) bitArray Hlen)
    as (filled & Hrun & Hfilled); [done|].
  exists filled. split; [done|].
  intros word [i Hi]%list_elem_of_lookup_1.
  apply lookUp_1_iff. intros h Hh.
  assert (Hit : (Z.of_nat i, h) ∈ iteration_space (Z.of_nat (length words)) k).
  { apply elem_of_iteration_space. apply lookup_lt_Some in Hi. lia. }
  destruct (insert_write_in_space words _ m k Hm eq_refl _ Hit)
    as (word' & Hword' & Hw & Hidx).
  simpl in Hword', Hw, Hidx. rewrite Nat2Z.id, Hi in Hword'.
  injection Hword' as <-.
  pose proof (insertWords_in_order_written words m _ _ _ _ _ _ Hrun Hit Hw)
    as Hload.
  unfold bit_at. rewrite APHashWithSalt_modulus by done. simpl.
  rewrite to_int_small by lia. rewrite Hload. by exists 1.
Qed.

Lemma no_false_negatives_witness :
  filter_shape (replicate 10 0) 10 /\
  exists filled,
    insertWords ["cat"; "dog"]%string 2 (replicate 10 0) 10 3 = Some filled /\
    forall word, word ∈ ["cat"; "dog"]%string -> lookUp word filled 10 3 = Some 1.
Proof.
  assert (Hshape : filter_shape (replicate 10 0) 10)
    by (split; [unfold INT_MAX; lia | reflexivity]).
  split; [exact Hshape|].
  exact (no_false_negatives ["cat"; "dog"]%string (replicate 10 0) 10 3 Hshape).
Defined.

(** C3.  On a bit array of [m >= 1] cells [lookUp] returns 0 or 1, and it
    returns 1 (possibly present) if and only if, for every salt [h] in
    [0..k-1], the bit at index [APHashWithSalt(word, h, m)] is set; in
    particular it returns 1 for every word when [k = 0]. *)
Theorem lookUp_iff_all_bits_set (word : string) (bitArray : list Z) (m k : Z) :
  filter_shape bitArray m ->
  exists r,
    lookUp word bitArray m k = Some r /\
    (r = 0 \/ r = 1) /\
    (r = 1 <->
     forall h, 0 <= h < k ->
       exists idx, APHashWithSalt word (to_uint h) m = Some idx /\
                   bit_is_set (bitArray !! Z.to_nat idx)) /\
    (k = 0 -> r = 1).
Proof.
  intros Hshape.
  destruct (lookUp_total word bitArray m k Hshape) as (r & Hr & Hrange).
  assert (Hiff : r = 1 <->
     forall h, 0 <= h < k ->
       exists idx, APHashWithSalt word (to_uint h) m = Some idx /\
                   bit_is_set (bitArray !! Z.to_nat idx)).
  { transitivity (lookUp word bitArray m k = Some 1).
    - rewrite Hr. split; [by intros -> | by intros [= ->]].
    - rewrite lookUp_1_iff. split; intros H h Hh; apply bit_at_index; auto. }
  exists r. repeat split; try done; try apply Hiff.
  intros ->. apply Hiff. intros h Hh. lia.
Qed.

Lemma lookUp_iff_all_bits_set_witness :
  filter_shape [1; 1; 0; 1; 1; 0; 0; 0; 0; 1] 10 /\
  exists r,
    lookUp "cat" [1; 1; 0; 1; 1; 0; 0; 0; 0; 1] 10 3 = Some r /\
    (r = 0 \/ r = 1) /\
    (r = 1 <->
     forall h, 0 <= h < 3 ->
       exists idx, APHashWithSalt "cat" (to_uint h) 10 = Some idx /\
                   bit_is_set ([1; 1; 0; 1; 1; 0; 0; 0; 0; 1] !! Z.to_nat idx)) /\
    (3 = 0 -> r = 1).
Proof.
  assert (Hshape : filter_shape [1; 1; 0; 1; 1; 0; 0; 0; 0; 1] 10)
    by (split; [unfold INT_MAX; lia | reflexivity]).
  split; [exact Hshape|].
  exact (lookUp_iff_all_bits_set "cat" [1; 1; 0; 1; 1; 0; 0; 0; 0; 1] 10 3 Hshape).
Defined.

(** C6.  Insertion is monotone.  On a bit array of [m >= 1] cells the
    insertion of any list of words only sets cells: a cell that held 1 holds
    1 afterwards, a set cell is never cleared, a cell whose value changed
    holds 1, and a cell of a 0/1 array changes only from 0 to 1.  Hence a
    word for which [lookUp] returned 1 before the insertion still gets 1
    after it. *)
Theorem insertion_monotone (words : list string) (bitArray : list Z) (m k : Z) :
  filter_shape bitArray m ->
  exists filled,
    insertWords words (Z.of_nat (length words)) bitArray m k = Some filled /\
    length filled = length bitArray /\
    (forall (j : nat) (x : Z), bitArray !! j = Some x ->
       exists y, filled !! j = Some y /\
         (x = 1 -> y = 1) /\ (x <> 0 -> y <> 0) /\ (y <> x -> y = 1) /\
         (x = 0 \/ x = 1 -> y <> x -> x = 0 /\ y = 1)) /\
    (forall e, lookUp e bitArray m k = Some 1 -> lookUp e filled m k = Some 1).
Proof.
  intros [Hm Hlen].
  destruct (insertWords_in_order_total words (Z.of_nat (length words)) m k Hm
              eq_refl (iteration_space (Z.of_nat (length words)) k) bitArray Hlen)
    as (filled & Hrun & Hfilled); [done|].
  pose proof (insertWords_in_order_only_sets _ _ _ _ _ Hrun) as Hsets.
  exists filled. split; [done|]. split; [apply Hsets|]. split.
  - intros j x Hj. destruct Hsets as [_ Hcells].
    destruct (Hcells j x Hj) as [Hy|Hy]; eexists; (split; [exact Hy|]); lia.
  - intros e. rewrite !lookUp_1_iff. intros Hbefore h Hh.
    specialize (Hbefore h Hh). unfold bit_at in *.
    destruct (APHashWithSalt e (to_uint h) m) as [hash|]; simpl in *;
      [|by destruct Hbefore as (? & ? & _)].
    unfold load in *. destruct (0 <=? to_int hash);
      [by eapply only_sets_bit | by destruct Hbefore as (? & ? & _)].
Qed.

Lemma insertion_monotone_witness :
  filter_shape [0; 1; 0; 0; 0; 0; 0; 0; 0; 0] 10 /\
  exists filled,
    insertWords ["cat"; "dog"]%string 2 [0; 1; 0; 0; 0; 0; 0; 0; 0; 0] 10 3
    = Some filled /\
    length filled = length [0; 1; 0; 0; 0; 0; 0; 0; 0; 0] /\
    (forall (j : nat) (x : Z), [0; 1; 0; 0; 0; 0; 0; 0; 0; 0] !! j = Some x ->
       exists y, filled !! j = Some y /\
         (x = 1 -> y = 1) /\ (x <> 0 -> y <> 0) /\ (y <> x -> y = 1) /\
         (x = 0 \/ x = 1 -> y <> x -> x = 0 /\ y = 1)) /\
    (forall e, lookUp e [0; 1; 0; 0; 0; 0; 0; 0; 0; 0] 10 3 = Some 1 ->
               lookUp e filled 10 3 = Some 1).
Proof.
  assert (Hshape : filter_shape [0; 1; 0; 0; 0; 0; 0; 0; 0; 0] 10)
    by (split; [unfold INT_MAX; lia | reflexivity]).
  split; [exact Hshape|].
  exact (insertion_monotone ["cat"; "dog"]%string
           [0; 1; 0; 0; 0; 0; 0; 0; 0; 0] 10 3 Hshape).
Defined.

(** C5.  The final bit array does not depend on the order of the
    iterations.  On a bit array of [m >= 1] cells the sequential run of
    [insertWords] ends in an array [final], and so does the run of the
    (word, salt) iterations in every other order (every permutation of the
    iteration space) and every interleaving of the threads of a static
    schedule with any number [T >= 1] of threads. *)
Theorem insertion_order_insensitive (words : list string) (bitArray : list Z)
    (m k : Z) :
  filter_shape bitArray m ->
  exists final,
    insertWords words (Z.of_nat (length words)) bitArray m k = Some final /\
    (forall order,
        order ≡ₚ iteration_space (Z.of_nat (length words)) k ->
        insertWords_in_order words bitArray m order = Some final) /\
    (forall (T : nat) order,
        (1 <= T)%nat ->
        interleaving
          (static_schedule T (iteration_space (Z.of_nat (length words)) k))
          order ->
        insertWords_in_order words bitArray m order = Some final).
Proof.
  intros [Hm Hlen].
  destruct (insertWords_in_order_total words (Z.of_nat (length words)) m k Hm
              eq_refl (iteration_space (Z.of_nat (length words)) k) bitArray Hlen)
    as (final & Hrun & _); [done|].
  exists final. split; [done|]. split.
  - intros order Hperm.
    by rewrite (insertWords_in_order_Permutation words m bitArray _ _ Hperm).
  - intros T order HT Hint.
    rewrite (insertWords_in_order_Permutation words m bitArray order
               (iteration_space (Z.of_nat (length words)) k)); [done|].
    rewrite (interleaving_Permutation _ _ Hint).
    by apply static_schedule_Permutation.
Qed.

Lemma insertion_order_insensitive_witness :
  filter_shape (replicate 10 0) 10 /\
  exists final,
    insertWords ["cat"; "dog"]%string 2 (replicate 10 0) 10 3 = Some final /\
    (forall order,
        order ≡ₚ iteration_space 2 3 ->
        insertWords_in_order ["cat"; "dog"]%string (replicate 10 0) 10 order
        = Some final) /\
    (forall (T : nat) order,
        (1 <= T)%nat ->
        interleaving (static_schedule T (iteration_space 2 3)) order ->
        insertWords_in_order ["cat"; "dog"]%string (replicate 10 0) 10 order
        = Some final).
Proof.
  assert (Hshape : filter_shape (replicate 10 0) 10)
    by (split; [unfold INT_MAX; lia | reflexivity]).
  split; [exact Hshape|].
  exact (insertion_order_insensitive ["cat"; "dog"]%string (replicate 10 0)
           10 3 Hshape).
Defined.

(** C10.  On a bit array of [m >= 1] cells every access is in bounds.  Each
    iteration of [insertWords] stores the value 1, and nothing else, at the
    hash of its word reduced modulo [m], an index in [0, m); the run does
    not fault and keeps the length of the array.  Each iteration of [lookUp]
    reads the cell at the hash reduced modulo [m], an index in [0, m), and
    the call returns. *)
Theorem accesses_in_bounds (words : list string) (bitArray : list Z) (m k : Z) :
  filter_shape bitArray m ->
  (forall it, it ∈ iteration_space (Z.of_nat (length words)) k ->
     exists word,
       words !! Z.to_nat (fst it) = Some word /\
       insert_write words m it
       = Some (APHash_loop word 0 (to_uint (snd it)) mod m, 1) /\
       0 <= APHash_loop word 0 (to_uint (snd it)) mod m < m) /\
  (forall it w, insert_write words m it = Some w -> snd w = 1) /\
  (exists filled,
     insertWords words (Z.of_nat (length words)) bitArray m k = Some filled /\
     Z.of_nat (length filled) = m) /\
  (forall word h,
     exists cell,
       bit_at word bitArray m h = Some cell /\
       bitArray !! Z.to_nat (APHash_loop word 0 (to_uint h) mod m) = Some cell /\
       0 <= APHash_loop word 0 (to_uint h) mod m < m) /\
  (forall word, exists r, lookUp word bitArray m k = Some r).
Proof.
  intros Hshape. pose proof Hshape as [Hm Hlen].
  split; [|split; [|split; [|split]]].
  - intros it Hit. by apply (insert_write_in_space words _ m k Hm eq_refl).
  - apply insert_write_value.
  - by apply (insertWords_in_order_total words (Z.of_nat (length words)) m k
                 Hm eq_refl).
  - intros word h. by apply bit_at_in_bounds.
  - intros word. destruct (lookUp_total word bitArray m k Hshape) as (r & Hr & _).
    by exists r.
Qed.

Lemma accesses_in_bounds_witness :
  filter_shape (replicate 10 0) 10 /\
  (exists filled,
     insertWords ["cat"; "dog"]%string 2 (replicate 10 0) 10 3 = Some filled /\
     Z.of_nat (length filled) = 10) /\
  (forall word, exists r, lookUp word (replicate 10 0) 10 3 = Some r).
Proof.
  assert (Hshape : filter_shape (replicate 10 0) 10)
    by (split; [unfold INT_MAX; lia | reflexivity]).
  split; [exact Hshape|].
  destruct (accesses_in_bounds ["cat"; "dog"]%string (replicate 10 0) 10 3 Hshape)
    as (_ & _ & Hrun & _ & Hlook).
  split; [exact Hrun | exact Hlook].
Defined.

(** ** The hash against its specification *)

Section HashRefinement.
Import HashSpec.

Lemma wrap_lxor (a b : Z) : wrap (Z.lxor a b) = Z.lxor (wrap a) (wrap b).
Proof.
  unfold wrap. apply Z.bits_inj'. intros n Hn.
  rewrite Z.lxor_spec, !Z.testbit_mod_pow2, Z.lxor_spec by lia.
  by destruct (n <? 32).
Qed.

Lemma wrap_lnot_wrap (a : Z) : wrap (Z.lnot (wrap a)) = wrap (Z.lnot a).
Proof.
  unfold wrap. apply Z.bits_inj'. intros n Hn.
  rewrite !Z.testbit_mod_pow2, !Z.lnot_spec, Z.testbit_mod_pow2 by lia.
  by destruct (n <? 32).
Qed.

Lemma wrap_small (a : Z) : is_uint a -> wrap a = a.
Proof. intros Ha. by apply Z.mod_small. Qed.

Lemma wrap_is_uint (a : Z) : is_uint (wrap a).
Proof. apply Z.mod_pos_bound. done. Qed.

Lemma shr_is_uint (a n : Z) : is_uint a -> 0 <= n -> is_uint (shr a n).
Proof.
  intros [Hlo Hhi] Hn. unfold shr, is_uint in *.
  rewrite Z.shiftr_div_pow2 by done.
  assert (Hpow : 0 < 2 ^ n) by (apply Z.pow_pos_nonneg; lia). split.
  - by apply Z.div_pos.
  - eapply Z.le_lt_trans; [|exact Hhi].
    apply Z.div_le_upper_bound; [done | nia].
Qed.

(** The step of the loop at an odd position. *)
Lemma step_odd_refines (acc c : Z) :
  is_uint acc ->
  Z.lxor acc (Z.lxor (Z.lxor (shl acc 7) (to_uint c)) (shr acc 3))
  = mix_odd acc c.
Proof.
  intros Hacc. unfold mix_odd. rewrite !wrap_lxor.
  rewrite (wrap_small acc Hacc).
  by rewrite (wrap_small (Z.shiftr acc 3)) by (by apply shr_is_uint).
Qed.

(** The step of the loop at an even position. *)
Lemma step_even_refines (acc c : Z) :
  is_uint acc ->
  Z.lxor acc
    (bnot (Z.lxor (Z.lxor (shl acc 11) (to_uint c)) (shr acc 5)))
  = mix_even acc c.
Proof.
  intros Hacc. unfold mix_even. rewrite wrap_lxor.
  rewrite (wrap_small acc Hacc). f_equal.
  rewrite <- wrap_lnot_wrap. rewrite !wrap_lxor.
  by rewrite (wrap_small (Z.shiftr acc 5)) by (by apply shr_is_uint).
Qed.

Lemma mix_is_uint (acc : Z) (pc : Z * Z) : is_uint (mix acc pc).
Proof.
  destruct pc as [p c]. unfold mix, mix_odd, mix_even.
  destruct (Z.odd p); apply wrap_is_uint.
Qed.

Lemma rem_2_odd (i : Z) : 0 <= i -> (Z.rem i 2 =? 1) = Z.odd i.
Proof.
  intros Hi. rewrite Z.rem_mod_nonneg by lia.
  rewrite <- Z.bit0_mod, Z.bit0_odd. by destruct (Z.odd i).
Qed.

Lemma positions_from_cons (first c : Z) (cs : list Z) :
  positions_from first (c :: cs) = (first, c) :: positions_from (first + 1) cs.
Proof.
  unfold positions_from. simpl length.
  rewrite seqZ_cons by lia. simpl. do 3 f_equal; lia.
Qed.

(** The loop of the code computes the fold of the specification. *)
Lemma APHash_loop_refines (str : string) (i hash : Z) :
  0 <= i -> is_uint hash ->
  APHash_loop str i hash
  = fold_left mix (positions_from i (chars str)) hash.
Proof.
  revert i hash; induction str as [|c rest IH]; intros i acc Hi Hacc; simpl.
  - done.
  - destruct (char_to_int c =? 0); [done|].
    rewrite positions_from_cons. simpl.
    rewrite rem_2_odd by done.
    destruct (Z.odd i) eqn:Hodd.
    + rewrite step_odd_refines by done.
      rewrite IH; [done | lia | apply wrap_is_uint].
    + rewrite step_even_refines by done.
      rewrite IH; [done | lia | apply wrap_is_uint].
Qed.
End HashRefinement.

(** C7.  For every string, every unsigned salt and every positive modulus
    that is an [int], [APHashWithSalt] returns the value of the specified
    hash: the accumulator starts at the salt (the hash of the empty string is
    [salt mod m]), each character is mixed by position with the odd or the
    even XOR-shift step under wrap-around at 32 bits, and the value returned
    is the accumulator modulo [m], which lies in [0, m). *)
Theorem APHashWithSalt_spec (str : string) (salt m : Z) :
  is_uint salt -> 1 <= m <= INT_MAX ->
  exists r,
    APHashWithSalt str salt m = Some r /\
    r = HashSpec.hash str salt m /\
    0 <= r < m /\
    APHashWithSalt EmptyString salt m = Some (salt mod m).
Proof.
  intros Hsalt Hm. rewrite !APHashWithSalt_modulus by done.
  eexists. split; [done|]. split; [|split].
  - unfold HashSpec.hash. by rewrite APHash_loop_refines.
  - apply Z.mod_pos_bound. lia.
  - done.
Qed.

Lemma APHashWithSalt_spec_witness :
  is_uint 1 /\ 1 <= 10 <= INT_MAX /\
  exists r,
    APHashWithSalt "cat" 1 10 = Some r /\
    r = HashSpec.hash "cat" 1 10 /\
    0 <= r < 10 /\
    APHashWithSalt EmptyString 1 10 = Some (1 mod 10).
Proof.
  assert (Hsalt : is_uint 1) by (unfold is_uint, UINT_MODULUS; lia).
  assert (Hm : 1 <= 10 <= INT_MAX) by (unfold INT_MAX; lia).
  split; [exact Hsalt|]. split; [exact Hm|].
  exact (APHashWithSalt_spec "cat" 1 10 Hsalt Hm).
Defined.

(** ** The evaluation harness *)

Lemma add_counts_no_counts_l (c : counters) : add_counts no_counts c = c.
Proof. by destruct c. Qed.

Lemma add_counts_no_counts_r (c : counters) : add_counts c no_counts = c.
Proof. destruct c. unfold add_counts; simpl. f_equal; lia. Qed.

Lemma add_counts_assoc (c d e : counters) :
  add_counts (add_counts c d) e = add_counts c (add_counts d e).
Proof. unfold add_counts; simpl. f_equal; lia. Qed.

Lemma classify_add (expectedBit lookupResult : Z) (c : counters) :
  classify expectedBit lookupResult c
  = add_counts c (classify expectedBit lookupResult no_counts).
Proof.
  unfold classify, add_counts.
  destruct c, (expectedBit =? 1), (expectedBit =? 0),
    (lookupResult =? 0), (lookupResult =? 1); simpl; f_equal; lia.
Qed.

Section Tally.
Import EvalSpec.
Context (lookup : string -> option Z).

Lemma count_cons (P : query_record -> bool) (q : query_record)
    (qs : list query_record) :
  count P (q :: qs) = (if P q then 1 else 0) + count P qs.
Proof.
  unfold count. rewrite filter_cons.
  destruct (decide (P q = true)) as [->|Hne]; simpl length.
  - lia.
  - by destruct (P q).
Qed.



Lemma tally_nil : tally lookup [] = no_counts.
Proof. done. Qed.

(** One record adds what the body of the loop adds for it. *)
Lemma tally_cons (q : query_record) (qs : list query_record) (r : Z) :
  lookup (fst q) = Some r ->
  tally lookup (q :: qs)
  = add_counts (classify (snd q) r no_counts) (tally lookup qs).
Proof.
  intros Hr. unfold tally. rewrite !count_cons.
  unfold is_false_positive, is_false_negative, is_positive, is_negative,
    lookup_is, classify, add_counts, no_counts. rewrite Hr.
  destruct (Z.eqb_spec (snd q) 1) as [H1|H1],
    (Z.eqb_spec (snd q) 0) as [H0|H0]; try lia;
    destruct (r =? 0), (r =? 1); simpl; f_equal; lia.
Qed.


End Tally.


Lemma queries_at_seqZ (before queries : list EvalSpec.query_record) :
  queries_at (before ++ queries)
    (seqZ (Z.of_nat (length before)) (Z.of_nat (length queries)))
  = queries.
Proof.
  revert before; induction queries as [|q queries IH]; intros before; [done|].
  simpl length. rewrite seqZ_cons by lia.
  unfold queries_at. simpl.
  destruct (Z.leb_spec 0 (Z.of_nat (length before))); [|lia].
  rewrite Nat2Z.id, list_lookup_middle by done. f_equal.
  specialize (IH (before ++ [q])).
  rewrite <- app_assoc, length_app in IH. simpl in IH.
  etrans; [|exact IH]. unfold queries_at. f_equal. f_equal; lia.
Qed.

(** The indices [0 .. length-1] in sequential order visit the records in
    the order of the file. *)
Lemma queries_at_all (queries : list EvalSpec.query_record) :
  queries_at queries (seqZ 0 (Z.of_nat (length queries))) = queries.
Proof. apply (queries_at_seqZ [] queries). Qed.

Section Counting.
Context (bitArray : list Z) (queries : list EvalSpec.query_record) (m k : Z).
Hypothesis Hshape : filter_shape bitArray m.

Lemma test_body_at (c : counters) (i : Z) (q : EvalSpec.query_record) (r : Z) :
  queries !! Z.to_nat i = Some q ->
  lookUp (fst q) bitArray m k = Some r ->
  test_body bitArray queries.*1 queries.*2 m k c i
  = Some (classify (snd q) r c).
Proof.
  intros Hq Hr. unfold test_body.
  rewrite !list_lookup_fmap, Hq. simpl. by rewrite Hr.
Qed.

(** The loop over any list of valid indices adds to its counters the
    tally of the records it visits. *)
Lemma count_loop_tally (order : list Z) (c : counters) :
  Forall (fun i => 0 <= i < Z.of_nat (length queries)) order ->
  foldM (test_body bitArray queries.*1 queries.*2 m k) c order
  = Some (add_counts c (EvalSpec.tally (fun word => lookUp word bitArray m k) (queries_at queries order))).
Proof.
  intros Hvalid; revert c; induction Hvalid as [|i order Hi _ IH]; intros c.
  - simpl. change (queries_at queries []) with (@nil EvalSpec.query_record).
    by rewrite tally_nil, add_counts_no_counts_r.
  - cbn [foldM].
    destruct (lookup_lt_is_Some_2 queries (Z.to_nat i)) as [q Hq]; [lia|].
    destruct (lookUp_total (fst q) bitArray m k Hshape) as (r & Hr & _).
    rewrite (test_body_at c i q r Hq Hr). simpl. rewrite IH.
    unfold queries_at. simpl. destruct (Z.leb_spec 0 i); [|lia].
    rewrite Hq. fold (queries_at queries order).
    rewrite (tally_cons (fun word => lookUp word bitArray m k) q _ r Hr).
    by rewrite classify_add, add_counts_assoc.
Qed.

Lemma count_in_order_tally (order : list Z) :
  Forall (fun i => 0 <= i < Z.of_nat (length queries)) order ->
  count_in_order bitArray queries.*1 queries.*2 m k order
  = Some (EvalSpec.tally (fun word => lookUp word bitArray m k) (queries_at queries order)).
Proof.
  intros Hvalid. unfold count_in_order.
  by rewrite count_loop_tally, add_counts_no_counts_l.
Qed.

End Counting.






(** ** Rounding in binary64

    Facts on the rounding of [SFmul] and [SFdiv], for mantissas of 53 bits
    and exponents away from the subnormal numbers and from overflow. *)

Lemma digits2_pos_bounds (p : positive) :
  2 ^ (Z.pos (digits2_pos p) - 1) <= Z.pos p < 2 ^ Z.pos (digits2_pos p).
Proof.
  induction p as [p IH|p IH|]; simpl digits2_pos.
  - rewrite Pos2Z.inj_succ, Z.pow_succ_r by lia.
    replace (Z.succ (Z.pos (digits2_pos p)) - 1)
      with (Z.succ (Z.pos (digits2_pos p) - 1)) by lia.
    rewrite Z.pow_succ_r by lia. lia.
  - rewrite Pos2Z.inj_succ, Z.pow_succ_r by lia.
    replace (Z.succ (Z.pos (digits2_pos p)) - 1)
      with (Z.succ (Z.pos (digits2_pos p) - 1)) by lia.
    rewrite Z.pow_succ_r by lia. lia.
  - simpl. lia.
Qed.

Lemma Zdigits2_eq (m d : Z) :
  2 ^ (d - 1) <= m < 2 ^ d -> 1 <= d -> Zdigits2 m = d.
Proof.
  intros [Hlo Hhi] Hd.
  assert (Hm : 0 < m) by (pose proof (Z.pow_pos_nonneg 2 (d - 1)); lia).
  destruct m as [|p|p]; [lia| |lia]. simpl.
  pose proof (digits2_pos_bounds p) as [Hlo' Hhi'].
  set (d' := Z.pos (digits2_pos p)) in *.
  assert (d' - 1 < d) by (apply (Z.pow_lt_mono_r_iff 2); lia).
  assert (d - 1 < d') by (apply (Z.pow_lt_mono_r_iff 2); lia).
  lia.
Qed.

Lemma shr_1_m (r : shr_record) :
  0 <= shr_m r -> shr_m (shr_1 r) = shr_m r / 2.
Proof.
  destruct r as [m rb sb]. cbn [shr_m shr_1]. intros Hm.
  destruct m as [|[p|p|]|p]; cbn [shr_m]; try lia.
  - done.
  - apply Z.div_unique with 1; lia.
  - apply Z.div_unique with 0; lia.
  - done.
Qed.

Lemma iter_pos_shr_1_m (p : positive) (r : shr_record) :
  0 <= shr_m r -> shr_m (SpecFloat.iter_pos shr_1 p r) = shr_m r / 2 ^ Z.pos p.
Proof.
  revert r. induction p as [p IH|p IH|]; intros r Hr; cbn [SpecFloat.iter_pos].
  - assert (H1 : 0 <= shr_m (shr_1 r))
      by (rewrite shr_1_m by done; apply Z.div_pos; lia).
    assert (H2 : 0 <= shr_m (SpecFloat.iter_pos shr_1 p (shr_1 r)))
      by (rewrite IH by done; apply Z.div_pos; lia).
    rewrite !IH, shr_1_m by done.
    rewrite !Z.div_div by lia. f_equal.
    change 2 with (2 ^ 1) at 1. rewrite <- !Z.pow_add_r by lia.
    f_equal. lia.
  - assert (H2 : 0 <= shr_m (SpecFloat.iter_pos shr_1 p r))
      by (rewrite IH by done; apply Z.div_pos; lia).
    rewrite !IH by done.
    rewrite !Z.div_div by lia. f_equal.
    rewrite <- !Z.pow_add_r by lia. f_equal. lia.
  - by rewrite shr_1_m.
Qed.

(** A shift to the right by [n] places, [n >= 0], is the division by
    [2 ^ n]. *)
Lemma shr_m_div (r : shr_record) (e n : Z) :
  0 <= shr_m r -> 0 <= n ->
  shr_m (fst (SpecFloat.shr r e n)) = shr_m r / 2 ^ n /\
  snd (SpecFloat.shr r e n) = e + n.
Proof.
  intros Hr Hn. unfold SpecFloat.shr. destruct n as [|p|p]; [| |lia].
  - simpl. rewrite Z.div_1_r. lia.
  - cbn [fst snd]. by rewrite iter_pos_shr_1_m.
Qed.

Lemma round_nearest_even_bounds (m : Z) (l : location) :
  m <= round_nearest_even m l <= m + 1.
Proof.
  unfold round_nearest_even.
  destruct l as [|[| |]]; try destruct (Z.even m); lia.
Qed.

Lemma shr_record_of_loc_m (m : Z) (l : location) :
  shr_m (shr_record_of_loc m l) = m.
Proof. by destruct l as [|[| |]]. Qed.

Lemma fexp_normal (e : Z) : -1021 <= e -> fexp 53 1024 e = e - 53.
Proof. unfold fexp, emin. lia. Qed.

(** The rounding of a mantissa [mx] of at least 53 bits at exponent [ex],
    whatever is known of the digits below it: the result is a normal
    number that is less than one unit of its last place away from
    [mx * 2 ^ ex]. *)
Lemma binary_round_aux_normal (sx : bool) (mx ex : Z) (lx : location) :
  2 ^ 52 <= mx -> -1021 <= ex -> ex + Zdigits2 mx <= 1023 ->
  exists m e,
    binary_round_aux 53 1024 sx mx ex lx = S754_finite sx m e /\
    2 ^ 52 <= Z.pos m < 2 ^ 53 /\
    Zdigits2 mx - 53 <= e - ex <= Zdigits2 mx - 52 /\
    mx - 2 ^ (e - ex) < Z.pos m * 2 ^ (e - ex) <= mx + 2 ^ (e - ex).
Proof.
  intros Hmx Hex Hmax.
  assert (Hpos : 0 < mx) by lia.
  pose proof Hpos as Hd. destruct mx as [|p|p]; [lia| |lia].
  pose proof (digits2_pos_bounds p) as [Hdlo Hdhi].
  set (mx := Z.pos p) in *.
  assert (Hd53 : 53 <= Zdigits2 mx).
  { cbn [Zdigits2 mx]. 
    assert (52 < Z.pos (digits2_pos p)); [|lia].
    apply (Z.pow_lt_mono_r_iff 2); lia. }
  change (Z.pos (digits2_pos p)) with (Zdigits2 mx) in Hdlo, Hdhi.
  set (d := Zdigits2 mx) in *.
  set (W := 2 ^ (d - 53)).
  assert (HW : 0 < W) by (apply Z.pow_pos_nonneg; lia).
  assert (Hlo' : 2 ^ (d - 1) = 2 ^ 52 * W).
  { unfold W. rewrite <- Z.pow_add_r by lia. f_equal. lia. }
  assert (Hhi' : 2 ^ d = 2 ^ 53 * W).
  { unfold W. rewrite <- Z.pow_add_r by lia. f_equal. lia. }
  set (m1 := mx / W).
  assert (Hm1 : W * m1 <= mx < W * (m1 + 1)).
  { split; [apply Z.mul_div_le; lia|].
    pose proof (Z.mul_succ_div_gt mx W HW). unfold m1. lia. }
  assert (Hm1r : 2 ^ 52 <= m1 < 2 ^ 53) by (split; nia).
  unfold binary_round_aux, shr_fexp. fold d.
  rewrite fexp_normal by lia.
  replace (d + ex - 53 - ex) with (d - 53) by lia.
  pose proof (shr_m_div (shr_record_of_loc mx lx) ex (d - 53)) as Hshr.
  rewrite shr_record_of_loc_m in Hshr.
  destruct Hshr as [Hs1 Hs2]; [lia..|].
  destruct (SpecFloat.shr (shr_record_of_loc mx lx) ex (d - 53))
    as [mrs' e'] eqn:Hshr.
  cbn [fst snd] in Hs1, Hs2. fold W in Hs1. fold m1 in Hs1. subst e'.
  rewrite Hs1.
  pose proof (round_nearest_even_bounds m1 (loc_of_shr_record mrs')) as Hrne.
  set (m2 := round_nearest_even m1 (loc_of_shr_record mrs')) in *.
  destruct (Z.eq_dec m2 (2 ^ 53)) as [Hcarry|Hcarry].
  - rewrite Hcarry.
    exists (Z.to_pos (2 ^ 52)), (ex + (d - 53) + 1).
    split; [|split; [|split]].
    + vm_compute (Zdigits2 (2 ^ 53)).
      rewrite fexp_normal by lia.
      replace (54 + (ex + (d - 53)) - 53 - (ex + (d - 53))) with 1 by lia.
      cbn [SpecFloat.shr SpecFloat.iter_pos shr_record_of_loc].
      vm_compute (shr_m (shr_1 _)).
      replace (ex + (d - 53) + 1 <=? 1024 - 53) with true
        by (symmetry; apply Z.leb_le; lia).
      done.
    + vm_compute. done.
    + lia.
    + replace (ex + (d - 53) + 1 - ex) with ((d - 53) + 1) by lia.
      rewrite Z.pow_add_r by lia. fold W.
      rewrite Z2Pos.id by done. change (2 ^ 1) with 2. nia.
  - assert (Hm2 : 2 ^ 52 <= m2 < 2 ^ 53) by lia.
    exists (Z.to_pos m2), (ex + (d - 53)).
    split; [|split; [|split]].
    + rewrite (Zdigits2_eq m2 53) by lia.
      rewrite fexp_normal by lia.
      replace (53 + (ex + (d - 53)) - 53 - (ex + (d - 53))) with 0 by lia.
      cbn [SpecFloat.shr shr_record_of_loc shr_m].
      replace (ex + (d - 53) <=? 1024 - 53) with true
        by (symmetry; apply Z.leb_le; lia).
      destruct m2 as [|q|q]; [lia| |lia]. done.
    + rewrite Z2Pos.id by lia. done.
    + lia.
    + rewrite Z2Pos.id by lia.
      replace (ex + (d - 53) - ex) with (d - 53) by lia. fold W. nia.
Qed.

(** A mantissa of exactly 53 bits is not rounded. *)
Lemma binary_round_aux_exact (sx : bool) (m : positive) (ex : Z) :
  2 ^ 52 <= Z.pos m < 2 ^ 53 -> -1021 <= ex <= 971 ->
  binary_round_aux 53 1024 sx (Z.pos m) ex loc_Exact = S754_finite sx m ex.
Proof.
  intros Hm Hex. unfold binary_round_aux, shr_fexp.
  rewrite (Zdigits2_eq (Z.pos m) 53) by lia.
  rewrite fexp_normal by lia.
  replace (53 + ex - 53 - ex) with 0 by lia.
  cbn [SpecFloat.shr shr_record_of_loc shr_m loc_of_shr_record
       round_nearest_even].
  rewrite (Zdigits2_eq (Z.pos m) 53) by lia.
  rewrite fexp_normal by lia.
  replace (53 + ex - 53 - ex) with 0 by lia.
  cbn [SpecFloat.shr shr_record_of_loc shr_m].
  by replace (ex <=? 1024 - 53) with true by (symmetry; apply Z.leb_le; lia).
Qed.

Lemma Pos_iter_xO (m k : positive) :
  Z.pos (Pos.iter xO m k) = Z.pos m * 2 ^ Z.pos k.
Proof.
  induction k as [|k IH] using Pos.peano_ind.
  - simpl. lia.
  - rewrite Pos.iter_succ, Pos2Z.inj_xO, IH, Pos2Z.inj_succ.
    rewrite Z.pow_succ_r by lia. lia.
Qed.

(** The conversion of a positive [int] to [double] is exact: the mantissa
    is the integer, shifted to 53 bits. *)
Lemma b64_of_int_pos (n : Z) :
  1 <= n < 2 ^ 31 ->
  exists m j,
    b64_of_int n = S754_finite false m (- j) /\
    22 <= j <= 52 /\ Z.pos m = n * 2 ^ j /\ 2 ^ 52 <= Z.pos m < 2 ^ 53.
Proof.
  intros Hn. destruct n as [|p|p]; [lia| |lia].
  pose proof (digits2_pos_bounds p) as [Hdlo Hdhi].
  set (d := Z.pos (digits2_pos p)) in *.
  assert (Hd : 1 <= d <= 31).
  { split; [lia|].
    assert (d - 1 < 31); [|lia]. apply (Z.pow_lt_mono_r_iff 2); lia. }
  unfold b64_of_int, binary_normalize, binary_round. fold d.
  rewrite fexp_normal by lia. unfold shl_align.
  replace (d + 0 - 53 - 0) with (- (53 - d)) by lia.
  destruct (53 - d) as [|k|k] eqn:Hk; [lia| |lia].
  change (- Z.pos k) with (Z.neg k). cbv iota beta.
  assert (Hm : Z.pos (Pos.iter xO p k) = Z.pos p * 2 ^ (53 - d))
    by (rewrite Pos_iter_xO; by rewrite Hk).
  assert (Hpow : 2 ^ (d - 1) * 2 ^ (53 - d) = 2 ^ 52).
  { rewrite <- Z.pow_add_r by lia. f_equal. lia. }
  assert (Hpow' : 2 ^ d * 2 ^ (53 - d) = 2 ^ 53).
  { rewrite <- Z.pow_add_r by lia. f_equal. lia. }
  assert (HW : 0 < 2 ^ (53 - d)) by (apply Z.pow_pos_nonneg; lia).
  assert (Hr : 2 ^ 52 <= Z.pos (Pos.iter xO p k) < 2 ^ 53)
    by (rewrite Hm; split; nia).
  exists (Pos.iter xO p k), (53 - d).
  split; [|split; [lia|split; [exact Hm | exact Hr]]].
  rewrite binary_round_aux_exact by (done || lia).
  f_equal. lia.
Qed.

(** The product of two normal numbers. *)
Lemma b64_mul_normal (sx sy : bool) (mx my : positive) (ex ey : Z) :
  2 ^ 52 <= Z.pos mx < 2 ^ 53 -> 2 ^ 52 <= Z.pos my < 2 ^ 53 ->
  -1021 <= ex + ey <= 900 ->
  exists m delta,
    b64_mul (S754_finite sx mx ex) (S754_finite sy my ey)
    = S754_finite (xorb sx sy) m (ex + ey + delta) /\
    52 <= delta <= 54 /\
    2 ^ 52 <= Z.pos m < 2 ^ 53 /\
    Z.pos mx * Z.pos my - 2 ^ delta < Z.pos m * 2 ^ delta
      <= Z.pos mx * Z.pos my + 2 ^ delta.
Proof.
  intros Hx Hy He. unfold b64_mul, SFmul.
  assert (HP : 2 ^ 104 <= Z.pos (mx * my) < 2 ^ 106)
    by (rewrite Pos2Z.inj_mul; split; nia).
  pose proof (digits2_pos_bounds (mx * my)) as [Hdlo Hdhi].
  assert (Hd : 105 <= Zdigits2 (Z.pos (mx * my)) <= 106).
  { cbn [Zdigits2]. set (d := Z.pos (digits2_pos (mx * my))) in *.
    assert (104 < d) by (apply (Z.pow_lt_mono_r_iff 2); lia).
    assert (d - 1 < 106) by (apply (Z.pow_lt_mono_r_iff 2); lia).
    lia. }
  destruct (binary_round_aux_normal (xorb sx sy) (Z.pos (mx * my)) (ex + ey)
              loc_Exact) as (m & e & Heq & Hm & He' & Hv); [lia..|].
  exists m, (e - (ex + ey)).
  replace (ex + ey + (e - (ex + ey))) with e by lia.
  rewrite <- Pos2Z.inj_mul. split; [done|]. split; [lia|]. done.
Qed.

(** The quotient of two normal numbers. *)
Lemma b64_div_normal (sx sy : bool) (mx my : positive) (ex ey : Z) :
  2 ^ 52 <= Z.pos mx < 2 ^ 53 -> 2 ^ 52 <= Z.pos my < 2 ^ 53 ->
  -900 <= ex - ey <= 900 ->
  exists m delta,
    b64_div (S754_finite sx mx ex) (S754_finite sy my ey)
    = S754_finite (xorb sx sy) m (ex - ey - 53 + delta) /\
    0 <= delta <= 2 /\
    2 ^ 52 <= Z.pos m < 2 ^ 53 /\
    Z.pos mx * 2 ^ 53 - Z.pos my * 2 ^ delta
      < Z.pos my * (Z.pos m * 2 ^ delta)
      <= Z.pos mx * 2 ^ 53 + Z.pos my * 2 ^ delta.
Proof.
  intros Hx Hy He. unfold b64_div, SFdiv, SFdiv_core_binary.
  rewrite (Zdigits2_eq (Z.pos mx) 53), (Zdigits2_eq (Z.pos my) 53) by lia.
  rewrite fexp_normal by lia.
  replace (Z.min (53 + ex - (53 + ey) - 53) (ex - ey)) with (ex - ey - 53)
    by lia.
  replace (ex - ey - (ex - ey - 53)) with 53 by lia.
  rewrite Z.shiftl_mul_pow2 by lia.
  pose proof (Z_div_mod (Z.pos mx * 2 ^ 53) (Z.pos my) ltac:(lia)) as Hdiv.
  destruct (Z.div_eucl (Z.pos mx * 2 ^ 53) (Z.pos my)) as [q r].
  destruct Hdiv as [Hq Hr].
  assert (Hq' : 2 ^ 52 <= q < 2 ^ 54) by (split; nia).
  assert (Hd : 53 <= Zdigits2 q <= 54).
  { destruct (Z.lt_ge_cases q (2 ^ 53)).
    - rewrite (Zdigits2_eq q 53); lia.
    - rewrite (Zdigits2_eq q 54); lia. }
  destruct (binary_round_aux_normal (xorb sx sy) q (ex - ey - 53)
              (new_location (Z.pos my) r))
    as (m & e & Heq & Hm & He' & Hv); [lia..|].
  exists m, (e - (ex - ey - 53)).
  replace (ex - ey - 53 + (e - (ex - ey - 53))) with e by lia.
  split; [done|]. split; [lia|]. split; [done|].
  set (D := 2 ^ (e - (ex - ey - 53))) in *.
  assert (0 < D) by (apply Z.pow_pos_nonneg; lia).
  split; nia.
Qed.

(** ** The size that [calculateOptimalArraySize] computes *)

(** The quotient of [calculateOptimalArraySize] for a positive [int]: a
    positive [double] of negative exponent, about 9.58505837737 times
    [n]. *)
Lemma array_size_quotient (n : Z) :
  1 <= n < 2 ^ 31 ->
  exists m e,
    b64_div (b64_mul (b64_of_int n) log_MAX_FP) log_inverse_pow
    = S754_finite false m e /\
    e < 0 /\
    95850583773 * (n * 2 ^ (- e)) <= 10000000000 * Z.pos m
      <= 95850583775 * (n * 2 ^ (- e)).
Proof.
  intros Hn.
  destruct (b64_of_int_pos n Hn) as (a & j & -> & Hj & Ha & Har).
  unfold log_MAX_FP, log_inverse_pow.
  destruct (b64_mul_normal false true a 5184960683398421 (- j) (-50))
    as (mt & d1 & -> & Hd1 & Hmt & Hvt); [done | lia | lia |].
  destruct (b64_div_normal (xorb false true) true mt 8655072057804176
              (- j + -50 + d1) (-54))
    as (mo & d2 & -> & Hd2 & Hmo & Hvo); [done | lia | lia |].
  exists mo, (- j + -50 + d1 - -54 - 53 + d2).
  split; [done|]. split; [lia|].
  set (t := d1 + d2 - 49).
  replace (- (- j + -50 + d1 - -54 - 53 + d2)) with (j - t) by lia.
  assert (Hpow : 2 ^ j = 2 ^ (j - t) * 2 ^ t).
  { rewrite <- Z.pow_add_r by lia. f_equal. lia. }
  set (W := 2 ^ (j - t)) in *.
  assert (HW : 0 < W) by (apply Z.pow_pos_nonneg; lia).
  rewrite Hpow in Ha.
  set (X := n * W).
  replace (n * (W * 2 ^ t)) with (X * 2 ^ t) in Ha by (unfold X; ring).
  clearbody X W. subst t. clear Hpow Hn.
  assert (Hc1 : d1 = 52 \/ d1 = 53 \/ d1 = 54) by lia.
  assert (Hc2 : d2 = 0 \/ d2 = 1 \/ d2 = 2) by lia.
  destruct Hc1 as [-> | [-> | ->]], Hc2 as [-> | [-> | ->]];
    cbn [Z.add Z.sub Z.opp Pos.add Pos.succ Z.pos_sub Pos.pred_double
         Z.double Z.succ_double Z.pred_double] in *; lia.
Qed.

(** The integer [ceil] of a positive number with a negative exponent. *)
Lemma b64_ceil_positive (m : positive) (e : Z) :
  e < 0 ->
  exists c,
    b64_ceil (S754_finite false m e) = Some c /\
    2 ^ (- e) * (c - 1) < Z.pos m <= 2 ^ (- e) * c.
Proof.
  intros He. unfold b64_ceil, cond_Zopp.
  destruct (Z.leb_spec 0 e) as [|_]; [lia|].
  eexists. split; [done|].
  assert (HW : 0 < 2 ^ (- e)) by (apply Z.pow_pos_nonneg; lia).
  set (W := 2 ^ (- e)) in *.
  pose proof (Z.mul_div_le (- Z.pos m) W HW).
  pose proof (Z.mul_succ_div_gt (- Z.pos m) W HW).
  lia.
Qed.

(** For [n] from 1 to 224044921 the size is computed; it is the ceiling of
    a number within 0.0000000002 [n] of 9.5850583774 [n]. *)
Lemma array_size_estimate (n : Z) :
  1 <= n <= 224044921 ->
  exists m,
    calculateOptimalArraySize n = Some m /\
    95850583773 * n <= 10000000000 * m < 95850583775 * n + 10000000000.
Proof.
  intros Hn. unfold calculateOptimalArraySize.
  destruct (array_size_quotient n) as (mo & e & -> & He & Hlo & Hhi); [lia|].
  destruct (b64_ceil_positive mo e He) as (c & -> & Hclo & Hchi).
  assert (HW : 0 < 2 ^ (- e)) by (apply Z.pow_pos_nonneg; lia).
  set (W := 2 ^ (- e)) in *.
  assert (Hc : 95850583773 * n <= 10000000000 * c
               < 95850583775 * n + 10000000000) by nia.
  exists c. split; [|done].
  cbn [mbind option_bind]. unfold double_to_int, INT_MIN, INT_MAX.
  destruct (Z.leb_spec (-2147483648) c), (Z.leb_spec c 2147483647);
    simpl; (done || lia).
Qed.

(** It lies between [9 n] and [10 n]. *)
Lemma array_size_bounds (n : Z) :
  1 <= n <= 224044921 ->
  exists m,
    calculateOptimalArraySize n = Some m /\
    9 * n <= m <= 10 * n /\ m <= INT_MAX.
Proof.
  intros Hn. destruct (array_size_estimate n Hn) as (m & Hm & Hest).
  exists m. split; [done|]. unfold INT_MAX. lia.
Qed.

(** From 224044922 elements on the size is not an [int]. *)
Lemma array_size_overflow (n : Z) :
  224044922 <= n <= INT_MAX -> calculateOptimalArraySize n = None.
Proof.
  unfold INT_MAX. intros Hn. unfold calculateOptimalArraySize.
  destruct (array_size_quotient n) as (mo & e & -> & He & Hlo & Hhi); [lia|].
  destruct (b64_ceil_positive mo e He) as (c & -> & Hclo & Hchi).
  assert (HW : 0 < 2 ^ (- e)) by (apply Z.pow_pos_nonneg; lia).
  set (W := 2 ^ (- e)) in *.
  assert (Hc : 2147483647 < c) by nia.
  cbn [mbind option_bind]. unfold double_to_int, INT_MIN, INT_MAX.
  destruct (Z.leb_spec (-2147483648) c), (Z.leb_spec c 2147483647);
    simpl; (done || lia).
Qed.

(** ** The construction of the filter in [main] *)

(** C9 (the code departs from it).  With no word to insert the sizing of
    [main] divides by zero, whatever size was computed: the run has no
    defined outcome. *)
Theorem empty_input_divides_by_zero :
  (forall m, hash_count m 0 = None) /\
  main_sizing 0 = None /\
  (forall queries bits bitArray, main_run [] queries bits bitArray = None).
Proof.
  assert (Hsizing : main_sizing 0 = None).
  { unfold main_sizing. by destruct (calculateOptimalArraySize 0). }
  split; [done|]. split; [done|].
  intros queries bits bitArray. unfold main_run. cbn [length].
  change (Z.of_nat 0) with 0. by rewrite Hsizing.
Qed.

(** ** The hash count against its formula *)

Section Logarithms.
Local Open Scope R_scope.

Lemma ln_le_sub_1 (x : R) : 0 < x -> ln x <= x - 1.
Proof.
  intros Hx. pose proof (exp_ineq1_le (ln x)) as H.
  rewrite exp_ln in H by done. lra.
Qed.

Lemma ln_ge_1_sub_inv (x : R) : 0 < x -> 1 - / x <= ln x.
Proof.
  intros Hx. pose proof (ln_le_sub_1 (/ x) (Rinv_0_lt_compat x Hx)) as H.
  rewrite ln_Rinv in H by done. lra.
Qed.

Lemma ln_le_mono (x y : R) : 0 < x -> x <= y -> ln x <= ln y.
Proof.
  intros Hx [Hlt| ->]; [|lra]. left. by apply ln_increasing.
Qed.

Lemma ln_2_lower : 2 / 3 <= ln 2.
Proof.
  apply Rle_trans with (ln ((24 / 23) ^ 16)).
  - rewrite ln_pow by lra.
    pose proof (ln_ge_1_sub_inv (24 / 23) ltac:(lra)) as H.
    replace (/ (24 / 23)) with (23 / 24) in H by field.
    simpl INR. lra.
  - apply ln_le_mono; [apply pow_lt; lra | lra].
Qed.

Lemma ln_2_upper : ln 2 < 7 / 10.
Proof.
  apply Rlt_le_trans with (ln ((407 / 400) ^ 40)).
  - apply ln_increasing; lra.
  - rewrite ln_pow by lra.
    pose proof (ln_le_sub_1 (407 / 400) ltac:(lra)) as H.
    simpl INR. lra.
Qed.
End Logarithms.

Section HashCount.
Local Open Scope R_scope.

(** For a size between [9 n] and [10 n] the hash count of the code, with
    its truncated quotient and its product in [double], and the formula on
    the real quotient are both 6. *)
Lemma hash_count_6 (n m : Z) :
  (1 <= n)%Z -> (9 * n <= m <= 10 * n)%Z ->
  hash_count m n = Some 6%Z /\ Zfloor (IZR m / IZR n * ln 2) = 6%Z.
Proof.
  intros Hn [Hlo Hhi].
  pose proof ln_2_lower as Hl. pose proof ln_2_upper as Hu.
  split.
  - unfold hash_count. destruct (Z.eqb_spec n 0); [lia|].
    replace ((m =? INT_MIN)%Z && (n =? -1)%Z) with false
      by (symmetry; apply andb_false_iff; right; apply Z.eqb_neq; lia).
    rewrite Z.quot_div_nonneg by lia.
    assert (Hq : (9 <= m / n <= 10)%Z).
    { split; [apply Z.div_le_lower_bound | apply Z.div_le_upper_bound]; lia. }
    assert (Hq' : (m / n = 9 \/ m / n = 10)%Z) by lia.
    destruct Hq' as [-> | ->]; by vm_compute.
  - apply Zfloor_eq.
    apply IZR_le in Hn, Hlo, Hhi. rewrite mult_IZR in Hlo, Hhi.
    assert (Hr : IZR m / IZR n * IZR n = IZR m) by (field; lra).
    set (r := IZR m / IZR n) in *.
    assert (9 <= r <= 10) by (split; nra).
    split; nra.
Qed.
End HashCount.

(** C4 (as amended).  For every expected element count [n] from 1 to
    224044921 the bit-array size [m] is computed, and the hash count that
    [main] stores in [k] is [floor((m / n) * ln 2)] with the real quotient
    [m / n].  The code takes the truncated quotient of the two [int]s; on
    the sizes it computes the two agree. *)
Theorem hash_count_formula (n : Z) :
  1 <= n <= 224044921 ->
  exists m,
    calculateOptimalArraySize n = Some m /\
    hash_count m n = Some (Zfloor (IZR m / IZR n * ln 2)%R) /\
    main_sizing n = Some (m, Zfloor (IZR m / IZR n * ln 2)%R).
Proof.
  intros Hn.
  destruct (array_size_bounds n Hn) as (m & Hm & Hbounds & _).
  destruct (hash_count_6 n m ltac:(lia) Hbounds) as [Hk Hfloor].
  exists m. rewrite Hfloor. split; [done|]. split; [done|].
  unfold main_sizing. rewrite Hm. cbn [mbind option_bind]. by rewrite Hk.
Qed.

Lemma hash_count_formula_witness :
  1 <= 1000 <= 224044921 /\
  exists m,
    calculateOptimalArraySize 1000 = Some m /\
    hash_count m 1000 = Some (Zfloor (IZR m / IZR 1000 * ln 2)%R) /\
    main_sizing 1000 = Some (m, Zfloor (IZR m / IZR 1000 * ln 2)%R).
Proof.
  assert (Hn : 1 <= 1000 <= 224044921) by lia.
  split; [exact Hn|]. exact (hash_count_formula 1000 Hn).
Defined.

(** C4 as it is stated fails for 224044922 elements: the size is not an
    [int], its conversion is undefined, and there is no size and no hash
    count that the formula could be about. *)
Lemma hash_count_formula_counterexample :
  1 <= 224044922 <= INT_MAX /\
  calculateOptimalArraySize 224044922 = None /\
  ~ (exists m k,
       main_sizing 224044922 = Some (m, k) /\
       k = Zfloor (IZR m / IZR 224044922 * ln 2)%R).
Proof.
  assert (Hsize : calculateOptimalArraySize 224044922 = None)
    by (vm_compute; done).
  split; [unfold INT_MAX; lia|]. split; [exact Hsize|].
  intros (m & k & Hsizing & _).
  unfold main_sizing in Hsizing. by rewrite Hsize in Hsizing.
Qed.

(** The hash count of the code is always 6 for a computed size. *)
Lemma hash_count_computed (n m : Z) :
  1 <= n <= INT_MAX ->
  calculateOptimalArraySize n = Some m -> hash_count m n = Some 6.
Proof.
  intros Hn Hm. destruct (Z.le_gt_cases n 224044921) as [Hle|Hgt].
  - destruct (array_size_bounds n ltac:(lia)) as (m' & Hm' & Hbounds & _).
    rewrite Hm in Hm'. injection Hm' as <-.
    by destruct (hash_count_6 n m ltac:(lia) Hbounds) as [-> _].
  - by rewrite array_size_overflow in Hm by lia.
Qed.

(** The quotient [m/numToInsert] of the code is the truncated one: away from
    the computed sizes, [hash_count] and the formula on the real quotient
    part.  For 19 bits and 10 elements the code gives 0 and the formula 1. *)
Lemma hash_count_truncates_quotient :
  hash_count 19 10 = Some 0 /\ Zfloor (IZR 19 / IZR 10 * ln 2)%R = 1.
Proof.
  pose proof ln_2_lower as Hl. pose proof ln_2_upper as Hu.
  split; [by vm_compute|].
  apply Zfloor_eq. split; lra.
Qed.

(** ** A run of [main] on a block that is not zeroed *)

(** One word to insert: 10 cells and 6 hash functions. *)
Lemma main_sizing_1 : main_sizing 1 = Some (10, 6).
Proof. by vm_compute. Qed.

(** C2 (the code departs from it).  [main] obtains the bit array from
    [malloc] and hands it to [insertWords] as it is.  For the one word "cat"
    the array has 10 cells; a block of 10 cells holding 7 is a possible
    result of the allocation, its cells are not 0 before any insertion, and
    the run then counts the query "dog" as a false positive, which the run on
    a zeroed block does not. *)
Theorem bitArray_not_zeroed :
  main_sizing 1 = Some (10, 6) /\
  malloc_int_array 10 (replicate 10 7) /\
  replicate 10 7 !! 0%nat = Some 7 /\
  counts <$> main_run ["cat"]%string ["dog"]%string [0] (replicate 10 7)
  = Some (Counters 1 0 0 1) /\
  counts <$> main_run ["cat"]%string ["dog"]%string [0] (replicate 10 0)
  = Some (Counters 0 0 0 1).
Proof.
  split; [exact main_sizing_1|]. split; [by constructor|]. split; [done|].
  unfold main_run. cbn [length]. change (Z.of_nat 1) with 1.
  rewrite main_sizing_1. cbn [mbind option_bind].
  assert (H7 : insertWords ["cat"]%string 1 (replicate 10 7) 10 6
               = Some [1; 7; 7; 1; 1; 7; 1; 7; 7; 1]) by (vm_compute; done).
  assert (H0 : insertWords ["cat"]%string 1 (replicate 10 0) 10 6
               = Some [1; 0; 0; 1; 1; 0; 1; 0; 0; 1]) by (vm_compute; done).
  rewrite H7, H0. cbn [mbind option_bind]. unfold testBloomWithQueries.
  assert (C7 : count_in_order [1; 7; 7; 1; 1; 7; 1; 7; 7; 1] ["dog"]%string
                 [0] 10 6 (seqZ 0 1) = Some (Counters 1 0 0 1))
    by (vm_compute; done).
  assert (C0 : count_in_order [1; 0; 0; 1; 1; 0; 1; 0; 0; 1] ["dog"]%string
                 [0] 10 6 (seqZ 0 1) = Some (Counters 0 0 0 1))
    by (vm_compute; done).
  rewrite C7, C0. done.
Qed.

(** * Further properties of the code *)

(** ** More on loops that may fault *)

Section FoldMMore.
Context {S A B : Type}.

Lemma foldM_ext (body1 body2 : S -> A -> option S) (l : list A) (s : S) :
  (forall s x, x ∈ l -> body1 s x = body2 s x) ->
  foldM body1 s l = foldM body2 s l.
Proof.
  revert s; induction l as [|x l IH]; intros s Hext; simpl; [done|].
  rewrite (Hext s x) by apply list_elem_of_here.
  destruct (body2 s x) as [s'|]; simpl; [|done].
  apply IH. intros s0 y Hy. apply Hext. by apply list_elem_of_further.
Qed.

Lemma foldM_fmap (body : S -> B -> option S) (f : A -> B) (l : list A) (s : S) :
  foldM body s (f <$> l) = foldM (fun s x => body s (f x)) s l.
Proof.
  revert s; induction l as [|x l IH]; intros s; simpl; [done|].
  destruct (body s (f x)) as [s'|]; simpl; [apply IH | done].
Qed.
End FoldMMore.

(** ** The final state of an insertion *)

Section FinalCells.
Context (ppWordListArray : list string) (m : Z).

(** A cell that no iteration of a run stores to keeps its value. *)
Lemma insertWords_in_order_untouched (order : list (Z * Z)) (a a' : list Z)
    (j : nat) :
  insertWords_in_order ppWordListArray a m order = Some a' ->
  (forall it idx v, it ∈ order ->
     insert_write ppWordListArray m it = Some (idx, v) -> Z.to_nat idx <> j) ->
  a' !! j = a !! j.
Proof.
  unfold insertWords_in_order.
  revert a; induction order as [|it order IH]; intros a Hrun Hfree;
    simpl in Hrun.
  - by injection Hrun as ->.
  - destruct (insert_body _ _ a it) as [a1|] eqn:Hbody; simpl in Hrun; [|done].
    rewrite (IH a1 Hrun)
      by (intros it' idx v Hin; apply Hfree; by apply list_elem_of_further).
    unfold insert_body in Hbody.
    destruct (insert_write _ _ it) as [[idx v]|] eqn:Hw; simpl in Hbody; [|done].
    apply store_Some in Hbody as [_ ->].
    apply list_lookup_insert_ne.
    eapply Hfree; [apply list_elem_of_here | exact Hw].
Qed.

Lemma insert_body_write (a : list Z) (it : Z * Z) (idx v : Z) :
  insert_write ppWordListArray m it = Some (idx, v) ->
  insert_body ppWordListArray m a it = store a idx v.
Proof. intros Hw. unfold insert_body. by rewrite Hw. Qed.

(** A run whose stores all hit cells that hold 1 already changes nothing. *)
Lemma insertWords_in_order_fixed (order : list (Z * Z)) (a : list Z) :
  (forall it, it ∈ order ->
     exists idx, insert_write ppWordListArray m it = Some (idx, 1) /\
                 load a idx = Some 1) ->
  insertWords_in_order ppWordListArray a m order = Some a.
Proof.
  unfold insertWords_in_order.
  induction order as [|it order IH]; intros Hset; simpl; [done|].
  destruct (Hset it (list_elem_of_here _ _)) as (idx & Hw & Hload).
  rewrite (insert_body_write a it idx 1 Hw).
  apply load_Some in Hload as [Hidx Hcell].
  rewrite store_in_bounds by (apply lookup_lt_Some in Hcell; lia).
  simpl. rewrite list_insert_id by done.
  apply IH. intros it' Hin. apply Hset. by apply list_elem_of_further.
Qed.
End FinalCells.

Lemma is_hash_index_iteration (words : list string) (m k : Z) (j : nat) :
  is_hash_index words m k j <->
  exists it, it ∈ iteration_space (Z.of_nat (length words)) k /\
             insert_write words m it = Some (Z.of_nat j, 1).
Proof.
  split.
  - intros (word & h & [i Hi]%list_elem_of_lookup_1 & Hh & Hhash).
    exists (Z.of_nat i, h). split.
    + apply elem_of_iteration_space. apply lookup_lt_Some in Hi. lia.
    + unfold insert_write. simpl. rewrite Nat2Z.id, Hi. simpl.
      by rewrite Hhash.
  - intros ([i h] & [Hi Hh]%elem_of_iteration_space & Hw).
    unfold insert_write in Hw. simpl in Hw.
    destruct (words !! Z.to_nat i) as [word|] eqn:Hword; simpl in Hw; [|done].
    destruct (APHashWithSalt word (to_uint h) m) as [hash|] eqn:Hhash;
      simpl in Hw; [|done].
    injection Hw as ->. exists word, h.
    split; [by eapply list_elem_of_lookup_2 | done].
Qed.

(** X1.  The array that [insertWords] leaves is known cell by cell: on a
    bit array of [m >= 1] cells, a cell whose index is the hash of some
    inserted word under some salt below [k] holds 1, and every other cell
    holds what it held before. *)
Theorem insertWords_final_cells (words : list string) (bitArray : list Z)
    (m k : Z) :
  filter_shape bitArray m ->
  exists filled,
    insertWords words (Z.of_nat (length words)) bitArray m k = Some filled /\
    forall j : nat,
      (is_hash_index words m k j -> filled !! j = Some 1) /\
      (~ is_hash_index words m k j -> filled !! j = bitArray !! j).
Proof.
  intros [Hm Hlen].
  destruct (insertWords_in_order_total words (Z.of_nat (length words)) m k Hm
              eq_refl (iteration_space (Z.of_nat (length words)) k) bitArray Hlen)
    as (filled & Hrun & Hfilled); [done|].
  exists filled. split; [done|]. intros j. split.
  - intros (it & Hit & Hw)%is_hash_index_iteration.
    pose proof (insertWords_in_order_written words m _ _ _ _ _ _ Hrun Hit Hw)
      as Hload.
    apply load_Some in Hload as [_ Hcell]. by rewrite Nat2Z.id in Hcell.
  - intros Hnot.
    apply (insertWords_in_order_untouched words m _ _ _ _ Hrun).
    intros it idx v Hit Hw Hj. apply Hnot.
    apply is_hash_index_iteration. exists it. split; [done|].
    destruct (insert_write_in_space words _ m k Hm eq_refl it Hit)
      as (word & _ & Hw' & Hidx).
    rewrite Hw' in Hw. injection Hw as <- <-.
    rewrite Hw'. do 2 f_equal. lia.
Qed.

Lemma insertWords_final_cells_witness :
  filter_shape (replicate 10 0) 10 /\
  exists filled,
    insertWords ["cat"; "dog"]%string 2 (replicate 10 0) 10 3 = Some filled /\
    forall j : nat,
      (is_hash_index ["cat"; "dog"]%string 10 3 j -> filled !! j = Some 1) /\
      (~ is_hash_index ["cat"; "dog"]%string 10 3 j ->
       filled !! j = replicate 10 0 !! j).
Proof.
  assert (Hshape : filter_shape (replicate 10 0) 10)
    by (split; [unfold INT_MAX; lia | reflexivity]).
  split; [exact Hshape|].
  exact (insertWords_final_cells ["cat"; "dog"]%string (replicate 10 0) 10 3
           Hshape).
Defined.

(** X2.  Inserting the same words again changes nothing: on a bit array of
    [m >= 1] cells, [insertWords] run on its own result returns that result. *)
Theorem insertWords_idempotent (words : list string) (bitArray : list Z)
    (m k : Z) :
  filter_shape bitArray m ->
  exists filled,
    insertWords words (Z.of_nat (length words)) bitArray m k = Some filled /\
    insertWords words (Z.of_nat (length words)) filled m k = Some filled.
Proof.
  intros [Hm Hlen].
  destruct (insertWords_in_order_total words (Z.of_nat (length words)) m k Hm
              eq_refl (iteration_space (Z.of_nat (length words)) k) bitArray Hlen)
    as (filled & Hrun & Hfilled); [done|].
  exists filled. split; [done|].
  apply insertWords_in_order_fixed. intros it Hit.
  destruct (insert_write_in_space words _ m k Hm eq_refl it Hit)
    as (word & _ & Hw & _).
  eexists. split; [exact Hw|].
  by eapply insertWords_in_order_written.
Qed.

Lemma insertWords_idempotent_witness :
  filter_shape [0; 7; 0; 0; 0; 0; 0; 0; 0; 0] 10 /\
  exists filled,
    insertWords ["cat"; "dog"]%string 2 [0; 7; 0; 0; 0; 0; 0; 0; 0; 0] 10 3
    = Some filled /\
    insertWords ["cat"; "dog"]%string 2 filled 10 3 = Some filled.
Proof.
  assert (Hshape : filter_shape [0; 7; 0; 0; 0; 0; 0; 0; 0; 0] 10)
    by (split; [unfold INT_MAX; lia | reflexivity]).
  split; [exact Hshape|].
  exact (insertWords_idempotent ["cat"; "dog"]%string
           [0; 7; 0; 0; 0; 0; 0; 0; 0; 0] 10 3 Hshape).
Defined.

(** ** Insertion of a list in two parts *)

Lemma row_shift (n1 i : Z) (hs : list Z) :
  (fun it : Z * Z => (n1 + fst it, snd it)) <$> (hs ≫= fun h => [(i, h)])
  = hs ≫= fun h => [(n1 + i, h)].
Proof.
  induction hs as [|h hs IH]; [done|].
  rewrite !bind_cons, fmap_app, IH. done.
Qed.

Lemma rows_shift (n1 k : Z) (l : list Z) :
  (Z.add n1 <$> l) ≫= (fun i => seqZ 0 k ≫= fun h => [(i, h)])
  = (fun it : Z * Z => (n1 + fst it, snd it))
    <$> (l ≫= fun i => seqZ 0 k ≫= fun h => [(i, h)]).
Proof.
  induction l as [|i l IH]; [done|].
  rewrite fmap_cons, !bind_cons, fmap_app, IH, row_shift. done.
Qed.

Lemma iteration_space_app (n1 n2 k : Z) :
  0 <= n1 -> 0 <= n2 ->
  iteration_space (n1 + n2) k
  = iteration_space n1 k
    ++ ((fun it : Z * Z => (n1 + fst it, snd it)) <$> iteration_space n2 k).
Proof.
  intros Hn1 Hn2. unfold iteration_space.
  rewrite seqZ_app, bind_app by done. f_equal.
  rewrite <- rows_shift, fmap_add_seqZ. by rewrite Z.add_0_l, Z.add_0_r.
Qed.

Lemma insert_body_app_l (ws1 ws2 : list string) (m : Z) (a : list Z)
    (it : Z * Z) :
  0 <= fst it < Z.of_nat (length ws1) ->
  insert_body (ws1 ++ ws2) m a it = insert_body ws1 m a it.
Proof.
  intros Hi. unfold insert_body, insert_write.
  by rewrite lookup_app_l by lia.
Qed.

Lemma insert_body_app_r (ws1 ws2 : list string) (m : Z) (a : list Z)
    (it : Z * Z) :
  0 <= fst it ->
  insert_body (ws1 ++ ws2) m a (Z.of_nat (length ws1) + fst it, snd it)
  = insert_body ws2 m a it.
Proof.
  intros Hi. unfold insert_body, insert_write. simpl.
  rewrite lookup_app_r by lia. do 3 f_equal. lia.
Qed.

(** X3.  Inserting a list of words in one call is inserting a first part of
    it and then the rest into the array that the first call leaves, a fault
    of either call included. *)
Theorem insertWords_app (ws1 ws2 : list string) (bitArray : list Z) (m k : Z) :
  insertWords (ws1 ++ ws2) (Z.of_nat (length (ws1 ++ ws2))) bitArray m k
  = (partly ← insertWords ws1 (Z.of_nat (length ws1)) bitArray m k;
     insertWords ws2 (Z.of_nat (length ws2)) partly m k).
Proof.
  unfold insertWords, insertWords_in_order.
  rewrite length_app, Nat2Z.inj_add, iteration_space_app, foldM_app by lia.
  rewrite (foldM_ext (insert_body (ws1 ++ ws2) m) (insert_body ws1 m)).
  - destruct (foldM (insert_body ws1 m) bitArray _) as [partly|]; simpl; [|done].
    rewrite foldM_fmap. apply foldM_ext.
    intros a [i h] [Hi _]%elem_of_iteration_space.
    apply insert_body_app_r. simpl. lia.
  - intros a [i h] [Hi _]%elem_of_iteration_space.
    by apply insert_body_app_l.
Qed.

(** ** What a filter filled from zero answers *)

Section Fresh.
Context (ppWordListArray : list string) (m : Z).

(** A cell whose value a run changed was stored to by an iteration of the
    run. *)
Lemma insertWords_in_order_changed (order : list (Z * Z)) (a a' : list Z)
    (j : nat) (x y : Z) :
  insertWords_in_order ppWordListArray a m order = Some a' ->
  a !! j = Some x -> a' !! j = Some y -> y <> x ->
  exists it idx,
    it ∈ order /\ insert_write ppWordListArray m it = Some (idx, 1) /\
    0 <= idx /\ Z.to_nat idx = j.
Proof.
  unfold insertWords_in_order.
  revert a; induction order as [|it order IH]; intros a Hrun Hx Hy Hne;
    simpl in Hrun.
  - injection Hrun as ->. congruence.
  - destruct (insert_body _ _ a it) as [a1|] eqn:Hbody; simpl in Hrun; [|done].
    unfold insert_body in Hbody.
    destruct (insert_write _ _ it) as [[idx v]|] eqn:Hw; simpl in Hbody; [|done].
    pose proof (insert_write_value _ _ _ _ Hw) as Hv; simpl in Hv; subst v.
    apply store_Some in Hbody as [Hidx ->].
    destruct (decide (Z.to_nat idx = j)) as [Heq|Hneq].
    + exists it, idx. split; [apply list_elem_of_here|]. split; [done|]. lia.
    + rewrite <- (list_lookup_insert_ne a _ _ 1 Hneq) in Hx.
      destruct (IH _ Hrun Hx Hy Hne) as (it' & idx' & Hin & Hrest).
      exists it', idx'. split; [by apply list_elem_of_further | done].
Qed.
End Fresh.

(** X4.  What a filter built from an all-zero array answers: after the
    insertion of a list of words into [m >= 1] zero cells, [lookUp] returns 1
    for a word exactly when each of its [k] hash indices is also the hash
    index of an inserted word under some salt.  A false positive is a word
    all of whose indices collide in this way. *)
Theorem fresh_filter_positives (words : list string) (word : string) (m k : Z) :
  1 <= m <= INT_MAX ->
  exists filled,
    insertWords words (Z.of_nat (length words)) (replicate (Z.to_nat m) 0) m k
    = Some filled /\
    (lookUp word filled m k = Some 1 <->
     forall h, 0 <= h < k ->
       exists j : nat,
         APHashWithSalt word (to_uint h) m = Some (Z.of_nat j) /\
         is_hash_index words m k j).
Proof.
  intros Hm.
  assert (Hlen : Z.of_nat (length (replicate (Z.to_nat m) 0)) = m)
    by (rewrite length_replicate; lia).
  destruct (insertWords_in_order_total words (Z.of_nat (length words)) m k Hm
              eq_refl (iteration_space (Z.of_nat (length words)) k) _ Hlen)
    as (filled & Hrun & Hfilled); [done|].
  exists filled. split; [done|].
  assert (Hshape : filter_shape filled m) by done.
  rewrite lookUp_1_iff. split; intros H h Hh; specialize (H h Hh).
  - apply (bit_at_index word filled m h Hshape) in H
      as (idx & Hhash & v & Hcell & Hv).
    pose proof (APHashWithSalt_range _ _ _ _ Hm Hhash) as Hidx.
    exists (Z.to_nat idx). rewrite Z2Nat.id by lia. split; [done|].
    assert (Hzero : replicate (Z.to_nat m) 0 !! Z.to_nat idx = Some 0)
      by (apply lookup_replicate_2; lia).
    destruct (insertWords_in_order_changed words m _ _ _ _ _ _ Hrun Hzero Hcell Hv)
      as (it & idx' & Hit & Hw & Hidx' & Heq).
    apply is_hash_index_iteration. exists it. split; [done|].
    rewrite Hw. do 2 f_equal. lia.
  - destruct H as (j & Hhash & (it & Hit & Hw)%is_hash_index_iteration).
    apply (bit_at_index word filled m h Hshape).
    exists (Z.of_nat j). split; [done|].
    pose proof (insertWords_in_order_written words m _ _ _ _ _ _ Hrun Hit Hw)
      as Hload.
    apply load_Some in Hload as [_ Hcell]. exists 1. by rewrite Hcell.
Qed.

Lemma fresh_filter_positives_witness :
  1 <= 10 <= INT_MAX /\
  exists filled,
    insertWords ["cat"; "dog"]%string 2 (replicate (Z.to_nat 10) 0) 10 3
    = Some filled /\
    (lookUp "fish" filled 10 3 = Some 1 <->
     forall h, 0 <= h < 3 ->
       exists j : nat,
         APHashWithSalt "fish" (to_uint h) 10 = Some (Z.of_nat j) /\
         is_hash_index ["cat"; "dog"]%string 10 3 j).
Proof.
  assert (Hm : 1 <= 10 <= INT_MAX) by (unfold INT_MAX; lia).
  split; [exact Hm|].
  exact (fresh_filter_positives ["cat"; "dog"]%string "fish" 10 3 Hm).
Defined.

(** X5.  The two extreme arrays.  With at least one hash function, [lookUp]
    returns 0 for every word on an array of [m >= 1] zero cells; and on an
    array of [m >= 1] cells none of which is 0 it returns 1 for every
    word. *)
Theorem lookUp_extremes (word : string) (bitArray : list Z) (m k : Z) :
  filter_shape bitArray m ->
  (1 <= k -> Forall (fun cell => cell = 0) bitArray ->
   lookUp word bitArray m k = Some 0) /\
  (Forall (fun cell => cell <> 0) bitArray ->
   lookUp word bitArray m k = Some 1).
Proof.
  intros Hshape. split.
  - intros Hk Hzero.
    destruct (lookUp_total word bitArray m k Hshape) as (r & Hr & [->| ->]);
      [done|].
    exfalso.
    pose proof (proj1 (lookUp_1_iff word bitArray m k) Hr 0 ltac:(lia)) as Hset.
    destruct (bit_at_in_bounds word bitArray m 0 Hshape)
      as (cell & Hbit & Hcell & _).
    rewrite Hbit in Hset. destruct Hset as (v & [= <-] & Hv).
    rewrite Forall_forall in Hzero. apply Hv, Hzero.
    by eapply list_elem_of_lookup_2.
  - intros Hset. apply lookUp_1_iff. intros h Hh.
    destruct (bit_at_in_bounds word bitArray m h Hshape)
      as (cell & Hbit & Hcell & _).
    rewrite Hbit. exists cell. split; [done|].
    rewrite Forall_forall in Hset. apply Hset.
    by eapply list_elem_of_lookup_2.
Qed.

Lemma lookUp_extremes_witness :
  filter_shape (replicate 10 0) 10 /\
  (1 <= 3 -> Forall (fun cell => cell = 0) (replicate 10 0) ->
   lookUp "cat" (replicate 10 0) 10 3 = Some 0) /\
  (Forall (fun cell => cell <> 0) (replicate 10 0) ->
   lookUp "cat" (replicate 10 0) 10 3 = Some 1).
Proof.
  assert (Hshape : filter_shape (replicate 10 0) 10)
    by (split; [unfold INT_MAX; lia | reflexivity]).
  split; [exact Hshape|].
  exact (lookUp_extremes "cat" (replicate 10 0) 10 3 Hshape).
Defined.

(** X6.  Fewer hash functions never lose a positive: if [lookUp] returns 1
    with hash count [k], it returns 1 with every smaller hash count on the
    same array. *)
Theorem lookUp_fewer_salts (word : string) (bitArray : list Z) (m k k' : Z) :
  lookUp word bitArray m k = Some 1 -> k' <= k ->
  lookUp word bitArray m k' = Some 1.
Proof.
  rewrite !lookUp_1_iff. intros H Hk h Hh. apply H. lia.
Qed.

Lemma lookUp_fewer_salts_witness :
  lookUp "cat" [1; 1; 0; 1; 1; 0; 0; 0; 0; 1] 10 3 = Some 1 /\ 2 <= 3 /\
  lookUp "cat" [1; 1; 0; 1; 1; 0; 0; 0; 0; 1] 10 2 = Some 1.
Proof.
  assert (H3 : lookUp "cat" [1; 1; 0; 1; 1; 0; 0; 0; 0; 1] 10 3 = Some 1)
    by reflexivity.
  assert (Hk : 2 <= 3) by lia.
  split; [exact H3|]. split; [exact Hk|].
  exact (lookUp_fewer_salts "cat" [1; 1; 0; 1; 1; 0; 0; 0; 0; 1] 10 3 2 H3 Hk).
Defined.

(** ** Invariants of the counters *)

Section CounterBounds.
Import EvalSpec.
Context (lookup : string -> option Z).

Lemma count_nonneg (P : query_record -> bool) (qs : list query_record) :
  0 <= count P qs.
Proof. unfold count. lia. Qed.

Lemma count_le (P Q : query_record -> bool) (qs : list query_record) :
  (forall q, P q = true -> Q q = true) -> count P qs <= count Q qs.
Proof.
  intros HPQ. induction qs as [|q qs IH]; [done|].
  rewrite !count_cons. specialize (HPQ q).
  destruct (P q), (Q q); first [lia | by specialize (HPQ eq_refl)].
Qed.

Lemma count_none (P : query_record -> bool) (qs : list query_record) :
  (forall q, q ∈ qs -> P q = false) -> count P qs = 0.
Proof.
  induction qs as [|q qs IH]; intros Hnone; [done|].
  rewrite count_cons, (Hnone q) by apply list_elem_of_here.
  rewrite IH; [done|]. intros q' Hq'. apply Hnone. by apply list_elem_of_further.
Qed.

Lemma count_classes (qs : list query_record) :
  count is_positive qs + count is_negative qs <= Z.of_nat (length qs).
Proof.
  induction qs as [|q qs IH]; [done|].
  rewrite !count_cons. simpl length.
  assert (Hq : (if is_positive q then 1 else 0)
               + (if is_negative q then 1 else 0) <= 1).
  { unfold is_positive, is_negative.
    destruct (Z.eqb_spec (snd q) 1), (Z.eqb_spec (snd q) 0); lia. }
  lia.
Qed.

Lemma tally_bounds (qs : list query_record) :
  0 <= fNegative (tally lookup qs) <= totalPositive (tally lookup qs) /\
  0 <= fPositive (tally lookup qs) <= totalNegative (tally lookup qs) /\
  totalPositive (tally lookup qs) + totalNegative (tally lookup qs)
  <= Z.of_nat (length qs).
Proof.
  unfold tally. simpl. split; [|split].
  - split; [apply count_nonneg|]. apply count_le.
    unfold is_false_negative. by intros q [? _]%andb_true_iff.
  - split; [apply count_nonneg|]. apply count_le.
    unfold is_false_positive. by intros q [? _]%andb_true_iff.
  - apply count_classes.
Qed.
End CounterBounds.

Lemma percentage_sound (count total : Z) :
  0 <= count <= total -> sound_percentage total (percentage count total).
Proof.
  intros [Hlo Hhi]. unfold percentage, sound_percentage.
  destruct (Z.eqb_spec total 0) as [->|Hne].
  - destruct (Z.eqb_spec count 0); [done | lia].
  - split; [done|].
    assert (Ht : (0 < IZR total)%R) by (apply IZR_lt; lia).
    apply IZR_le in Hlo, Hhi.
    assert (Hx : (IZR count / IZR total * IZR total = IZR count)%R)
      by (field; lra).
    set (x := (IZR count / IZR total)%R) in *.
    split; nra.
Qed.

(** The report of [testBloomWithQueries] for the records of a query file. *)
Lemma testBloomWithQueries_tally (queries : list (string * Z))
    (bitArray : list Z) (m k : Z) :
  filter_shape bitArray m ->
  testBloomWithQueries bitArray queries.*1 queries.*2
    (Z.of_nat (length queries)) m k
  = Some (let c := EvalSpec.tally (fun word => lookUp word bitArray m k) queries
          in Report c (percentage (fNegative c) (totalPositive c))
                      (percentage (fPositive c) (totalNegative c))).
Proof.
  intros Hshape. unfold testBloomWithQueries.
  rewrite (count_in_order_tally bitArray queries m k Hshape)
    by (apply Forall_seqZ; lia).
  by rewrite queries_at_all.
Qed.

(** X7.  The counters and the percentages of an evaluation are consistent.
    On a bit array of [m >= 1] cells [testBloomWithQueries] returns, with
    [0 <= fNegative <= totalPositive], [0 <= fPositive <= totalNegative] and
    [totalPositive + totalNegative <= length] (records whose bit is neither 0
    nor 1 are in no class).  Each percentage is not a number when its class
    is empty and lies between 0 and 100 otherwise; no infinity is printed. *)
Theorem evaluation_report_bounds (queries : list (string * Z))
    (bitArray : list Z) (m k : Z) :
  filter_shape bitArray m ->
  exists r,
    testBloomWithQueries bitArray queries.*1 queries.*2
      (Z.of_nat (length queries)) m k = Some r /\
    0 <= fNegative (counts r) <= totalPositive (counts r) /\
    0 <= fPositive (counts r) <= totalNegative (counts r) /\
    totalPositive (counts r) + totalNegative (counts r)
    <= Z.of_nat (length queries) /\
    sound_percentage (totalPositive (counts r)) (falseNegativePercentage r) /\
    sound_percentage (totalNegative (counts r)) (falsePositivePercentage r).
Proof.
  intros Hshape. eexists. split; [by apply testBloomWithQueries_tally|].
  cbv zeta. cbn [counts falseNegativePercentage falsePositivePercentage].
  pose proof (tally_bounds (fun word => lookUp word bitArray m k) queries)
    as (Hfn & Hfp & Hsum).
  repeat split; try apply Hfn; try apply Hfp; try done;
    by apply percentage_sound.
Qed.

Lemma evaluation_report_bounds_witness :
  filter_shape [1; 1; 0; 1; 1; 0; 0; 0; 0; 1] 10 /\
  exists r,
    testBloomWithQueries [1; 1; 0; 1; 1; 0; 0; 0; 0; 1]
      ["cat"; "fish"; "dog"]%string [1; 5; 1] 3 10 3 = Some r /\
    0 <= fNegative (counts r) <= totalPositive (counts r) /\
    0 <= fPositive (counts r) <= totalNegative (counts r) /\
    totalPositive (counts r) + totalNegative (counts r) <= 3 /\
    sound_percentage (totalPositive (counts r)) (falseNegativePercentage r) /\
    sound_percentage (totalNegative (counts r)) (falsePositivePercentage r).
Proof.
  assert (Hshape : filter_shape [1; 1; 0; 1; 1; 0; 0; 0; 0; 1] 10)
    by (split; [unfold INT_MAX; lia | reflexivity]).
  split; [exact Hshape|].
  exact (evaluation_report_bounds
           [("cat", 1); ("fish", 5); ("dog", 1)]%string
           [1; 1; 0; 1; 1; 0; 0; 0; 0; 1] 10 3 Hshape).
Defined.

(** ** Insertion followed by evaluation *)

(** After a run of all the iterations every word of the list is found. *)
Lemma inserted_word_found (words : list string) (bitArray filled : list Z)
    (m k : Z) (word : string) :
  filter_shape bitArray m ->
  insertWords words (Z.of_nat (length words)) bitArray m k = Some filled ->
  word ∈ words -> lookUp word filled m k = Some 1.
Proof.
  intros [Hm Hlen] Hrun [i Hi]%list_elem_of_lookup_1.
  apply lookUp_1_iff. intros h Hh.
  assert (Hit : (Z.of_nat i, h) ∈ iteration_space (Z.of_nat (length words)) k).
  { apply elem_of_iteration_space. apply lookup_lt_Some in Hi. lia. }
  destruct (insert_write_in_space words _ m k Hm eq_refl _ Hit)
    as (word' & Hword' & Hw & Hidx).
  simpl in Hword', Hw, Hidx. rewrite Nat2Z.id, Hi in Hword'.
  injection Hword' as <-.
  pose proof (insertWords_in_order_written words m _ _ _ _ _ _ Hrun Hit Hw)
    as Hload.
  unfold bit_at. rewrite APHashWithSalt_modulus by done. simpl.
  rewrite to_int_small by lia. rewrite Hload. by exists 1.
Qed.

Lemma insertWords_shape (words : list string) (bitArray : list Z) (m k : Z) :
  filter_shape bitArray m ->
  exists filled,
    insertWords words (Z.of_nat (length words)) bitArray m k = Some filled /\
    filter_shape filled m.
Proof.
  intros [Hm Hlen].
  destruct (insertWords_in_order_total words (Z.of_nat (length words)) m k Hm
              eq_refl (iteration_space (Z.of_nat (length words)) k) bitArray Hlen)
    as (filled & Hrun & Hfilled); [done|].
  by exists filled.
Qed.

Lemma no_false_negative_counted (words : list string) (filled : list Z)
    (m k : Z) (queries : list (string * Z)) :
  (forall word, word ∈ words -> lookUp word filled m k = Some 1) ->
  (forall q, q ∈ queries -> snd q = 1 -> fst q ∈ words) ->
  fNegative (EvalSpec.tally (fun word => lookUp word filled m k) queries) = 0.
Proof.
  intros Hfound Hpos. unfold EvalSpec.tally. simpl.
  apply count_none. intros q Hq.
  unfold EvalSpec.is_false_negative, EvalSpec.is_positive, EvalSpec.lookup_is.
  destruct (Z.eqb_spec (snd q) 1) as [H1|]; [|done].
  by rewrite (Hfound _ (Hpos q Hq H1)).
Qed.

(** X8.  An evaluation that follows the insertion counts no false negative:
    on a bit array of [m >= 1] cells, whatever it held, if every query
    record with ground truth 1 names an inserted word, then after
    [insertWords] the counter [fNegative] of [testBloomWithQueries] is 0. *)
Theorem evaluation_no_false_negatives (words : list string)
    (queries : list (string * Z)) (bitArray : list Z) (m k : Z) :
  filter_shape bitArray m ->
  (forall q, q ∈ queries -> snd q = 1 -> fst q ∈ words) ->
  exists filled r,
    insertWords words (Z.of_nat (length words)) bitArray m k = Some filled /\
    testBloomWithQueries filled queries.*1 queries.*2
      (Z.of_nat (length queries)) m k = Some r /\
    fNegative (counts r) = 0.
Proof.
  intros Hshape Hpos.
  destruct (insertWords_shape words bitArray m k Hshape)
    as (filled & Hrun & Hfilled).
  exists filled. eexists. split; [done|].
  split; [by apply testBloomWithQueries_tally|].
  cbv zeta. cbn [counts]. apply (no_false_negative_counted words); [|done].
  intros word Hword.
  exact (inserted_word_found words bitArray filled m k word Hshape Hrun Hword).
Qed.

Lemma evaluation_no_false_negatives_witness :
  filter_shape (replicate 10 7) 10 /\
  (forall q, q ∈ [("cat", 1); ("fish", 0)]%string -> snd q = 1 ->
             fst q ∈ ["cat"; "dog"]%string) /\
  exists filled r,
    insertWords ["cat"; "dog"]%string 2 (replicate 10 7) 10 3 = Some filled /\
    testBloomWithQueries filled ["cat"; "fish"]%string [1; 0] 2 10 3 = Some r /\
    fNegative (counts r) = 0.
Proof.
  assert (Hshape : filter_shape (replicate 10 7) 10)
    by (split; [unfold INT_MAX; lia | reflexivity]).
  assert (Hpos : forall q, q ∈ [("cat", 1); ("fish", 0)]%string -> snd q = 1 ->
                           fst q ∈ ["cat"; "dog"]%string).
  { intros q Hq H1. apply elem_of_cons in Hq as [->|Hq].
    - apply list_elem_of_here.
    - apply list_elem_of_singleton in Hq as ->. simpl in H1. lia. }
  split; [exact Hshape|]. split; [exact Hpos|].
  exact (evaluation_no_false_negatives ["cat"; "dog"]%string
           [("cat", 1); ("fish", 0)]%string (replicate 10 7) 10 3 Hshape Hpos).
Defined.

(** ** The sizes that [main] computes *)

Lemma array_size_0 : calculateOptimalArraySize 0 = Some 0.
Proof. by vm_compute. Qed.

(** X9.  The sizing of [main] for [n] words, [1 <= n <= 224044921]: the
    number of cells lies between [9 n] and [10 n], so it is a positive
    [int], and the hash count is 6.  A hash count of 0 does not arise in
    [main]. *)
Theorem main_sizing_range (n : Z) :
  1 <= n <= 224044921 ->
  exists m,
    main_sizing n = Some (m, 6) /\ 9 * n <= m <= 10 * n /\ 1 <= m <= INT_MAX.
Proof.
  intros Hn.
  destruct (array_size_bounds n Hn) as (m & Hm & Hbounds & Hmax).
  exists m. split; [|split; [exact Hbounds | lia]].
  unfold main_sizing. rewrite Hm. cbn [mbind option_bind].
  by destruct (hash_count_6 n m ltac:(lia) Hbounds) as [-> _].
Qed.

Lemma main_sizing_range_witness :
  1 <= 22872991 <= 224044921 /\
  exists m,
    main_sizing 22872991 = Some (m, 6) /\
    9 * 22872991 <= m <= 10 * 22872991 /\ 1 <= m <= INT_MAX.
Proof.
  assert (Hn : 1 <= 22872991 <= 224044921) by lia.
  split; [exact Hn|]. exact (main_sizing_range 22872991 Hn).
Defined.

(** X10.  [calculateOptimalArraySize] returns 0 for 0 elements and is
    strictly increasing: for [0 <= n < n' <= 224044921] both sizes are
    computed and the size for [n] is less than the size for [n']. *)
Theorem calculateOptimalArraySize_monotone (n n' : Z) :
  0 <= n < n' -> n' <= 224044921 ->
  calculateOptimalArraySize 0 = Some 0 /\
  exists m m',
    calculateOptimalArraySize n = Some m /\
    calculateOptimalArraySize n' = Some m' /\ m < m'.
Proof.
  intros Hn Hn'. split; [exact array_size_0|].
  destruct (array_size_estimate n' ltac:(lia)) as (m' & Hm' & Hest').
  destruct (Z.eq_dec n 0) as [->|Hne].
  - exists 0, m'. rewrite array_size_0. split; [done|]. split; [done|]. lia.
  - destruct (array_size_estimate n ltac:(lia)) as (m & Hm & Hest).
    exists m, m'. split; [done|]. split; [done|]. lia.
Qed.

Lemma calculateOptimalArraySize_monotone_witness :
  0 <= 22872990 < 22872991 /\ 22872991 <= 224044921 /\
  calculateOptimalArraySize 0 = Some 0 /\
  exists m m',
    calculateOptimalArraySize 22872990 = Some m /\
    calculateOptimalArraySize 22872991 = Some m' /\ m < m'.
Proof.
  assert (Hn : 0 <= 22872990 < 22872991) by lia.
  assert (Hn' : 22872991 <= 224044921) by lia.
  split; [exact Hn|]. split; [exact Hn'|].
  exact (calculateOptimalArraySize_monotone 22872990 22872991 Hn Hn').
Defined.

(** X25.  The word counts for which the sizing of [main] is defined.  For
    a count that is an [int], [0 <= n <= INT_MAX], the sizing gives a size
    and a hash count exactly when [1 <= n <= 224044921]: for no word it
    divides by zero, and from 224044922 words on the size is not an
    [int]. *)
Theorem main_sizing_defined (n : Z) :
  0 <= n <= INT_MAX ->
  (is_Some (main_sizing n) <-> 1 <= n <= 224044921) /\
  (224044922 <= n -> calculateOptimalArraySize n = None).
Proof.
  intros Hn. split; [split|].
  - intros [[m k] Hsizing].
    destruct (Z.eq_dec n 0) as [->|Hne].
    { unfold main_sizing in Hsizing.
      by destruct (calculateOptimalArraySize 0). }
    destruct (Z.le_gt_cases n 224044921) as [Hle|Hgt]; [lia|].
    unfold main_sizing in Hsizing.
    by rewrite array_size_overflow in Hsizing by lia.
  - intros Hrange.
    destruct (array_size_bounds n Hrange) as (m & Hm & Hbounds & _).
    exists (m, 6). unfold main_sizing. rewrite Hm. cbn [mbind option_bind].
    by destruct (hash_count_6 n m ltac:(lia) Hbounds) as [-> _].
  - intros Hbig. apply array_size_overflow. lia.
Qed.

Lemma main_sizing_defined_witness :
  0 <= 224044922 <= INT_MAX /\
  (is_Some (main_sizing 224044922) <-> 1 <= 224044922 <= 224044921) /\
  (224044922 <= 224044922 -> calculateOptimalArraySize 224044922 = None).
Proof.
  assert (Hn : 0 <= 224044922 <= INT_MAX) by (unfold INT_MAX; lia).
  split; [exact Hn|]. exact (main_sizing_defined 224044922 Hn).
Defined.

(** ** The run of [main] *)

(** The sizing of [main] gives a positive [int] and 6 hash functions. *)
Lemma main_sizing_shape (n : Z) :
  1 <= n <= 224044921 ->
  exists m, main_sizing n = Some (m, 6) /\ 1 <= m <= INT_MAX.
Proof.
  intros Hn.
  destruct (array_size_bounds n Hn) as (m & Hm & Hbounds & Hmax).
  exists m. split; [|lia].
  unfold main_sizing. rewrite Hm. cbn [mbind option_bind].
  by destruct (hash_count_6 n m ltac:(lia) Hbounds) as [-> _].
Qed.

(** The run of [main] after its sizing. *)
Lemma main_run_after_sizing (words queries : list string) (bits cells : list Z)
    (m k : Z) :
  main_sizing (Z.of_nat (length words)) = Some (m, k) ->
  main_run words queries bits cells
  = (filled ← insertWords words (Z.of_nat (length words)) cells m k;
     testBloomWithQueries filled queries bits (Z.of_nat (length queries)) m k).
Proof. intros Hsizing. unfold main_run. by rewrite Hsizing. Qed.

(** X11.  The run of [main] from the sizing on, for [n] words,
    [1 <= n <= 224044921]: on every block of [m] cells that [malloc] may
    return, whatever the block holds, the run ends with a report; the
    counters of the report are consistent; and if every query record with
    ground truth 1 names an inserted word, no false negative is counted. *)
Theorem main_run_sound (words : list string) (queries : list (string * Z)) :
  1 <= Z.of_nat (length words) <= 224044921 ->
  exists m,
    main_sizing (Z.of_nat (length words)) = Some (m, 6) /\
    forall bitArray, malloc_int_array m bitArray ->
      exists r,
        main_run words queries.*1 queries.*2 bitArray = Some r /\
        0 <= fNegative (counts r) <= totalPositive (counts r) /\
        0 <= fPositive (counts r) <= totalNegative (counts r) /\
        sound_percentage (totalPositive (counts r)) (falseNegativePercentage r) /\
        sound_percentage (totalNegative (counts r)) (falsePositivePercentage r) /\
        ((forall q, q ∈ queries -> snd q = 1 -> fst q ∈ words) ->
         fNegative (counts r) = 0).
Proof.
  intros Hn.
  destruct (main_sizing_shape _ Hn) as (m & Hsizing & Hm).
  exists m. split; [exact Hsizing|].
  intros bitArray [cells Hcells].
  assert (Hshape : filter_shape cells m) by done.
  destruct (insertWords_shape words cells m 6 Hshape)
    as (filled & Hrun & Hfilled).
  rewrite (main_run_after_sizing _ _ _ _ _ _ Hsizing), Hrun.
  cbn [mbind option_bind].
  rewrite length_fmap, (testBloomWithQueries_tally queries filled m 6 Hfilled).
  eexists. split; [done|].
  cbv zeta. cbn [counts falseNegativePercentage falsePositivePercentage].
  pose proof (tally_bounds (fun word => lookUp word filled m 6) queries)
    as (Hfn & Hfp & _).
  split; [exact Hfn|]. split; [exact Hfp|].
  split; [by apply percentage_sound|]. split; [by apply percentage_sound|].
  intros Hpos. apply (no_false_negative_counted words); [|done].
  intros word Hword.
  exact (inserted_word_found words cells filled m 6 word Hshape Hrun Hword).
Qed.

Lemma main_run_sound_witness :
  1 <= Z.of_nat (length ["cat"; "dog"]%string) <= 224044921 /\
  exists m,
    main_sizing (Z.of_nat (length ["cat"; "dog"]%string)) = Some (m, 6) /\
    forall bitArray, malloc_int_array m bitArray ->
      exists r,
        main_run ["cat"; "dog"]%string [("cat", 1); ("fish", 0)]%string.*1
          [("cat", 1); ("fish", 0)]%string.*2 bitArray = Some r /\
        0 <= fNegative (counts r) <= totalPositive (counts r) /\
        0 <= fPositive (counts r) <= totalNegative (counts r) /\
        sound_percentage (totalPositive (counts r)) (falseNegativePercentage r) /\
        sound_percentage (totalNegative (counts r)) (falsePositivePercentage r) /\
        ((forall q, q ∈ [("cat", 1); ("fish", 0)]%string -> snd q = 1 ->
                    fst q ∈ ["cat"; "dog"]%string) ->
         fNegative (counts r) = 0).
Proof.
  assert (Hn : 1 <= Z.of_nat (length ["cat"; "dog"]%string) <= 224044921)
    by (simpl; lia).
  split; [exact Hn|].
  exact (main_run_sound ["cat"; "dog"]%string [("cat", 1); ("fish", 0)]%string Hn).
Defined.

(** ** The hash of a concatenation *)

Lemma fold_left_mix_is_uint (l : list (Z * Z)) (acc : Z) :
  is_uint acc -> is_uint (fold_left HashSpec.mix l acc).
Proof.
  revert acc; induction l as [|pc l IH]; intros acc Hacc; simpl; [done|].
  apply IH, mix_is_uint.
Qed.

(** X12.  The accumulator of the hash stays a 32-bit unsigned value: from a
    salt in [0, 2^32) the loop of [APHashWithSalt] ends in [0, 2^32), for
    every string. *)
Theorem APHash_accumulator_32_bits (str : string) (salt : Z) :
  is_uint salt -> is_uint (APHash_loop str 0 salt).
Proof.
  intros Hsalt. rewrite APHash_loop_refines by (done || lia).
  by apply fold_left_mix_is_uint.
Qed.

Lemma APHash_accumulator_32_bits_witness :
  is_uint 2 /\ is_uint (APHash_loop "cat" 0 2).
Proof.
  assert (Hsalt : is_uint 2) by (unfold is_uint, UINT_MODULUS; lia).
  split; [exact Hsalt|]. exact (APHash_accumulator_32_bits "cat" 2 Hsalt).
Defined.

(** X13.  The hash reads a string from left to right and stops at the
    terminator.  For a first part without NUL the loop on a concatenation is
    the loop on the second part, started at the position and with the
    accumulator that the first part leaves; and what follows a NUL character
    does not change the result. *)
Theorem APHash_loop_append (s1 s2 : string) (i hash : Z) :
  no_nul s1 = true ->
  APHash_loop (s1 ++ s2) i hash
  = APHash_loop s2 (i + Z.of_nat (String.length s1)) (APHash_loop s1 i hash) /\
  APHash_loop (s1 ++ String "000" s2) i hash = APHash_loop s1 i hash.
Proof.
  revert i hash; induction s1 as [|c s1 IH]; intros i hash Hnul.
  - split; [simpl; f_equal; lia | done].
  - simpl in Hnul. apply andb_true_iff in Hnul as [Hc Hnul].
    apply negb_true_iff in Hc. simpl. rewrite Hc.
    destruct (IH (i + 1) (if Z.rem i 2 =? 1
       then Z.lxor hash
              (Z.lxor (Z.lxor (shl hash 7) (to_uint (char_to_int c)))
                 (shr hash 3))
       else Z.lxor hash
              (bnot (Z.lxor (Z.lxor (shl hash 11) (to_uint (char_to_int c)))
                       (shr hash 5)))) Hnul) as [-> ->].
    split; [f_equal; lia | done].
Qed.

Lemma APHash_loop_append_witness :
  no_nul "ca" = true /\
  APHash_loop ("ca" ++ "t") 0 1
  = APHash_loop "t" (0 + Z.of_nat (String.length "ca")) (APHash_loop "ca" 0 1) /\
  APHash_loop ("ca" ++ String "000" "t") 0 1 = APHash_loop "ca" 0 1.
Proof.
  assert (Hnul : no_nul "ca" = true) by reflexivity.
  split; [exact Hnul|]. exact (APHash_loop_append "ca" "t" 0 1 Hnul).
Defined.

(** ** Scanning a stream *)

Lemma outcome_bind_Returns {A B : Type} (f : A -> outcome B) (a : A) :
  (Returns a ≫= f) = f a.
Proof. reflexivity. Qed.

Lemma skip_spaces_length (s : string) :
  (String.length (skip_spaces s) <= String.length s)%nat.
Proof.
  induction s as [|c s IH]; simpl; [lia|].
  destruct (is_space c); simpl; lia.
Qed.

(** What [skip_spaces] leaves does not start with white space. *)
Lemma skip_spaces_head (s : string) :
  match skip_spaces s with
  | EmptyString => True
  | String c _ => is_space c = false
  end.
Proof.
  induction s as [|c s IH]; simpl; [done|].
  destruct (is_space c) eqn:Hc; [done|]. simpl. done.
Qed.

Lemma scan_token_length (s : string) :
  (String.length (fst (scan_token s)) + String.length (snd (scan_token s))
   = String.length s)%nat.
Proof.
  induction s as [|c s IH]; simpl; [done|].
  destruct (is_space c); simpl; [done|].
  destruct (scan_token s) as [token after]. simpl in *. lia.
Qed.

(** A call of [fscanf] that stores a word moves the stream forward. *)
Lemma scan_s_Matched (stream token rest : string) :
  scan_s stream = Matched token rest ->
  scan_token (skip_spaces stream) = (token, rest) /\
  token <> EmptyString /\
  fits_buffer token = true /\
  (String.length rest < String.length stream)%nat.
Proof.
  unfold scan_s, fits_buffer. intros H.
  pose proof (scan_token_length (skip_spaces stream)) as Hlen.
  pose proof (skip_spaces_length stream) as Hskip.
  destruct (scan_token (skip_spaces stream)) as [t r]. simpl in Hlen.
  destruct t as [|c t]; [done|].
  destruct (Z.leb_spec MAX_WORD_LENGTH (Z.of_nat (String.length (String c t))));
    [done|].
  injection H as <- <-. split; [done|]. split; [done|]. split.
  - by apply Z.ltb_lt.
  - simpl in Hlen. lia.
Qed.

(** ** The words of a text *)

Lemma append_cons (c : ascii) (s t : string) :
  (String c s ++ t)%string = String c (s ++ t).
Proof. reflexivity. Qed.

Lemma append_empty_l (t : string) : ("" ++ t)%string = t.
Proof. reflexivity. Qed.

Lemma append_empty_r (s : string) : (s ++ "")%string = s.
Proof.
  induction s as [|c s IH]; [done|]. by rewrite append_cons, IH.
Qed.

Lemma append_snoc (s t : string) (c : ascii) :
  ((s ++ String c "") ++ t)%string = (s ++ String c t)%string.
Proof.
  induction s as [|c' s IH]; [done|]. by rewrite !append_cons, IH.
Qed.

Lemma split_words_scan (s current : string) :
  split_words s current
  = match (current ++ fst (scan_token s))%string with
    | EmptyString => split_words (snd (scan_token s)) EmptyString
    | word => word :: split_words (snd (scan_token s)) EmptyString
    end.
Proof.
  revert current; induction s as [|c s IH]; intros current.
  - simpl. rewrite append_empty_r. by destruct current.
  - simpl. destruct (is_space c) eqn:Hc.
    + simpl. rewrite Hc, append_empty_r. by destruct current.
    + rewrite IH. destruct (scan_token s) as [token after]. simpl.
      by rewrite append_snoc.
Qed.

Lemma tokens_skip_spaces (s : string) : tokens (skip_spaces s) = tokens s.
Proof.
  unfold tokens. induction s as [|c s IH]; simpl; [done|].
  destruct (is_space c) eqn:Hc; [done|]. simpl. by rewrite Hc.
Qed.

(** The words of a text, one call of [fscanf] at a time. *)
Lemma tokens_unfold (s : string) :
  tokens s
  = match fst (scan_token (skip_spaces s)) with
    | EmptyString => []
    | token => token :: tokens (snd (scan_token (skip_spaces s)))
    end.
Proof.
  rewrite <- tokens_skip_spaces. unfold tokens at 1.
  rewrite split_words_scan. simpl.
  pose proof (skip_spaces_head s) as Hhead.
  destruct (skip_spaces s) as [|c s'] eqn:Hs; simpl; [done|].
  rewrite Hhead. by destruct (scan_token s').
Qed.

Lemma tokens_scan_s (stream : string) :
  match scan_s stream with
  | Matched token rest =>
      tokens stream = token :: tokens rest /\ fits_buffer token = true
  | NoMatch rest => tokens stream = [] /\ rest = EmptyString
  | Overrun =>
      exists token rest,
        tokens stream = token :: rest /\ fits_buffer token = false
  end.
Proof.
  rewrite (tokens_unfold stream). unfold scan_s, fits_buffer.
  pose proof (skip_spaces_head stream) as Hhead.
  destruct (skip_spaces stream) as [|c' s'] eqn:Hs; [done|].
  simpl scan_token. rewrite Hhead.
  destruct (scan_token s') as [t r]. cbn [fst snd].
  destruct (Z.leb_spec MAX_WORD_LENGTH (Z.of_nat (String.length (String c' t)))).
  - eexists _, _. split; [done|]. by apply Z.ltb_ge.
  - split; [done|]. by apply Z.ltb_lt.
Qed.

(** ** The two loops of [readWordsFromFile] *)

Lemma increment_Returns (len : Z) :
  len < INT_MAX -> increment len = Returns (len + 1).
Proof. intros H. unfold increment. by destruct (Z.ltb_spec len INT_MAX); [|lia]. Qed.

(** With fuel for one call per character and one more, the counting loop
    counts the words of the stream, and leaves the stream at its end. *)
Lemma count_words_loop_tokens (fuel : nat) (stream : string) (len : Z) :
  (String.length stream < fuel)%nat ->
  forallb fits_buffer (tokens stream) = true ->
  len + Z.of_nat (length (tokens stream)) <= INT_MAX ->
  count_words_loop fuel stream len
  = Returns (len + Z.of_nat (length (tokens stream)), EmptyString).
Proof.
  revert stream len; induction fuel as [|fuel IH]; intros stream len Hfuel Hfit Hmax;
    [lia|].
  simpl. pose proof (tokens_scan_s stream) as Htok.
  destruct (scan_s stream) as [token rest|rest|] eqn:Hscan.
  - destruct Htok as [Htok _]. rewrite Htok in Hfit, Hmax |- *.
    apply scan_s_Matched in Hscan as (_ & _ & _ & Hlen).
    simpl in Hfit. apply andb_true_iff in Hfit as [_ Hfit].
    simpl length in *.
    rewrite increment_Returns by lia. rewrite outcome_bind_Returns.
    rewrite IH by (done || lia). do 2 f_equal. lia.
  - destruct Htok as [-> ->]. simpl. do 2 f_equal. lia.
  - destruct Htok as (token & rest & Htok & Hno). rewrite Htok in Hfit.
    simpl in Hfit. by rewrite Hno in Hfit.
Qed.

(** A word that does not fit the buffer makes the counting loop write past
    it. *)
Lemma count_words_loop_overrun (fuel : nat) (stream : string) (len : Z) :
  (String.length stream < fuel)%nat ->
  forallb fits_buffer (tokens stream) = false ->
  count_words_loop fuel stream len = Undefined.
Proof.
  revert stream len; induction fuel as [|fuel IH]; intros stream len Hfuel Hfit;
    [lia|].
  simpl. pose proof (tokens_scan_s stream) as Htok.
  destruct (scan_s stream) as [token rest|rest|] eqn:Hscan.
  - destruct Htok as [Htok Hyes]. rewrite Htok in Hfit.
    apply scan_s_Matched in Hscan as (_ & _ & _ & Hlen).
    simpl in Hfit. rewrite Hyes in Hfit. simpl in Hfit.
    unfold increment. destruct (len <? INT_MAX); [|reflexivity].
    rewrite outcome_bind_Returns. apply IH; [lia | done].
  - destruct Htok as [Htok _]. by rewrite Htok in Hfit.
  - done.
Qed.

Lemma copies_app (copied : nat -> bool) (i : nat) (ws1 ws2 : list string) :
  copies copied i (ws1 ++ ws2)
  = copies copied i ws1 ++ copies copied (i + length ws1) ws2.
Proof.
  revert i; induction ws1 as [|w ws1 IH]; intros i; simpl.
  - by rewrite Nat.add_0_r.
  - rewrite IH. do 3 f_equal. lia.
Qed.

Lemma length_copies (copied : nat -> bool) (i : nat) (ws : list string) :
  length (copies copied i ws) = length ws.
Proof. revert i; induction ws as [|w ws IH]; intros i; simpl; [done|]. by rewrite IH. Qed.

(** When every call of [strdup] returns a copy, no entry is [NULL]. *)
Lemma copies_all (copied : nat -> bool) (i : nat) (ws : list string) :
  (forall j, (i <= j < i + length ws)%nat -> copied j = true) ->
  copies copied i ws = Some <$> (strdup <$> ws).
Proof.
  revert i; induction ws as [|w ws IH]; intros i Hall; simpl; [done|].
  unfold strdup_at. rewrite (Hall i) by (simpl; lia).
  rewrite IH; [done|]. intros j Hj. apply Hall. simpl. lia.
Qed.

(** The reading loop stores the first words of the stream, as [strdup]
    copies them. *)
Lemma read_words_loop_tokens (copied : nat -> bool) (n : nat)
    (stream : string) (acc : list (option string)) :
  forallb fits_buffer (tokens stream) = true ->
  (n <= length (tokens stream))%nat ->
  read_words_loop copied n stream acc
  = Returns (Some (acc ++ copies copied (length acc)
                            (take n (tokens stream)))).
Proof.
  revert stream acc; induction n as [|n IH]; intros stream acc Hfit Hn.
  - simpl. by rewrite app_nil_r.
  - simpl. pose proof (tokens_scan_s stream) as Htok.
    destruct (scan_s stream) as [token rest|rest|] eqn:Hscan.
    + destruct Htok as [Htok _]. rewrite Htok in Hfit, Hn |- *.
      simpl in Hfit. apply andb_true_iff in Hfit as [_ Hfit].
      simpl in Hn. rewrite IH by (done || lia).
      simpl. rewrite <- app_assoc, length_app. simpl.
      by rewrite Nat.add_1_r.
    + destruct Htok as [Htok _]. rewrite Htok in Hn. simpl in Hn. lia.
    + destruct Htok as (token & rest & Htok & Hno). rewrite Htok in Hfit.
      simpl in Hfit. by rewrite Hno in Hfit.
Qed.

(** At the end of the stream the reading loop takes its error exit at
    once. *)
Lemma read_words_loop_at_end (copied : nat -> bool) (n : nat)
    (acc : list (option string)) :
  read_words_loop copied (S n) EmptyString acc = Returns None.
Proof. reflexivity. Qed.

Lemma readWordsFromFile_allocated (content : string) (copied : nat -> bool) :
  forallb fits_buffer (tokens content) = true ->
  Z.of_nat (length (tokens content)) <= INT_MAX ->
  readWordsFromFile (Some (File content true)) true copied
  = Returns (Some (copies copied 0 (tokens content),
                   Z.of_nat (length (tokens content)))).
Proof.
  intros Hfit Hmax. unfold readWordsFromFile, rewound. cbn [contents seekable].
  rewrite count_words_loop_tokens by (done || lia).
  rewrite Z.add_0_l, !outcome_bind_Returns, Nat2Z.id.
  rewrite read_words_loop_tokens by (done || lia).
  rewrite outcome_bind_Returns. by rewrite firstn_all.
Qed.

(** X14.  What [readWordsFromFile] returns for a file none of whose words
    has 100 characters or more (and that has at most [INT_MAX] words).
    When the stream can be repositioned and the array is allocated, it
    returns the white-space separated words of the file in their order,
    each cut at its first NUL, with [NULL] for a copy that [strdup] cannot
    allocate, and stores their number in [*wordListLength].  When [fseek]
    fails, the second loop starts at the end of the file: the call prints
    its error and returns [NULL], unless the file has no word.  It returns
    [NULL] also when the array cannot be allocated and when the file cannot
    be opened. *)
Theorem readWordsFromFile_tokens (content : string) (copied : nat -> bool) :
  forallb fits_buffer (tokens content) = true ->
  Z.of_nat (length (tokens content)) <= INT_MAX ->
  readWordsFromFile (Some (File content true)) true copied
  = Returns (Some (copies copied 0 (tokens content),
                   Z.of_nat (length (tokens content)))) /\
  readWordsFromFile (Some (File content false)) true copied
  = Returns (match tokens content with
             | [] => Some ([], 0)
             | _ :: _ => None
             end) /\
  (forall rewinds,
     readWordsFromFile (Some (File content rewinds)) false copied
     = Returns None) /\
  (forall allocated, readWordsFromFile None allocated copied = Returns None).
Proof.
  intros Hfit Hmax. split; [by apply readWordsFromFile_allocated|].
  split; [|split; [|done]].
  - unfold readWordsFromFile, rewound. cbn [contents seekable].
    rewrite count_words_loop_tokens by (done || lia).
    rewrite Z.add_0_l, !outcome_bind_Returns, Nat2Z.id.
    by destruct (tokens content).
  - intros rewinds. unfold readWordsFromFile. cbn [contents].
    rewrite count_words_loop_tokens by (done || lia).
    by rewrite outcome_bind_Returns.
Qed.

Lemma readWordsFromFile_tokens_witness :
  forallb fits_buffer (tokens (" cat  dog" +:+ String "010" "bird")) = true /\
  Z.of_nat (length (tokens (" cat  dog" +:+ String "010" "bird"))) <= INT_MAX /\
  readWordsFromFile (Some (File (" cat  dog" +:+ String "010" "bird") true))
    true (fun i => negb (i =? 1)%nat)
  = Returns (Some ([Some "cat"; None; Some "bird"]%string, 3)) /\
  readWordsFromFile (Some (File (" cat  dog" +:+ String "010" "bird") false))
    true (fun i => negb (i =? 1)%nat)
  = Returns None.
Proof.
  assert (Hfit : forallb fits_buffer
                   (tokens (" cat  dog" +:+ String "010" "bird")) = true)
    by reflexivity.
  assert (Hmax : Z.of_nat (length (tokens (" cat  dog" +:+ String "010" "bird")))
                 <= INT_MAX) by (vm_compute; discriminate).
  split; [exact Hfit|]. split; [exact Hmax|].
  pose proof (readWordsFromFile_tokens
                (" cat  dog" +:+ String "010" "bird")
                (fun i => negb (i =? 1)%nat) Hfit Hmax) as (H1 & H2 & _).
  split; [exact H1 | exact H2].
Defined.

(** X15.  A word of 100 characters or more overruns the buffer: if some
    word of the file does not fit [char word[100]], the behaviour of
    [readWordsFromFile] is undefined, whether the stream can be repositioned
    or not and whatever can be allocated. *)
Theorem readWordsFromFile_overrun (content : string)
    (rewinds allocated : bool) (copied : nat -> bool) :
  forallb fits_buffer (tokens content) = false ->
  readWordsFromFile (Some (File content rewinds)) allocated copied
  = Undefined.
Proof.
  intros Hfit. unfold readWordsFromFile. cbn [contents].
  by rewrite count_words_loop_overrun by (done || lia).
Qed.

Lemma readWordsFromFile_overrun_witness :
  forallb fits_buffer
    (tokens ("cat " +:+ "0123456789012345678901234567890123456789012345678901234567890123456789012345678901234567890123456789"))
  = false /\
  readWordsFromFile
    (Some (File ("cat " +:+ "0123456789012345678901234567890123456789012345678901234567890123456789012345678901234567890123456789") true))
    true (fun _ => true) = Undefined.
Proof.
  assert (Hfit : forallb fits_buffer
    (tokens ("cat " +:+ "0123456789012345678901234567890123456789012345678901234567890123456789012345678901234567890123456789"))
    = false) by reflexivity.
  split; [exact Hfit|].
  exact (readWordsFromFile_overrun _ true true (fun _ => true) Hfit).
Defined.

(** ** Reading back a text of words *)

Lemma all_chars_impl (P Q : ascii -> bool) (s : string) :
  (forall c, P c = true -> Q c = true) ->
  all_chars P s = true -> all_chars Q s = true.
Proof.
  intros HPQ. induction s as [|c s IH]; simpl; [done|].
  intros [Hc Hs]%andb_true_iff. by rewrite (HPQ c Hc), IH.
Qed.

Lemma split_words_no_space (w rest current : string) :
  all_chars (fun c => negb (is_space c)) w = true ->
  split_words (w ++ rest) current = split_words rest (current ++ w).
Proof.
  revert current; induction w as [|c w IH]; intros current Hw.
  - by rewrite append_empty_l, append_empty_r.
  - simpl in Hw. apply andb_true_iff in Hw as [Hc Hw].
    apply negb_true_iff in Hc.
    rewrite append_cons. simpl. rewrite Hc, IH by done.
    by rewrite append_snoc.
Qed.

Lemma tokens_blank (lead s : string) :
  all_chars is_space lead = true -> tokens (lead ++ s) = tokens s.
Proof.
  unfold tokens. induction lead as [|c lead IH]; intros Hlead; [done|].
  simpl in Hlead. apply andb_true_iff in Hlead as [Hc Hlead].
  rewrite append_cons. simpl. rewrite Hc. by apply IH.
Qed.

Lemma tokens_word (w separator s : string) :
  w <> EmptyString ->
  all_chars (fun c => negb (is_space c)) w = true ->
  blank separator = true ->
  tokens (w ++ separator ++ s) = w :: tokens s.
Proof.
  intros Hne Hw [Hlen Hsep]%andb_true_iff.
  unfold tokens at 1. rewrite split_words_no_space, append_empty_l by done.
  destruct separator as [|c separator]; [done|].
  simpl in Hsep. apply andb_true_iff in Hsep as [Hc Hsep].
  rewrite append_cons. simpl. rewrite Hc.
  destruct w; [done|]. f_equal. by apply tokens_blank.
Qed.

Lemma strdup_no_nul (w : string) :
  all_chars (fun c => negb (char_to_int c =? 0)) w = true -> strdup w = w.
Proof.
  induction w as [|c w IH]; simpl; [done|].
  intros [Hc Hw]%andb_true_iff. apply negb_true_iff in Hc.
  by rewrite Hc, IH.
Qed.

Lemma plain_word_inv (w : string) :
  plain_word w = true ->
  w <> EmptyString /\
  all_chars (fun c => negb (is_space c)) w = true /\
  all_chars (fun c => negb (char_to_int c =? 0)) w = true /\
  fits_buffer w = true.
Proof.
  unfold plain_word.
  intros [[Hne Hall]%andb_true_iff Hfit]%andb_true_iff.
  split; [by destruct w|]. split; [|split; [|done]].
  - eapply all_chars_impl; [|exact Hall]. by intros c [? _]%andb_true_iff.
  - eapply all_chars_impl; [|exact Hall]. by intros c [_ ?]%andb_true_iff.
Qed.

Lemma tokens_words_text (items : list (string * string)) :
  forallb (fun it => plain_word (fst it) && blank (snd it)) items = true ->
  tokens (words_text items) = items.*1 /\
  forallb fits_buffer items.*1 = true /\
  strdup <$> items.*1 = items.*1.
Proof.
  induction items as [|[w separator] items IH]; intros Hitems; [done|].
  simpl in Hitems.
  apply andb_true_iff in Hitems as [[Hw Hsep]%andb_true_iff Hitems].
  destruct (IH Hitems) as (Htok & Hfit & Hdup).
  apply plain_word_inv in Hw as (Hne & Hspace & Hnul & Hw).
  change (words_text ((w, separator) :: items))
    with (w ++ separator ++ words_text items)%string.
  rewrite tokens_word, Htok, !fmap_cons by done. cbn [fst forallb].
  by rewrite Hw, Hfit, strdup_no_nul, Hdup.
Qed.

(** X16.  Reading back a text of words.  A text that is some white space
    followed by words, each followed by at least one character of white
    space, where every word is not empty, has no white space, no NUL and
    fewer than 100 characters, is read by [readWordsFromFile] from a stream
    that can be repositioned as exactly these words in their order, and
    [*wordListLength] is their number.  An entry is [NULL] where [strdup]
    cannot allocate the copy, and no entry is when every copy is allocated.
    From a stream that cannot be repositioned the call returns [NULL],
    unless the text has no word. *)
Theorem readWordsFromFile_words_text (lead : string)
    (items : list (string * string)) (copied : nat -> bool) :
  all_chars is_space lead = true ->
  forallb (fun it => plain_word (fst it) && blank (snd it)) items = true ->
  Z.of_nat (length items) <= INT_MAX ->
  readWordsFromFile (Some (File (lead +:+ words_text items) true)) true copied
  = Returns (Some (copies copied 0 items.*1, Z.of_nat (length items))) /\
  ((forall i, (i < length items)%nat -> copied i = true) ->
   copies copied 0 items.*1 = Some <$> items.*1) /\
  readWordsFromFile (Some (File (lead +:+ words_text items) false)) true copied
  = Returns (match items with [] => Some ([], 0) | _ :: _ => None end).
Proof.
  intros Hlead Hitems Hmax.
  destruct (tokens_words_text items Hitems) as (Htok & Hfit & Hdup).
  assert (Htokens : tokens (lead +:+ words_text items) = items.*1)
    by (by rewrite tokens_blank, Htok).
  split; [|split].
  - rewrite readWordsFromFile_allocated; rewrite Htokens.
    + by rewrite length_fmap.
    + done.
    + by rewrite length_fmap.
  - intros Hcopied. rewrite copies_all, Hdup; [done|].
    intros j Hj. apply Hcopied. rewrite length_fmap in Hj. lia.
  - unfold readWordsFromFile, rewound. cbn [contents seekable].
    rewrite count_words_loop_tokens; rewrite ?Htokens, ?length_fmap;
      [|lia|done|lia].
    rewrite Z.add_0_l, !outcome_bind_Returns, Nat2Z.id.
    by destruct items.
Qed.

Lemma readWordsFromFile_words_text_witness :
  all_chars is_space " " = true /\
  forallb (fun it => plain_word (fst it) && blank (snd it))
    [("cat", " "); ("dog", String "010" "")] = true /\
  Z.of_nat (length [("cat", " "); ("dog", String "010" "")]) <= INT_MAX /\
  readWordsFromFile
    (Some (File (" " +:+ words_text [("cat", " "); ("dog", String "010" "")])
             true))
    true (fun _ => true)
  = Returns (Some ([Some "cat"; Some "dog"]%string, 2)).
Proof.
  assert (Hlead : all_chars is_space " " = true) by reflexivity.
  assert (Hitems : forallb (fun it => plain_word (fst it) && blank (snd it))
            [("cat", " "); ("dog", String "010" "")] = true) by reflexivity.
  assert (Hmax : Z.of_nat (length [("cat", " "); ("dog", String "010" "")])
                 <= INT_MAX) by (vm_compute; discriminate).
  split; [exact Hlead|]. split; [exact Hitems|]. split; [exact Hmax|].
  exact (proj1 (readWordsFromFile_words_text " "
                  [("cat", " "); ("dog", String "010" "")] (fun _ => true)
                  Hlead Hitems Hmax)).
Defined.

(** ** The two loops of [readQuery] *)

Lemma scan_digits_length (s : string) (count : nat) (value : Z) :
  (String.length (snd (scan_digits s count value)) <= String.length s)%nat.
Proof.
  revert count value; induction s as [|c s IH]; intros count value; simpl;
    [done|].
  destruct (is_digit c); simpl; [|done].
  specialize (IH (S count) (10 * value + (Z.of_N (N_of_ascii c) - 48))). lia.
Qed.

Lemma scan_number_length (negative : bool) (s : string) (v : Z) (rest : string) :
  scan_number negative s = Matched v rest ->
  (String.length rest <= String.length s)%nat.
Proof.
  unfold scan_number. pose proof (scan_digits_length s 0 0) as Hlen.
  destruct (scan_digits s 0 0) as [[count value] rest0]. simpl in Hlen.
  destruct count; [done|]. destruct (_ && _); [|done]. by intros [= _ <-].
Qed.

(** [%d] reads a sign and a number, or a number. *)
Lemma scan_d_cases (stream : string) :
  (exists negative c s,
     skip_spaces stream = String c s /\ is_digit c = false /\
     scan_d stream = scan_number negative s) \/
  scan_d stream = scan_number false (skip_spaces stream).
Proof.
  unfold scan_d. destruct (skip_spaces stream) as [|c s]; [by right|].
  destruct c as [[] [] [] [] [] [] [] []];
    first [by right | by left; exists true, "-"%char, s
                    | by left; exists false, "+"%char, s].
Qed.

Lemma scan_d_length (stream : string) (v : Z) (rest : string) :
  scan_d stream = Matched v rest ->
  (String.length rest <= String.length stream)%nat.
Proof.
  pose proof (skip_spaces_length stream) as Hskip.
  destruct (scan_d_cases stream) as [(negative & c & s & Hs & _ & ->)| ->];
    intros H%scan_number_length.
  - rewrite Hs in Hskip. simpl in Hskip. lia.
  - lia.
Qed.

(** A call of [fscanf] that stores a word and a bit moves the stream
    forward. *)
Lemma scan_s_d_Matched (stream : string) (record : string * Z) (rest : string) :
  scan_s_d stream = Matched record rest ->
  (String.length rest < String.length stream)%nat.
Proof.
  unfold scan_s_d. intros H.
  destruct (scan_s stream) as [word after|after|] eqn:Hs; [|done..].
  apply scan_s_Matched in Hs as (_ & _ & _ & Hlen).
  destruct (scan_d (skip_spaces after)) as [bit rest'|rest'|] eqn:Hd;
    [|done..].
  injection H as _ <-.
  apply scan_d_length in Hd. pose proof (skip_spaces_length after). lia.
Qed.

(** The reading loop ends; it writes as many words as bits, and at most
    one of each in an iteration. *)
Lemma read_queries_loop_lengths (copied : nat -> bool) (k : nat)
    (stream : string) (ws : list (option string)) (bs : list Z) :
  length ws = length bs ->
  match read_queries_loop copied k stream ws bs with
  | Returns (ws', bs') =>
      length ws' = length bs' /\
      (length ws <= length ws' <= length ws + k)%nat
  | Undefined => True
  | OutOfFuel => False
  end.
Proof.
  revert stream ws bs; induction k as [|k IH]; intros stream ws bs Hlen.
  - simpl. lia.
  - simpl. destruct (scan_s_d stream) as [[word bit] rest|rest|]; [| |done].
    + specialize (IH rest (ws ++ [strdup_at copied (length ws) word])
                    (bs ++ [bit])).
      rewrite !length_app in IH. simpl in IH.
      specialize (IH ltac:(lia)).
      destruct (read_queries_loop _ _ _ _ _) as [[ws' bs']| |]; [|done..].
      lia.
    + lia.
Qed.

(** The counting loop ends, and when it returns the reading loop, started
    on the same stream, stores as many words and as many bits as were
    counted. *)
Lemma count_queries_loop_read (copied : nat -> bool) (fuel : nat)
    (stream : string) (len : Z) :
  (String.length stream < fuel)%nat ->
  match count_queries_loop fuel stream len with
  | Returns (n, _) =>
      len <= n /\ (len <= INT_MAX -> n <= INT_MAX) /\
      forall ws bs, exists ws' bs',
        read_queries_loop copied (Z.to_nat (n - len)) stream ws bs
        = Returns (ws ++ ws', bs ++ bs') /\
        length ws' = Z.to_nat (n - len) /\ length bs' = Z.to_nat (n - len)
  | Undefined => True
  | OutOfFuel => False
  end.
Proof.
  revert stream len; induction fuel as [|fuel IH]; intros stream len Hfuel;
    [lia|].
  simpl. destruct (scan_s_d stream) as [[word bit] rest|rest|] eqn:Hscan.
  - apply scan_s_d_Matched in Hscan as Hlen.
    unfold increment. destruct (Z.ltb_spec len INT_MAX); [|done].
    rewrite outcome_bind_Returns.
    specialize (IH rest (len + 1) ltac:(lia)).
    destruct (count_queries_loop fuel rest (len + 1)) as [[n after]| |];
      [|done..].
    destruct IH as (Hn & Hmax & IH). split; [lia|]. split; [lia|].
    intros ws bs.
    destruct (IH (ws ++ [strdup_at copied (length ws) word]) (bs ++ [bit]))
      as (ws' & bs' & Hread & Hws & Hbs).
    exists (strdup_at copied (length ws) word :: ws'), (bit :: bs').
    replace (Z.to_nat (n - len)) with (S (Z.to_nat (n - (len + 1)))) by lia.
    simpl. rewrite Hscan, Hread, <- !app_assoc. simpl.
    split; [done|]. lia.
  - split; [lia|]. split; [done|]. intros ws bs. exists [], [].
    rewrite Z.sub_diag, !app_nil_r. done.
  - done.
Qed.

(** X17.  What [readQuery] leaves in the three variables of [main].
    Called on [NULL], [NULL] and 0, for every file and whatever can be
    allocated, [readQuery] ends (or its behaviour is undefined), and at its
    return the two buffers have the same number of entries written, at most
    [*length].  When the stream can be repositioned they have exactly
    [*length] entries written, so no index below [*length] is outside them;
    when [fseek] fails, entries below [*length] may be left unwritten.  The
    failures to open the file and to allocate leave 0 entries and
    length 0. *)
Theorem readQuery_lengths (file : option file)
    (words_allocated bits_allocated : bool) (copied : nat -> bool) :
  match readQuery file words_allocated bits_allocated copied ([], [], 0) with
  | Returns (wordsBuffer, bits, n) =>
      length wordsBuffer = length bits /\
      Z.of_nat (length bits) <= n <= INT_MAX /\
      ((forall f, file = Some f -> seekable f = true) ->
       Z.of_nat (length bits) = n) /\
      (file = None \/ words_allocated && bits_allocated = false ->
       wordsBuffer = [] /\ bits = [] /\ n = 0)
  | Undefined => True
  | OutOfFuel => False
  end.
Proof.
  unfold readQuery. destruct file as [[content rewinds]|].
  2:{ cbn. unfold INT_MAX. repeat split; lia || done. }
  cbn [contents]. unfold rewound. cbn [contents seekable].
  pose proof (count_queries_loop_read copied (S (String.length content))
                content 0 ltac:(lia)) as Hloop.
  destruct (count_queries_loop _ content 0) as [[n rest]| |]; [|done..].
  rewrite outcome_bind_Returns. destruct Hloop as (Hn & Hmax & Hread).
  specialize (Hmax ltac:(unfold INT_MAX; lia)).
  destruct (words_allocated && bits_allocated) eqn:Halloc.
  - destruct rewinds.
    + destruct (Hread [] []) as (ws & bs & Hloop & Hws & Hbs).
      rewrite Z.sub_0_r in Hloop, Hws, Hbs.
      rewrite Hloop, outcome_bind_Returns.
      simpl. split; [lia|]. split; [lia|]. split; [lia|]. intros [?|?]; done.
    + pose proof (read_queries_loop_lengths copied (Z.to_nat n) rest [] []
                    eq_refl) as Hlen.
      destruct (read_queries_loop _ _ rest [] []) as [[ws bs]| |];
        [|done..].
      rewrite outcome_bind_Returns. simpl in Hlen.
      split; [lia|]. split; [lia|]. split.
      * intros Hseek. by specialize (Hseek _ eq_refl).
      * intros [?|?]; done.
  - simpl. unfold INT_MAX. repeat split; lia || done.
Qed.

(** ** Reading back a text of query lines *)

Lemma append_assoc (a b c : string) :
  ((a ++ b) ++ c)%string = (a ++ b ++ c)%string.
Proof.
  induction a as [|x a IH]; [done|]. by rewrite !append_cons, IH.
Qed.

Lemma length_append (a b : string) :
  String.length (a ++ b) = (String.length a + String.length b)%nat.
Proof.
  induction a as [|x a IH]; [done|]. rewrite append_cons. simpl. by rewrite IH.
Qed.

Lemma skip_spaces_blank (lead s : string) :
  all_chars is_space lead = true ->
  skip_spaces (lead ++ s) = skip_spaces s.
Proof.
  induction lead as [|c lead IH]; intros Hlead; [done|].
  simpl in Hlead. apply andb_true_iff in Hlead as [Hc Hlead].
  rewrite append_cons. simpl. rewrite Hc. by apply IH.
Qed.

Lemma scan_token_word (w rest : string) :
  all_chars (fun c => negb (is_space c)) w = true ->
  match rest with String c _ => is_space c = true | EmptyString => True end ->
  scan_token (w ++ rest) = (w, rest).
Proof.
  intros Hw Hrest. induction w as [|c w IH].
  - rewrite append_empty_l. destruct rest as [|c rest]; [done|].
    simpl. by rewrite Hrest.
  - simpl in Hw. apply andb_true_iff in Hw as [Hc Hw].
    apply negb_true_iff in Hc. rewrite append_cons. simpl.
    by rewrite Hc, IH.
Qed.

Lemma blank_head (s t : string) :
  blank s = true ->
  match (s ++ t)%string with
  | String c _ => is_space c = true
  | EmptyString => True
  end.
Proof.
  intros [Hlen Hs]%andb_true_iff. destruct s as [|c s]; [done|].
  rewrite append_cons. simpl in Hs. by apply andb_true_iff in Hs as [? _].
Qed.

(** [%s] on a stream that holds white space, a word and white space. *)
Lemma scan_s_word (lead w gap s : string) :
  all_chars is_space lead = true ->
  plain_word w = true -> blank gap = true ->
  scan_s (lead ++ w ++ gap ++ s) = Matched w (gap ++ s).
Proof.
  intros Hlead (Hne & Hspace & _ & Hfit)%plain_word_inv Hgap.
  unfold scan_s. rewrite skip_spaces_blank by done.
  assert (Hskip : skip_spaces (w ++ gap ++ s) = (w ++ gap ++ s)%string).
  { destruct w as [|c w]; [done|]. simpl in Hspace.
    apply andb_true_iff in Hspace as [Hc _]. apply negb_true_iff in Hc.
    rewrite append_cons. simpl. by rewrite Hc. }
  rewrite Hskip, scan_token_word by (done || by apply blank_head).
  destruct w as [|c w]; [done|].
  unfold fits_buffer in Hfit. apply Z.ltb_lt in Hfit.
  by destruct (Z.leb_spec MAX_WORD_LENGTH (Z.of_nat (String.length (String c w))));
    [lia|].
Qed.

Lemma space_not_digit (c : ascii) : is_space c = true -> is_digit c = false.
Proof.
  unfold is_space, is_digit. intros H.
  destruct (Z.leb_spec 48 (Z.of_N (N_of_ascii c))),
    (Z.leb_spec (Z.of_N (N_of_ascii c)) 57); try done.
  apply orb_true_iff in H as [H%Z.eqb_eq|[_ H%Z.leb_le]%andb_true_iff]; lia.
Qed.

Lemma digit_not_space (c : ascii) : is_digit c = true -> is_space c = false.
Proof.
  intros H. destruct (is_space c) eqn:Hc; [|done].
  apply space_not_digit in Hc. congruence.
Qed.

Lemma scan_digits_app (ds rest : string) (count : nat) (value : Z) :
  all_chars is_digit ds = true ->
  match rest with String c _ => is_digit c = false | EmptyString => True end ->
  scan_digits (ds ++ rest) count value
  = ((count + String.length ds)%nat, decimal_value ds value, rest).
Proof.
  intros Hds Hrest. revert count value; induction ds as [|c ds IH];
    intros count value.
  - rewrite append_empty_l, Nat.add_0_r. destruct rest as [|c rest]; [done|].
    simpl. by rewrite Hrest.
  - simpl in Hds. apply andb_true_iff in Hds as [Hc Hds].
    rewrite append_cons. simpl. rewrite Hc, IH by done.
    do 2 f_equal. lia.
Qed.

Lemma decimal_value_nonneg (ds : string) (value : Z) :
  all_chars is_digit ds = true -> 0 <= value -> 0 <= decimal_value ds value.
Proof.
  revert value; induction ds as [|c ds IH]; intros value Hds Hv; simpl; [done|].
  simpl in Hds. apply andb_true_iff in Hds as [Hc Hds].
  apply IH; [done|]. unfold is_digit in Hc.
  apply andb_true_iff in Hc as [Hlo%Z.leb_le _]. lia.
Qed.

(** [%d] on a stream that holds digits and white space. *)
Lemma scan_d_digits (ds ending s : string) :
  ds <> EmptyString -> all_chars is_digit ds = true ->
  decimal_value ds 0 <= INT_MAX -> blank ending = true ->
  scan_d (ds ++ ending ++ s) = Matched (decimal_value ds 0) (ending ++ s).
Proof.
  intros Hne Hds Hmax Hend.
  destruct ds as [|c ds]; [done|].
  pose proof Hds as Hds'. simpl in Hds'.
  apply andb_true_iff in Hds' as [Hc _].
  assert (Hskip : skip_spaces (String c ds ++ ending ++ s)
                  = (String c ds ++ ending ++ s)%string).
  { rewrite append_cons. simpl. by rewrite (digit_not_space c Hc). }
  assert (Hnumber : scan_number false (String c ds ++ ending ++ s)
    = Matched (decimal_value (String c ds) 0) (ending ++ s)).
  { unfold scan_number. rewrite scan_digits_app; [|done|].
    - pose proof (decimal_value_nonneg _ 0 Hds ltac:(lia)) as Hpos.
      simpl Nat.add. cbv zeta.
      destruct (Z.leb_spec INT_MIN (decimal_value (String c ds) 0));
        [|unfold INT_MIN in *; lia].
      by destruct (Z.leb_spec (decimal_value (String c ds) 0) INT_MAX); [|lia].
    - pose proof (blank_head ending s Hend) as Hhead.
      destruct (ending ++ s)%string; [done|]. by apply space_not_digit. }
  destruct (scan_d_cases (String c ds ++ ending ++ s))
    as [(negative & c' & s' & Hs' & Hc' & _)| ->].
  - rewrite Hskip, append_cons in Hs'. injection Hs' as <- _. congruence.
  - by rewrite Hskip.
Qed.

Lemma well_formed_line_inv (l : query_line) :
  well_formed_line l = true ->
  plain_word (line_word l) = true /\ blank (line_gap l) = true /\
  line_digits l <> EmptyString /\ all_chars is_digit (line_digits l) = true /\
  line_bit l <= INT_MAX /\ blank (line_end l) = true.
Proof.
  unfold well_formed_line. intros H.
  apply andb_true_iff in H as [H Hend].
  apply andb_true_iff in H as [H Hmax]. apply Z.leb_le in Hmax.
  apply andb_true_iff in H as [H Hds].
  apply andb_true_iff in H as [H Hne].
  apply andb_true_iff in H as [Hw Hgap].
  repeat split; try done. by destruct (line_digits l).
Qed.

Lemma blank_all_space (s : string) : blank s = true -> all_chars is_space s = true.
Proof. by intros [_ ?]%andb_true_iff. Qed.

(** One call of [fscanf] on a well-formed line, after white space. *)
Lemma scan_s_d_line (lead : string) (l : query_line) (s : string) :
  all_chars is_space lead = true -> well_formed_line l = true ->
  scan_s_d (lead ++ line_word l ++ line_gap l ++ line_digits l
            ++ line_end l ++ s)
  = Matched (line_word l, line_bit l) (line_end l ++ s).
Proof.
  intros Hlead (Hw & Hgap & Hne & Hds & Hmax & Hend)%well_formed_line_inv.
  unfold scan_s_d. rewrite scan_s_word by done.
  rewrite skip_spaces_blank by (by apply blank_all_space).
  assert (Hskip : skip_spaces (line_digits l ++ line_end l ++ s)
                  = (line_digits l ++ line_end l ++ s)%string).
  { destruct (line_digits l) as [|c ds]; [done|]. simpl in Hds.
    apply andb_true_iff in Hds as [Hc _].
    rewrite append_cons. simpl. by rewrite (digit_not_space c Hc). }
  by rewrite Hskip, scan_d_digits.
Qed.

Lemma scan_s_d_blank (lead s : string) :
  all_chars is_space lead = true -> scan_s_d (lead ++ s) = scan_s_d s.
Proof.
  intros Hlead. unfold scan_s_d, scan_s. by rewrite skip_spaces_blank.
Qed.

Lemma strdup_line_words (lines : list query_line) :
  forallb well_formed_line lines = true ->
  strdup <$> (line_word <$> lines) = line_word <$> lines.
Proof.
  induction lines as [|l lines IH]; intros Hlines; [done|].
  simpl in Hlines. apply andb_true_iff in Hlines as [Hl Hlines].
  apply well_formed_line_inv in Hl as (Hw & _).
  apply plain_word_inv in Hw as (_ & _ & Hnul & _).
  rewrite !fmap_cons, IH by done. by rewrite strdup_no_nul.
Qed.

Section QueryText.
Context (tail after : string) (copied : nat -> bool).
Hypothesis Htail : scan_s_d tail = NoMatch after.

Lemma count_queries_text (lines : list query_line) (fuel : nat)
    (lead : string) (len : Z) :
  all_chars is_space lead = true ->
  forallb well_formed_line lines = true ->
  (String.length (lead ++ query_text lines ++ tail) < fuel)%nat ->
  len + Z.of_nat (length lines) <= INT_MAX ->
  count_queries_loop fuel (lead ++ query_text lines ++ tail) len
  = Returns (len + Z.of_nat (length lines), after).
Proof.
  revert fuel lead len; induction lines as [|l lines IH];
    intros fuel lead len Hlead Hlines Hfuel Hmax.
  - destruct fuel as [|fuel]; [lia|]. simpl.
    rewrite append_empty_l, scan_s_d_blank, Htail by done. do 2 f_equal. lia.
  - destruct fuel as [|fuel]; [lia|].
    simpl in Hlines. apply andb_true_iff in Hlines as [Hl Hlines].
    pose proof (well_formed_line_inv l Hl) as (_ & _ & _ & _ & _ & Hend).
    change (query_text (l :: lines))
      with (line_word l ++ line_gap l ++ line_digits l ++ line_end l
            ++ query_text lines)%string in *.
    rewrite !append_assoc in *. simpl count_queries_loop.
    rewrite scan_s_d_line by done.
    simpl length in Hmax. rewrite increment_Returns, outcome_bind_Returns by lia.
    rewrite IH;
      [do 2 f_equal; simpl length; lia | by apply blank_all_space | done | | lia].
    assert (Hword : (1 <= String.length (line_word l))%nat).
    { apply well_formed_line_inv in Hl as (Hw & _).
      apply plain_word_inv in Hw as (Hne & _).
      destruct (line_word l); [done | simpl; lia]. }
    rewrite !length_append in *. lia.
Qed.

Lemma read_queries_text (lines : list query_line) (lead : string)
    (ws : list (option string)) (bs : list Z) :
  all_chars is_space lead = true ->
  forallb well_formed_line lines = true ->
  read_queries_loop copied (length lines) (lead ++ query_text lines ++ tail)
    ws bs
  = Returns (ws ++ copies copied (length ws) (line_word <$> lines),
             bs ++ (line_bit <$> lines)).
Proof.
  revert lead ws bs; induction lines as [|l lines IH];
    intros lead ws bs Hlead Hlines.
  - simpl. by rewrite !app_nil_r.
  - simpl in Hlines. apply andb_true_iff in Hlines as [Hl Hlines].
    pose proof (well_formed_line_inv l Hl) as (Hw & _ & _ & _ & _ & Hend).
    change (query_text (l :: lines))
      with (line_word l ++ line_gap l ++ line_digits l ++ line_end l
            ++ query_text lines)%string.
    rewrite !append_assoc. simpl read_queries_loop.
    rewrite scan_s_d_line by done.
    rewrite IH by (done || by apply blank_all_space).
    rewrite !fmap_cons, <- !app_assoc, length_app. simpl.
    by rewrite Nat.add_1_r.
Qed.
End QueryText.

(** X18.  Reading back a text of query lines, and where the reading stops.
    A text of well-formed lines (a word, white space, decimal digits of a
    number that is an [int], white space) is read by [readQuery], from a
    stream that can be repositioned, as the words and the numbers of the
    lines, in their order; an entry is [NULL] where [strdup] cannot
    allocate the copy, and no entry is when every copy is allocated.  The
    reading stops without an error at the first place where a word and a
    number cannot be read: what follows in the file is ignored. *)
Theorem readQuery_query_text (lines : list query_line) (tail after : string)
    (copied : nat -> bool) (before : list (option string) * list Z * Z) :
  forallb well_formed_line lines = true ->
  scan_s_d tail = NoMatch after ->
  Z.of_nat (length lines) <= INT_MAX ->
  readQuery (Some (File (query_text lines +:+ tail) true)) true true copied
    before
  = Returns (copies copied 0 (line_word <$> lines), line_bit <$> lines,
             Z.of_nat (length lines)) /\
  ((forall i, (i < length lines)%nat -> copied i = true) ->
   copies copied 0 (line_word <$> lines) = Some <$> (line_word <$> lines)).
Proof.
  intros Hlines Htail Hmax. split.
  - unfold readQuery, rewound. cbn [contents seekable].
    pose proof (count_queries_text tail after Htail lines
                  (S (String.length (query_text lines +:+ tail))) "" 0
                  eq_refl Hlines) as Hcount.
    rewrite append_empty_l in Hcount.
    rewrite Hcount by lia. rewrite outcome_bind_Returns. simpl andb. cbv iota.
    rewrite Z.add_0_l, Nat2Z.id.
    pose proof (read_queries_text tail copied lines "" [] [] eq_refl Hlines)
      as Hread.
    rewrite append_empty_l in Hread. by rewrite Hread.
  - intros Hcopied. rewrite copies_all, strdup_line_words; [done..|].
    intros j Hj. apply Hcopied. rewrite length_fmap in Hj. lia.
Qed.

Lemma readQuery_query_text_witness :
  forallb well_formed_line
    [QueryLine "cat" " " "1" (String "010" "");
     QueryLine "fish" " " "0" (String "010" "")] = true /\
  scan_s_d ("dog one" +:+ String "010" "bird 1")
  = NoMatch ("one" +:+ String "010" "bird 1") /\
  Z.of_nat (length [QueryLine "cat" " " "1" (String "010" "");
                    QueryLine "fish" " " "0" (String "010" "")]) <= INT_MAX /\
  readQuery
    (Some (File (query_text [QueryLine "cat" " " "1" (String "010" "");
                             QueryLine "fish" " " "0" (String "010" "")]
                 +:+ ("dog one" +:+ String "010" "bird 1")) true))
    true true (fun _ => true) ([], [], 0)
  = Returns ([Some "cat"; Some "fish"]%string, [1; 0], 2).
Proof.
  assert (Hlines : forallb well_formed_line
    [QueryLine "cat" " " "1" (String "010" "");
     QueryLine "fish" " " "0" (String "010" "")] = true) by reflexivity.
  assert (Htail : scan_s_d ("dog one" +:+ String "010" "bird 1")
                  = NoMatch ("one" +:+ String "010" "bird 1"))
    by reflexivity.
  assert (Hmax : Z.of_nat (length [QueryLine "cat" " " "1" (String "010" "");
                    QueryLine "fish" " " "0" (String "010" "")]) <= INT_MAX)
    by (vm_compute; discriminate).
  split; [exact Hlines|]. split; [exact Htail|]. split; [exact Hmax|].
  exact (proj1 (readQuery_query_text _ _ _ (fun _ => true) ([], [], 0)
                  Hlines Htail Hmax)).
Defined.

(** ** What the readers hand to [main] *)

(** The counting loop ends at the end of the stream, and when it returns
    the reading loop, started on the same stream, stores as many words as
    were counted and does not take its error exit. *)
Lemma count_words_loop_read (copied : nat -> bool) (fuel : nat)
    (stream : string) (len : Z) :
  (String.length stream < fuel)%nat ->
  match count_words_loop fuel stream len with
  | Returns (n, rest) =>
      len <= n /\ (len <= INT_MAX -> n <= INT_MAX) /\
      rest = EmptyString /\
      (n = len <-> tokens stream = []) /\
      forall acc, exists ws,
        read_words_loop copied (Z.to_nat (n - len)) stream acc
        = Returns (Some (acc ++ ws)) /\
        length ws = Z.to_nat (n - len)
  | Undefined => True
  | OutOfFuel => False
  end.
Proof.
  revert stream len; induction fuel as [|fuel IH]; intros stream len Hfuel;
    [lia|].
  simpl. pose proof (tokens_scan_s stream) as Htok.
  destruct (scan_s stream) as [word rest|rest|] eqn:Hscan.
  - apply scan_s_Matched in Hscan as Hlen. destruct Hlen as (_ & _ & _ & Hlen).
    destruct Htok as [Htok _].
    unfold increment. destruct (Z.ltb_spec len INT_MAX); [|done].
    rewrite outcome_bind_Returns.
    specialize (IH rest (len + 1) ltac:(lia)).
    destruct (count_words_loop fuel rest (len + 1)) as [[n after]| |];
      [|done..].
    destruct IH as (Hn & Hmax & Hafter & _ & IH).
    split; [lia|]. split; [lia|]. split; [done|].
    split; [rewrite Htok; split; [lia | done]|].
    intros acc.
    destruct (IH (acc ++ [strdup_at copied (length acc) word]))
      as (ws & Hread & Hws).
    exists (strdup_at copied (length acc) word :: ws).
    replace (Z.to_nat (n - len)) with (S (Z.to_nat (n - (len + 1)))) by lia.
    simpl. rewrite Hscan, Hread, <- app_assoc. simpl.
    split; [done|]. lia.
  - destruct Htok as [Htok ->].
    split; [lia|]. split; [done|]. split; [done|]. split; [done|].
    intros acc. exists []. rewrite Z.sub_diag, app_nil_r. done.
  - done.
Qed.

(** X19.  What [readWordsFromFile] hands to [main], for every file and
    whatever can be allocated.  The call ends (or its behaviour is
    undefined).  When it returns an array, [*wordListLength] is the number
    of entries of the array and every entry has been written.  It returns
    [NULL] only when the file cannot be opened, when the array cannot be
    allocated, and when the stream cannot be repositioned and the file has
    a word: the error exit of its second loop is taken after a failed
    [fseek], and only then. *)
Theorem readWordsFromFile_lengths (file : option file) (allocated : bool)
    (copied : nat -> bool) :
  match readWordsFromFile file allocated copied with
  | Returns (Some (ppWordListArray, n)) =>
      Z.of_nat (length ppWordListArray) = n /\ n <= INT_MAX /\
      allocated = true /\
      exists f, file = Some f /\
                (seekable f = true \/ tokens (contents f) = [])
  | Returns None =>
      file = None \/ allocated = false \/
      exists f, file = Some f /\ seekable f = false /\
                tokens (contents f) <> []
  | Undefined => is_Some file
  | OutOfFuel => False
  end.
Proof.
  unfold readWordsFromFile. destruct file as [[content rewinds]|]; [|by left].
  unfold rewound. cbn [contents seekable].
  pose proof (count_words_loop_read copied (S (String.length content))
                content 0 ltac:(lia)) as Hloop.
  destruct (count_words_loop _ content 0) as [[n rest]| |];
    [|by eexists|done].
  rewrite outcome_bind_Returns.
  destruct Hloop as (Hn & Hmax & -> & Hempty & Hread).
  specialize (Hmax ltac:(unfold INT_MAX; lia)).
  destruct allocated; [|by right; left].
  destruct rewinds.
  - destruct (Hread []) as (ws & Hloop & Hws).
    rewrite Z.sub_0_r in Hloop, Hws. rewrite Hloop, outcome_bind_Returns.
    simpl. split; [lia|]. split; [done|]. split; [done|].
    eexists. split; [done|]. by left.
  - destruct (Z.to_nat n) as [|k] eqn:Hk.
    + simpl. split; [lia|]. split; [done|]. split; [done|].
      eexists. split; [done|]. right. apply Hempty. lia.
    + rewrite read_words_loop_at_end, outcome_bind_Returns.
      right; right. eexists. split; [done|]. split; [done|].
      intros Hnone. apply Hempty in Hnone. lia.
Qed.

(** ** The values that [main] returns *)

Lemma readQuery_ends (file : option file) (a b : bool) (copied : nat -> bool)
    (before : list (option string) * list Z * Z) :
  readQuery file a b copied before <> OutOfFuel.
Proof.
  unfold readQuery. destruct file as [[content rewinds]|]; [|done].
  unfold rewound. cbn [contents seekable].
  pose proof (count_queries_loop_read copied (S (String.length content))
                content 0 ltac:(lia)) as Hloop.
  destruct (count_queries_loop _ content 0) as [[n rest]| |]; [|done..].
  rewrite outcome_bind_Returns. destruct Hloop as (Hn & _ & Hread).
  destruct (a && b); [|done].
  destruct rewinds.
  - destruct (Hread [] []) as (ws & bs & Hloop & _).
    rewrite Z.sub_0_r in Hloop. by rewrite Hloop.
  - pose proof (read_queries_loop_lengths copied (Z.to_nat n) rest [] []
                  eq_refl) as Hlen.
    by destruct (read_queries_loop _ _ rest [] []) as [[ws bs]| |].
Qed.

Lemma readWordsFromFile_cases (file : option file) (allocated : bool)
    (copied : nat -> bool) :
  readWordsFromFile file allocated copied = Undefined /\ is_Some file \/
  readWordsFromFile file allocated copied = Returns None /\
    (file = None \/ allocated = false \/
     exists f, file = Some f /\ seekable f = false) \/
  exists array,
    readWordsFromFile file allocated copied
    = Returns (Some (array, Z.of_nat (length array))) /\
    Z.of_nat (length array) <= INT_MAX /\
    is_Some file /\ allocated = true.
Proof.
  unfold readWordsFromFile. destruct file as [[content rewinds]|];
    [|right; left; split; [done | by left]].
  unfold rewound. cbn [contents seekable].
  pose proof (count_words_loop_read copied (S (String.length content))
                content 0 ltac:(lia)) as Hloop.
  destruct (count_words_loop _ content 0) as [[n rest]| |];
    [|by left; split; [|eexists]|done].
  rewrite outcome_bind_Returns.
  destruct Hloop as (Hn & Hmax & -> & Hempty & Hread).
  specialize (Hmax ltac:(unfold INT_MAX; lia)).
  destruct allocated; [|right; left; split; [done | by right; left]].
  destruct rewinds.
  - destruct (Hread []) as (ws & Hloop & Hws).
    rewrite Z.sub_0_r in Hloop, Hws. rewrite Hloop, outcome_bind_Returns.
    right; right. exists ws. simpl.
    replace (Z.of_nat (length ws)) with n by lia.
    split; [done|]. split; [done|]. split; [by eexists | done].
  - destruct (Z.to_nat n) as [|k] eqn:Hk.
    + right; right. exists []. simpl.
      replace n with 0 by lia.
      split; [done|]. split; [unfold INT_MAX; lia|].
      split; [by eexists | done].
    + rewrite read_words_loop_at_end, outcome_bind_Returns.
      right; left. split; [done|]. right; right. by eexists.
Qed.

(** X20.  The values that [main] returns.  [main] ends, or its behaviour is
    undefined.  When it returns -1 it has printed no report and the number
    of arguments is wrong, the word file cannot be opened, the word array
    cannot be allocated, or the stream of the word file cannot be
    repositioned; when it returns 1 it has printed no report and the bit
    array cannot be allocated; in every other case it returns 0 and has
    printed the report.  The query file and the query buffers are among the
    causes of no exit: a query file that cannot be opened does not make
    [main] fail. *)
Theorem main_exit_values (argc : Z) (insertFile testFile : option file)
    (alloc : allocations) (bitArray : option (list Z)) :
  match main argc insertFile testFile alloc bitArray with
  | Returns (code, printed) =>
      (code = -1 /\ printed = None /\
       (argc <> 3 \/ insertFile = None \/
        word_array_allocated alloc = false \/
        exists f, insertFile = Some f /\ seekable f = false))
      \/ (code = 1 /\ printed = None /\ argc = 3 /\ bitArray = None)
      \/ (code = 0 /\ is_Some printed /\ argc = 3 /\ is_Some insertFile /\
          is_Some bitArray /\ word_array_allocated alloc = true)
  | Undefined => argc = 3
  | OutOfFuel => False
  end.
Proof.
  unfold main. destruct (Z.eqb_spec argc 3) as [->|Hargc]; simpl negb; cbv iota;
    [|by left; auto].
  pose proof (readQuery_ends testFile (query_words_allocated alloc)
                (query_bits_allocated alloc) (query_copies alloc)
                ([], [], 0)) as Hq.
  destruct (readQuery _ _ _ _ _) as [[[queries bits] querySize]| |];
    [|done..].
  rewrite outcome_bind_Returns.
  destruct (readWordsFromFile_cases insertFile (word_array_allocated alloc)
              (word_copies alloc))
    as [[-> _]|[[-> Hnull]|(array & -> & _ & Hfile & Halloc)]]; [done| |].
  - rewrite outcome_bind_Returns. left. tauto.
  - rewrite outcome_bind_Returns.
    destruct (main_sizing (Z.of_nat (length array))) as [[m k]|]; [|done].
    simpl defined. rewrite outcome_bind_Returns.
    destruct bitArray as [cells|]; [|by right; left].
    destruct (pointees k array) as [words|]; [|done].
    simpl defined. rewrite outcome_bind_Returns.
    destruct (insertWords words (Z.of_nat (length array)) cells m k)
      as [filled|]; [|done].
    simpl defined. rewrite outcome_bind_Returns.
    destruct (pointees k queries) as [queryWords|]; [|done].
    simpl defined. rewrite outcome_bind_Returns.
    destruct (testBloomWithQueries filled queryWords bits querySize m k)
      as [r|]; [|done].
    simpl defined. rewrite outcome_bind_Returns.
    right; right. repeat split; try done; by eexists.
Qed.

(** ** [main], from the two files to the report *)

Lemma defined_Some {A : Type} (a : A) : defined (Some a) = Returns a.
Proof. reflexivity. Qed.

Lemma dereferenced_Some (array : list (option string)) (ws : list string) :
  dereferenced array = Some ws <-> array = Some <$> ws.
Proof.
  unfold dereferenced. split.
  - intros H%mapM_Some_1.
    induction H as [|p w array ws Hp _ IH]; [done|]. by rewrite Hp, IH.
  - intros ->. by apply mapM_fmap_Some.
Qed.

Lemma pointees_6 (ws : list string) : pointees 6 (Some <$> ws) = Some ws.
Proof. unfold pointees. simpl. by apply dereferenced_Some. Qed.

Lemma foldM_fault {S A : Type} (body : S -> A -> option S) (a : A)
    (l1 l2 : list A) (s : S) :
  (forall s', body s' a = None) -> foldM body s (l1 ++ a :: l2) = None.
Proof.
  intros Hfault. rewrite foldM_app.
  destruct (foldM body s l1) as [s'|]; [|done].
  simpl. by rewrite Hfault.
Qed.

(** An evaluation told of more records than the buffer of words holds
    reads an entry that was never written. *)
Lemma testBloomWithQueries_unfilled (bitArray : list Z) (words : list string)
    (bits : list Z) (querySize m k : Z) :
  Z.of_nat (length words) < querySize ->
  testBloomWithQueries bitArray words bits querySize m k = None.
Proof.
  intros Hlen. unfold testBloomWithQueries, count_in_order.
  replace querySize
    with (Z.of_nat (length words) + (querySize - Z.of_nat (length words)))
    by lia.
  rewrite seqZ_app by lia.
  rewrite (seqZ_cons _ (querySize - Z.of_nat (length words))) by lia.
  rewrite foldM_fault; [done|].
  intros c. unfold test_body.
  rewrite Z.add_0_l, Nat2Z.id.
  by rewrite (lookup_ge_None_2 words (length words)) by lia.
Qed.

(** Whenever the sizing of [main] is defined there are 6 hash functions. *)
Lemma main_sizing_count (n m k : Z) :
  0 <= n <= INT_MAX -> main_sizing n = Some (m, k) -> k = 6.
Proof.
  intros Hn. unfold main_sizing.
  destruct (calculateOptimalArraySize n) as [m'|] eqn:Hm; [|done].
  cbn [mbind option_bind]. destruct (Z.eq_dec n 0) as [->|Hne]; [done|].
  rewrite (hash_count_computed n m') by (done || lia).
  cbn [mbind option_bind]. congruence.
Qed.

Lemma readQuery_cases (file : option file) (a b : bool)
    (copied : nat -> bool) :
  readQuery file a b copied ([], [], 0) = Undefined \/
  exists queries bits querySize,
    readQuery file a b copied ([], [], 0)
    = Returns (queries, bits, querySize) /\
    length queries = length bits /\
    Z.of_nat (length queries) <= querySize <= INT_MAX.
Proof.
  unfold readQuery. destruct file as [[content rewinds]|].
  2:{ right. exists [], [], 0. unfold INT_MAX. simpl. repeat split; lia. }
  unfold rewound. cbn [contents seekable].
  pose proof (count_queries_loop_read copied (S (String.length content))
                content 0 ltac:(lia)) as Hloop.
  destruct (count_queries_loop _ content 0) as [[n rest]| |];
    [|by left|done].
  rewrite outcome_bind_Returns. destruct Hloop as (Hn & Hmax & Hread).
  specialize (Hmax ltac:(unfold INT_MAX; lia)).
  destruct (a && b).
  2:{ right. exists [], [], 0. unfold INT_MAX. simpl. repeat split; lia. }
  destruct rewinds.
  - destruct (Hread [] []) as (ws & bs & Hloop & Hws & Hbs).
    rewrite Z.sub_0_r in Hloop, Hws, Hbs.
    rewrite Hloop, outcome_bind_Returns.
    right. exists ws, bs, n. simpl. repeat split; lia.
  - pose proof (read_queries_loop_lengths copied (Z.to_nat n) rest [] []
                  eq_refl) as Hlen.
    destruct (read_queries_loop _ _ rest [] []) as [[ws bs]| |];
      [|by left|done].
    rewrite outcome_bind_Returns. simpl in Hlen.
    right. exists ws, bs, n. repeat split; lia.
Qed.

(** After the two readers have returned arrays without a [NULL] entry, the
    buffers of the queries written up to their length, [main] is the run
    from the sizing to the report on what they have read. *)
Lemma main_after_reading (insertFile testFile : option file)
    (alloc : allocations) (cells : list Z)
    (ws queries : list string) (bits : list Z) (n : Z) :
  readQuery testFile (query_words_allocated alloc)
    (query_bits_allocated alloc) (query_copies alloc) ([], [], 0)
  = Returns (Some <$> queries, bits, Z.of_nat (length queries)) ->
  readWordsFromFile insertFile (word_array_allocated alloc)
    (word_copies alloc)
  = Returns (Some (Some <$> ws, n)) ->
  n = Z.of_nat (length ws) /\
  main 3 insertFile testFile alloc (Some cells)
  = (r ← defined (main_run ws queries bits cells); Returns (0, Some r)).
Proof.
  intros Hq Hw.
  assert (Hn : n = Z.of_nat (length ws) /\ n <= INT_MAX).
  { destruct (readWordsFromFile_cases insertFile (word_array_allocated alloc)
                (word_copies alloc))
      as [[H _]|[[H _]|(array & H & Hmax & _)]];
      rewrite H in Hw; [done..|].
    injection Hw as -> <-. by rewrite length_fmap in *. }
  destruct Hn as [-> Hmax]. split; [done|].
  unfold main. simpl negb. cbv iota.
  rewrite Hq, outcome_bind_Returns, Hw, outcome_bind_Returns.
  unfold main_run.
  destruct (main_sizing (Z.of_nat (length ws))) as [[m k]|] eqn:Hsizing;
    [|done].
  apply main_sizing_count in Hsizing as ->; [|lia].
  rewrite defined_Some, outcome_bind_Returns. cbv beta iota.
  rewrite !pointees_6, !defined_Some, !outcome_bind_Returns.
  cbn [mbind option_bind].
  destruct (insertWords ws (Z.of_nat (length ws)) cells m 6) as [filled|];
    [|done].
  by rewrite !defined_Some, !outcome_bind_Returns.
Qed.

(** X21.  [main] is made of the two readers and the run from the sizing to
    the report.  With three arguments and a bit array allocated, [main]
    reads the queries, then the words, and then does exactly the run
    [main_run] on the words and the queries as read, provided that no copy
    of a word is [NULL] and that the query buffers are written up to their
    length; when a copy is [NULL], or when a failed [fseek] has left query
    entries unwritten, the behaviour of [main] is undefined. *)
Theorem main_reads_then_runs (insertFile testFile : option file)
    (alloc : allocations) (cells : list Z) :
  main 3 insertFile testFile alloc (Some cells)
  = ('(queries, bits, querySize) ←
       readQuery testFile (query_words_allocated alloc)
         (query_bits_allocated alloc) (query_copies alloc) ([], [], 0);
     read ← readWordsFromFile insertFile (word_array_allocated alloc)
              (word_copies alloc);
     match read with
     | None => Returns (-1, None)
     | Some (ppInsertWordListArray, _) =>
         match dereferenced ppInsertWordListArray, dereferenced queries with
         | Some ws, Some qs =>
             if querySize =? Z.of_nat (length qs)
             then r ← defined (main_run ws qs bits cells); Returns (0, Some r)
             else Undefined
         | _, _ => Undefined
         end
     end).
Proof.
  destruct (readQuery_cases testFile (query_words_allocated alloc)
              (query_bits_allocated alloc) (query_copies alloc))
    as [Hq|(queries & bits & querySize & Hq & Hlen & Hsize)].
  { unfold main. simpl negb. cbv iota. by rewrite Hq. }
  destruct (readWordsFromFile_cases insertFile (word_array_allocated alloc)
              (word_copies alloc))
    as [[Hw _]|[[Hw _]|(array & Hw & Hmax & _)]].
  { unfold main. simpl negb. cbv iota. by rewrite Hq, Hw. }
  { unfold main. simpl negb. cbv iota. by rewrite Hq, Hw. }
  rewrite Hq, outcome_bind_Returns, Hw, outcome_bind_Returns.
  destruct (dereferenced array) as [ws|] eqn:Hws.
  - apply dereferenced_Some in Hws as ->.
    destruct (dereferenced queries) as [qs|] eqn:Hqs.
    + apply dereferenced_Some in Hqs as ->. rewrite length_fmap in *.
      destruct (Z.eqb_spec querySize (Z.of_nat (length qs))) as [->|Hne].
      * by destruct (main_after_reading _ _ _ cells _ _ _ _ Hq Hw) as [_ ->].
      * unfold main. simpl negb. cbv iota.
        rewrite Hq, outcome_bind_Returns, Hw, outcome_bind_Returns.
        destruct (main_sizing _) as [[m k]|] eqn:Hsizing; [|done].
        apply main_sizing_count in Hsizing as ->; [|lia].
        rewrite defined_Some, outcome_bind_Returns. cbv beta iota.
        rewrite !pointees_6, !defined_Some, !outcome_bind_Returns.
        destruct (insertWords _ _ cells m 6) as [filled|]; [|done].
        rewrite !defined_Some, !outcome_bind_Returns.
        by rewrite testBloomWithQueries_unfilled by lia.
    + unfold main. simpl negb. cbv iota.
      rewrite Hq, outcome_bind_Returns, Hw, outcome_bind_Returns.
      destruct (main_sizing _) as [[m k]|] eqn:Hsizing; [|done].
      apply main_sizing_count in Hsizing as ->; [|lia].
      rewrite defined_Some, outcome_bind_Returns. cbv beta iota.
      rewrite pointees_6, !defined_Some, !outcome_bind_Returns.
      destruct (insertWords _ _ cells m 6) as [filled|]; [|done].
      rewrite ?defined_Some, ?outcome_bind_Returns.
      unfold pointees. simpl (0 <? 6). cbv iota. by rewrite Hqs.
  - unfold main. simpl negb. cbv iota.
    rewrite Hq, outcome_bind_Returns, Hw, outcome_bind_Returns.
    destruct (main_sizing _) as [[m k]|] eqn:Hsizing; [|done].
    apply main_sizing_count in Hsizing as ->; [|lia].
    rewrite defined_Some, outcome_bind_Returns. cbv beta iota.
    unfold pointees. simpl (0 <? 6). cbv iota. by rewrite Hws.
Qed.

(** X22.  No false negative from one end to the other.  When both readers
    return arrays without a [NULL] entry, the query buffers are written up
    to their length, the word file holds between 1 and 224044921 words, and
    every query record read with ground truth 1 names a word read from the
    word file, then on every block of [m] cells that [malloc] may return
    [main] returns 0 and the report it prints counts no false negative; its
    counters are consistent. *)
Theorem main_no_false_negatives (insertFile testFile : option file)
    (alloc : allocations) (ws queries : list string) (bits : list Z)
    (n : Z) :
  readQuery testFile (query_words_allocated alloc)
    (query_bits_allocated alloc) (query_copies alloc) ([], [], 0)
  = Returns (Some <$> queries, bits, Z.of_nat (length queries)) ->
  readWordsFromFile insertFile (word_array_allocated alloc)
    (word_copies alloc)
  = Returns (Some (Some <$> ws, n)) ->
  1 <= n <= 224044921 ->
  (forall i word, queries !! i = Some word -> bits !! i = Some 1 ->
                  word ∈ ws) ->
  exists m,
    main_sizing n = Some (m, 6) /\
    forall bitArray, malloc_int_array m bitArray ->
      exists r,
        main 3 insertFile testFile alloc (Some bitArray)
        = Returns (0, Some r) /\
        fNegative (counts r) = 0 /\
        totalPositive (counts r) + totalNegative (counts r)
        <= Z.of_nat (length queries) /\
        0 <= fPositive (counts r) <= totalNegative (counts r).
Proof.
  intros Hq Hw Hn Hpos.
  assert (Hbits : length bits = length queries).
  { destruct (readQuery_cases testFile (query_words_allocated alloc)
                (query_bits_allocated alloc) (query_copies alloc))
      as [H|(queries' & bits' & size & H & Hlen & _)]; rewrite H in Hq;
      [done|].
    injection Hq as -> -> _. by rewrite length_fmap in Hlen. }
  destruct (main_sizing_shape _ Hn) as (m & Hsizing & Hm).
  exists m. split; [exact Hsizing|].
  intros bitArray [cells Hcells].
  assert (Hshape : filter_shape cells m) by done.
  destruct (main_after_reading _ _ _ cells _ _ _ _ Hq Hw) as [-> ->].
  destruct (insertWords_shape ws cells m 6 Hshape)
    as (filled & Hrun & Hfilled).
  rewrite (main_run_after_sizing _ _ _ _ _ _ Hsizing), Hrun.
  cbn [mbind option_bind].
  pose (records := zip queries bits).
  assert (Hfst : records.*1 = queries) by (apply fst_zip; lia).
  assert (Hsnd : records.*2 = bits) by (apply snd_zip; lia).
  assert (Hlen : length records = length queries).
  { by rewrite <- Hfst, length_fmap. }
  replace (testBloomWithQueries filled queries bits
             (Z.of_nat (length queries)) m 6)
    with (testBloomWithQueries filled records.*1 records.*2
            (Z.of_nat (length records)) m 6)
    by (by rewrite Hfst, Hsnd, Hlen).
  rewrite (testBloomWithQueries_tally records filled m 6 Hfilled).
  rewrite defined_Some, outcome_bind_Returns.
  eexists. split; [done|].
  cbv zeta. cbn [counts].
  pose proof (tally_bounds (fun word => lookUp word filled m 6) records)
    as (_ & Hfp & Htotal).
  split; [|split; [lia | exact Hfp]].
  apply (no_false_negative_counted ws).
  - intros word Hword.
    exact (inserted_word_found ws cells filled m 6 word Hshape Hrun Hword).
  - intros [word bit] Hrecord Hbit. simpl in *. subst bit.
    apply list_elem_of_lookup in Hrecord as [i Hi].
    apply lookup_zip_with_Some in Hi as (w & b & Heq & Hqi & Hbi).
    simplify_eq. by apply (Hpos i).
Qed.

Lemma main_no_false_negatives_witness :
  readQuery (Some (File "cat 1 fish 0 " true)) true true (fun _ => true)
    ([], [], 0)
  = Returns (Some <$> ["cat"; "fish"]%string, [1; 0],
             Z.of_nat (length ["cat"; "fish"]%string)) /\
  readWordsFromFile (Some (File "cat dog " true)) true (fun _ => true)
  = Returns (Some (Some <$> ["cat"; "dog"]%string, 2)) /\
  1 <= 2 <= 224044921 /\
  (forall i word, ["cat"; "fish"]%string !! i = Some word ->
                  [1; 0] !! i = Some 1 -> word ∈ ["cat"; "dog"]%string) /\
  exists m,
    main_sizing 2 = Some (m, 6) /\
    forall bitArray, malloc_int_array m bitArray ->
      exists r,
        main 3 (Some (File "cat dog " true)) (Some (File "cat 1 fish 0 " true))
          (Allocations true (fun _ => true) true true (fun _ => true))
          (Some bitArray)
        = Returns (0, Some r) /\
        fNegative (counts r) = 0 /\
        totalPositive (counts r) + totalNegative (counts r)
        <= Z.of_nat (length ["cat"; "fish"]%string) /\
        0 <= fPositive (counts r) <= totalNegative (counts r).
Proof.
  assert (Hq : readQuery (Some (File "cat 1 fish 0 " true)) true true
                 (fun _ => true) ([], [], 0)
               = Returns (Some <$> ["cat"; "fish"]%string, [1; 0],
                          Z.of_nat (length ["cat"; "fish"]%string)))
    by reflexivity.
  assert (Hw : readWordsFromFile (Some (File "cat dog " true)) true
                 (fun _ => true)
               = Returns (Some (Some <$> ["cat"; "dog"]%string, 2)))
    by reflexivity.
  assert (Hn : 1 <= 2 <= 224044921) by lia.
  assert (Hpos : forall i word, ["cat"; "fish"]%string !! i = Some word ->
                   [1; 0] !! i = Some 1 -> word ∈ ["cat"; "dog"]%string).
  { intros [|[|i]] word Hword Hbit; simpl in Hword, Hbit.
    - injection Hword as <-. apply list_elem_of_here.
    - discriminate Hbit.
    - discriminate Hbit. }
  split; [exact Hq|]. split; [exact Hw|]. split; [exact Hn|].
  split; [exact Hpos|].
  exact (main_no_false_negatives (Some (File "cat dog " true))
           (Some (File "cat 1 fish 0 " true))
           (Allocations true (fun _ => true) true true (fun _ => true))
           ["cat"; "dog"]%string ["cat"; "fish"]%string [1; 0] 2
           Hq Hw Hn Hpos).
Defined.

(** X23.  A run without queries.  When [readQuery] leaves no query record
    and length 0, as it does when the query file cannot be opened, [main]
    does not fail: for a word file of between 1 and 224044921 words, read
    without a [NULL] copy, it builds the filter, returns 0, and the report
    has all four counters at 0 and both percentages the quotient 0.0/0, not
    a number. *)
Theorem main_without_queries (insertFile testFile : option file)
    (alloc : allocations) (ws : list string) (n : Z) :
  readQuery testFile (query_words_allocated alloc)
    (query_bits_allocated alloc) (query_copies alloc) ([], [], 0)
  = Returns ([], [], 0) ->
  readWordsFromFile insertFile (word_array_allocated alloc)
    (word_copies alloc)
  = Returns (Some (Some <$> ws, n)) ->
  1 <= n <= 224044921 ->
  exists m,
    main_sizing n = Some (m, 6) /\
    forall bitArray, malloc_int_array m bitArray ->
      main 3 insertFile testFile alloc (Some bitArray)
      = Returns (0, Some (Report no_counts NotANumber NotANumber)).
Proof.
  intros Hq Hw Hn.
  destruct (main_sizing_shape _ Hn) as (m & Hsizing & Hm).
  exists m. split; [exact Hsizing|].
  intros bitArray [cells Hcells].
  destruct (main_after_reading _ _ _ cells ws [] [] n Hq Hw) as [-> ->].
  destruct (insertWords_shape ws cells m 6 (conj Hm Hcells))
    as (filled & Hrun & _).
  by rewrite (main_run_after_sizing _ _ _ _ _ _ Hsizing), Hrun.
Qed.

Lemma main_without_queries_witness :
  readQuery None true true (fun _ => true) ([], [], 0)
  = Returns ([], [], 0) /\
  readWordsFromFile (Some (File "cat dog " true)) true (fun _ => true)
  = Returns (Some (Some <$> ["cat"; "dog"]%string, 2)) /\
  1 <= 2 <= 224044921 /\
  exists m,
    main_sizing 2 = Some (m, 6) /\
    forall bitArray, malloc_int_array m bitArray ->
      main 3 (Some (File "cat dog " true)) None
        (Allocations true (fun _ => true) true true (fun _ => true))
        (Some bitArray)
      = Returns (0, Some (Report no_counts NotANumber NotANumber)).
Proof.
  assert (Hq : readQuery None true true (fun _ => true) ([], [], 0)
               = Returns ([], [], 0)) by reflexivity.
  assert (Hw : readWordsFromFile (Some (File "cat dog " true)) true
                 (fun _ => true)
               = Returns (Some (Some <$> ["cat"; "dog"]%string, 2)))
    by reflexivity.
  assert (Hn : 1 <= 2 <= 224044921) by lia.
  split; [exact Hq|]. split; [exact Hw|]. split; [exact Hn|].
  exact (main_without_queries (Some (File "cat dog " true)) None
           (Allocations true (fun _ => true) true true (fun _ => true))
           ["cat"; "dog"]%string 2 Hq Hw Hn).
Defined.

(** X24.  A word file without a word.  When the word file is empty or holds
    only white space and [malloc(0)] returns an array, [readWordsFromFile]
    returns that array with length 0, not [NULL], whether the stream can be
    repositioned or not, so [main] goes on to the sizing and divides by
    zero there: its behaviour is undefined, whatever the query file and the
    other allocations. *)
Theorem main_blank_word_file (content : string) (rewinds : bool)
    (testFile : option file) (copied copied' : nat -> bool)
    (query_words query_bits : bool) (bitArray : option (list Z)) :
  all_chars is_space content = true ->
  readWordsFromFile (Some (File content rewinds)) true copied
  = Returns (Some ([], 0)) /\
  main 3 (Some (File content rewinds)) testFile
    (Allocations true copied query_words query_bits copied') bitArray
  = Undefined.
Proof.
  intros Hblank.
  assert (Htokens : tokens content = []).
  { rewrite <- (append_empty_r content). by rewrite tokens_blank. }
  assert (Hread : readWordsFromFile (Some (File content rewinds)) true copied
                  = Returns (Some ([], 0))).
  { unfold readWordsFromFile. cbn [contents].
    rewrite count_words_loop_tokens; rewrite ?Htokens; [done|lia|done..]. }
  split; [exact Hread|].
  unfold main. simpl negb. cbv iota.
  cbn [word_array_allocated word_copies query_words_allocated
       query_bits_allocated query_copies].
  pose proof (readQuery_ends testFile query_words query_bits copied'
                ([], [], 0)) as Hq.
  destruct (readQuery _ _ _ _ _) as [[[queries bits] querySize]| |];
    [|done..].
  rewrite outcome_bind_Returns, Hread, outcome_bind_Returns.
  assert (Hsizing : main_sizing 0 = None).
  { unfold main_sizing. by destruct (calculateOptimalArraySize 0). }
  by rewrite Hsizing.
Qed.

Lemma main_blank_word_file_witness :
  all_chars is_space (String "032" (String "010" "")) = true /\
  readWordsFromFile (Some (File (String "032" (String "010" "")) false)) true
    (fun _ => true)
  = Returns (Some ([], 0)) /\
  main 3 (Some (File (String "032" (String "010" "")) false))
    (Some (File "cat 1" true))
    (Allocations true (fun _ => true) true true (fun _ => true))
    (Some [0; 0; 0])
  = Undefined.
Proof.
  assert (Hblank : all_chars is_space (String "032" (String "010" "")) = true)
    by reflexivity.
  split; [exact Hblank|].
  exact (main_blank_word_file (String "032" (String "010" "")) false
           (Some (File "cat 1" true)) (fun _ => true) (fun _ => true)
           true true (Some [0; 0; 0]) Hblank).
Defined.
